(** * Knowledge-graph memory store and sandboxed filesystem servers

    A shallow embedding of the three tool servers of the repository
    ([MemoryServer], [FilesystemServer] and
    [ComprehensiveFilesystemMemoryServer]) together with the parts of the
    JavaScript and Node run time they rely on: strings, ordinary objects
    used as maps, [path.resolve], [Date] and [String.prototype.replace].

    Strings are sequences of 8-bit characters; [toLowerCase] folds the
    letters A-Z.  Names that live on [Object.prototype] (such as
    [constructor]) are outside the model: a lookup in an object is a
    lookup among its own properties. *)

From Stdlib Require Import String Ascii List Bool Arith ZArith Lia Sorted Permutation.
Import ListNotations.

Set Implicit Arguments.
Local Open Scope string_scope.

(** ** JavaScript strings *)

Module JsString.

Definition is_upper (c : ascii) : bool :=
  let n := nat_of_ascii c in (65 <=? n)%nat && (n <=? 90)%nat.

Definition lower_char (c : ascii) : ascii :=
  if is_upper c then ascii_of_nat (nat_of_ascii c + 32) else c.

(** [s.toLowerCase()] *)
Fixpoint toLowerCase (s : string) : string :=
  match s with
  | EmptyString => EmptyString
  | String c s' => String (lower_char c) (toLowerCase s')
  end.

(** [s.startsWith(p)] *)
Definition startsWith (s p : string) : bool := String.prefix p s.

(** [s.indexOf(pat)]: the first position at which [pat] occurs. *)
Fixpoint indexOf (s pat : string) : option nat :=
  if String.prefix pat s then Some 0
  else match s with
       | EmptyString => None
       | String _ s' => option_map S (indexOf s' pat)
       end.

(** [s.includes(pat)] *)
Definition includes (s pat : string) : bool :=
  match indexOf s pat with Some _ => true | None => false end.

(** [s.substring(0, n)] *)
Fixpoint take (n : nat) (s : string) : string :=
  match n, s with
  | S n', String c s' => String c (take n' s')
  | _, _ => EmptyString
  end.

(** [s.slice(n)] *)
Fixpoint drop (n : nat) (s : string) : string :=
  match n, s with
  | S n', String _ s' => drop n' s'
  | _, _ => s
  end.

(** The expansion of a replacement template ([GetSubstitution] of the
    language standard) for a pattern that is a string: there are no
    captures, so only [$$], [$&], [$`] and [$'] are special and every
    other use of [$] stands for itself. *)
Fixpoint getSubstitution (matched before after template : string) : string :=
  match template with
  | EmptyString => EmptyString
  | String "$" (String "$" rest) =>
      String "$" (getSubstitution matched before after rest)
  | String "$" (String "&" rest) =>
      matched ++ getSubstitution matched before after rest
  | String "$" (String "`" rest) =>
      before ++ getSubstitution matched before after rest
  | String "$" (String "'" rest) =>
      after ++ getSubstitution matched before after rest
  | String c rest => String c (getSubstitution matched before after rest)
  end.

(** [s.replace(pat, template)] with a string pattern: the first
    occurrence only, the template expanded by [getSubstitution]. *)
Definition replace (s pat template : string) : string :=
  match indexOf s pat with
  | None => s
  | Some i =>
      let before := take i s in
      let after := drop (i + String.length pat) s in
      before ++ getSubstitution pat before after template ++ after
  end.

(** The literal replacement of the first occurrence, with no template
    expansion: what an edit is meant to be. *)
Definition replace_literal (s pat new : string) : string :=
  match indexOf s pat with
  | None => s
  | Some i => take i s ++ new ++ drop (i + String.length pat) s
  end.

(** [s.split(sep)] for a separator that is not empty. [skip] counts the
    characters of a separator just matched that are still to be
    consumed, [cur] is the piece being read, in reverse. *)
Fixpoint rev_string (acc s : string) : string :=
  match s with
  | EmptyString => acc
  | String c s' => rev_string (String c acc) s'
  end.

Fixpoint split_aux (sep : string) (skip : nat) (cur : string) (s : string)
  : list string :=
  match s with
  | EmptyString => [rev_string EmptyString cur]
  | String c s' =>
      match skip with
      | S k => split_aux sep k cur s'
      | O =>
          if String.prefix sep s
          then rev_string EmptyString cur :: split_aux sep (String.length sep - 1) EmptyString s'
          else split_aux sep 0 (String c cur) s'
      end
  end.

Definition split (s sep : string) : list string := split_aux sep 0 EmptyString s.

(** Decimal rendering of a number inside a template literal. *)
Fixpoint digits_aux (fuel n : nat) (acc : string) : string :=
  match fuel with
  | O => acc
  | S f =>
      let acc' := String (ascii_of_nat (48 + n mod 10)) acc in
      if (n <? 10)%nat then acc' else digits_aux f (n / 10) acc'
  end.

Definition of_nat (n : nat) : string := digits_aux (S n) n EmptyString.

Definition of_Z (z : Z) : string :=
  if (z <? 0)%Z then "-" ++ of_nat (Z.to_nat (- z)) else of_nat (Z.to_nat z).

Definition of_bool (b : bool) : string := if b then "true" else "false".

End JsString.

(** ** Ordinary objects used as maps

    An object is the list of its own properties in the order in which
    [Object.keys], [Object.values] and [Object.entries] enumerate them:
    keys that are array indices first, in ascending numeric order, then
    every other key in the order of its creation.  Assigning to a key
    that exists keeps its place.

    Only own properties are listed.  The objects of the program are
    created by [{}] or by [JSON.parse], so that [o[k]] finds, under the
    names of the members of [Object.prototype], a value where [o] has
    no property of its own; [get] and [has] are [o[k]] and its test for
    truth for every other key. *)

Module JsObject.

Definition t (V : Type) : Type := list (string * V).

(** The names of the members of [Object.prototype], which every object
    made by [{}] or by [JSON.parse] inherits. *)
Definition inherited (k : string) : bool :=
  existsb (String.eqb k)
    ["constructor"; "__proto__"; "hasOwnProperty"; "isPrototypeOf";
     "propertyIsEnumerable"; "toLocaleString"; "toString"; "valueOf";
     "__defineGetter__"; "__defineSetter__"; "__lookupGetter__";
     "__lookupSetter__"].

Definition is_digit (c : ascii) : bool :=
  let n := nat_of_ascii c in (48 <=? n)%nat && (n <=? 57)%nat.

Fixpoint all_digits (s : string) : bool :=
  match s with
  | EmptyString => true
  | String c s' => is_digit c && all_digits s'
  end.

Fixpoint decimal_value (acc : N) (s : string) : N :=
  match s with
  | EmptyString => acc
  | String c s' =>
      decimal_value (10 * acc + N.of_nat (nat_of_ascii c - 48))%N s'
  end.

(** A key is an array index when it is the canonical decimal numeral
    of an integer between 0 and 2^32 - 2. *)
Definition array_index (k : string) : option N :=
  match k with
  | EmptyString => None
  | String c rest =>
      if all_digits k
         && (negb (Ascii.eqb c "0") || String.eqb rest EmptyString)
         && (String.length k <=? 10)%nat
      then let n := decimal_value 0 k in
           if (n <=? 4294967294)%N then Some n else None
      else None
  end.

Section Ops.
Variable V : Type.

Definition empty : t V := [].

(** [o[k]] for a key that is not inherited: the own property. *)
Fixpoint get (k : string) (o : t V) : option V :=
  match o with
  | [] => None
  | (k', v) :: o' => if String.eqb k k' then Some v else get k o'
  end.

Definition has (k : string) (o : t V) : bool :=
  match get k o with Some _ => true | None => false end.

Fixpoint replace_value (k : string) (v : V) (o : t V) : t V :=
  match o with
  | [] => []
  | (k', v') :: o' =>
      if String.eqb k k' then (k', v) :: o'
      else (k', v') :: replace_value k v o'
  end.

(** The place of a new array-index key: before the first key that is
    not an array index or is a larger one. *)
Fixpoint insert_index (n : N) (k : string) (v : V) (o : t V) : t V :=
  match o with
  | [] => [(k, v)]
  | (k', v') :: o' =>
      match array_index k' with
      | Some m =>
          if (m <? n)%N then (k', v') :: insert_index n k v o'
          else (k, v) :: o
      | None => (k, v) :: o
      end
  end.

(** [o[k] = v] for a key other than [__proto__] *)
Definition set (k : string) (v : V) (o : t V) : t V :=
  if has k o then replace_value k v o
  else match array_index k with
       | Some n => insert_index n k v o
       | None => (o ++ [(k, v)])%list
       end.

(** [o[k] = v] where [v] is a string or a number and [o] was made by
    [{}]: under the key [__proto__] the assignment reaches the accessor
    of [Object.prototype], which ignores a value that is not an object,
    and [o] gets no property.  Under every other key, inherited or not,
    [o] gets a property of its own. *)
Definition set_primitive (k : string) (v : V) (o : t V) : t V :=
  if String.eqb k "__proto__" then o else set k v o.

(** [delete o[k]] *)
Definition delete (k : string) (o : t V) : t V :=
  filter (fun kv => negb (String.eqb k (fst kv))) o.

(** [Object.keys(o)], [Object.values(o)] *)
Definition keys (o : t V) : list string := map fst o.
Definition values (o : t V) : list V := map snd o.

(** A loop over [Object.values(o)] that assigns to a field of every
    value. *)
Definition update_all (f : V -> V) (o : t V) : t V :=
  map (fun kv => (fst kv, f (snd kv))) o.

End Ops.

Arguments empty {V}.

End JsObject.

(** ** Node's [path] module (POSIX) *)

Module NodePath.

Definition is_slash (c : ascii) : bool := Ascii.eqb c "/".

(** The pieces of a path between its slashes. *)
Fixpoint segments_aux (cur : string) (s : string) : list string :=
  match s with
  | EmptyString => [JsString.rev_string EmptyString cur]
  | String c s' =>
      if is_slash c
      then JsString.rev_string EmptyString cur :: segments_aux EmptyString s'
      else segments_aux (String c cur) s'
  end.

Definition segments (s : string) : list string := segments_aux EmptyString s.

Fixpoint join (l : list string) : string :=
  match l with
  | [] => EmptyString
  | [x] => x
  | x :: l' => x ++ "/" ++ join l'
  end.

(** One step of [normalizeString]: [res] is the stack of segments kept
    so far, the last one first. *)
Definition push_segment (allowAboveRoot : bool) (res : list string)
           (seg : string) : list string :=
  if String.eqb seg EmptyString || String.eqb seg "." then res
  else if String.eqb seg ".." then
    match res with
    | last :: rest =>
        if String.eqb last ".."
        then (if allowAboveRoot then ".." :: res else res)
        else rest
    | [] => if allowAboveRoot then [".."] else []
    end
  else seg :: res.

Definition normalize_segments (allowAboveRoot : bool) (segs : list string)
  : list string :=
  rev (fold_left (push_segment allowAboveRoot) segs []).

Definition normalizeString (path : string) (allowAboveRoot : bool) : string :=
  join (normalize_segments allowAboveRoot (segments path)).

Definition isAbsolute (p : string) : bool :=
  match p with String c _ => is_slash c | EmptyString => false end.

(** [path.resolve(p)] in a process whose working directory is [cwd]. *)
Definition resolve (cwd p : string) : string :=
  let s1 := if String.eqb p EmptyString then EmptyString else p ++ "/" in
  let '(s2, absolute) :=
    if isAbsolute p then (s1, true)
    else if String.eqb cwd EmptyString then (s1, false)
    else (cwd ++ "/" ++ s1, isAbsolute cwd) in
  let r := normalizeString s2 (negb absolute) in
  if absolute then "/" ++ r
  else if String.eqb r EmptyString then "." else r.

(** The backward scan of [path.dirname]: [i] is the index of the head
    of the reversed path; the scan stops before index 0. *)
Fixpoint dirname_scan (i : nat) (rev_path : string) (matchedSlash : bool)
  : option nat :=
  match rev_path, i with
  | String c r, S i' =>
      if is_slash c
      then (if matchedSlash then dirname_scan i' r true else Some i)
      else dirname_scan i' r false
  | _, _ => None
  end.

Definition dirname (path : string) : string :=
  if String.eqb path EmptyString then "."
  else
    let hasRoot := isAbsolute path in
    match dirname_scan (String.length path - 1)
                       (JsString.rev_string EmptyString path) true with
    | None => if hasRoot then "/" else "."
    | Some e =>
        if hasRoot && (e =? 1)%nat then "//" else JsString.take e path
    end.

(** The backward scan of [path.basename]: returns [start] and [end]. *)
Fixpoint basename_scan (i : nat) (rev_path : string) (matchedSlash : bool)
         (e : option nat) : nat * option nat :=
  match rev_path with
  | EmptyString => (0, e)
  | String c r =>
      if is_slash c
      then (if matchedSlash then basename_scan (i - 1) r true e
            else (S i, e))
      else match e with
           | None => basename_scan (i - 1) r false (Some (S i))
           | Some _ => basename_scan (i - 1) r matchedSlash e
           end
  end.

Definition basename (path : string) : string :=
  match basename_scan (String.length path - 1)
                      (JsString.rev_string EmptyString path) true None with
  | (_, None) => EmptyString
  | (start, Some e) => JsString.take (e - start) (JsString.drop start path)
  end.

End NodePath.

(** ** Dates

    A time value is a number of milliseconds since the epoch.  Parsing
    recognises the text that [toISOString] produces for the years 0 to
    9999; any other text is an invalid date. *)

Module JsDate.
Local Open Scope Z_scope.

Definition msPerDay : Z := 86400000.

(** Year, month and day of a day number counted from the epoch. *)
Definition civil_from_days (z0 : Z) : Z * Z * Z :=
  let z := z0 + 719468 in
  let era := z / 146097 in
  let doe := z - era * 146097 in
  let yoe := (doe - doe / 1460 + doe / 36524 - doe / 146096) / 365 in
  let y := yoe + era * 400 in
  let doy := doe - (365 * yoe + yoe / 4 - yoe / 100) in
  let mp := (5 * doy + 2) / 153 in
  let d := doy - (153 * mp + 2) / 5 + 1 in
  let m := if mp <? 10 then mp + 3 else mp - 9 in
  (if m <=? 2 then y + 1 else y, m, d).

Definition days_from_civil (y0 m d : Z) : Z :=
  let y := if m <=? 2 then y0 - 1 else y0 in
  let era := y / 400 in
  let yoe := y - era * 400 in
  let doy := (153 * (if 2 <? m then m - 3 else m + 9) + 2) / 5 + d - 1 in
  let doe := yoe * 365 + yoe / 4 - yoe / 100 + doy in
  era * 146097 + doe - 719468.

Definition digit (n : Z) : ascii := ascii_of_nat (48 + Z.to_nat (n mod 10)).

Definition pad2 (n : Z) : string :=
  String (digit (n / 10)) (String (digit n) EmptyString).
Definition pad3 (n : Z) : string := String (digit (n / 100)) (pad2 n).
Definition pad4 (n : Z) : string := String (digit (n / 1000)) (pad3 n).
Definition pad6 (n : Z) : string :=
  String (digit (n / 100000)) (String (digit (n / 10000)) (pad4 n)).

(** [new Date(t).toISOString()] *)
Definition toISOString (t : Z) : string :=
  let days := t / msPerDay in
  let ms := t mod msPerDay in
  let '(y, m, d) := civil_from_days days in
  let year :=
    if (0 <=? y) && (y <=? 9999) then pad4 y
    else if y <? 0 then ("-" ++ pad6 (- y))%string
    else ("+" ++ pad6 y)%string in
  (year ++ "-" ++ pad2 m ++ "-" ++ pad2 d ++ "T"
     ++ pad2 (ms / 3600000) ++ ":" ++ pad2 (ms / 60000 mod 60) ++ ":"
     ++ pad2 (ms / 1000 mod 60) ++ "." ++ pad3 (ms mod 1000) ++ "Z")%string.

Fixpoint number (acc : Z) (s : string) : option Z :=
  match s with
  | EmptyString => Some acc
  | String c s' =>
      if JsObject.is_digit c
      then number (10 * acc + Z.of_nat (nat_of_ascii c - 48)) s'
      else None
  end.

(** The field of [n] digits at the head of [s], and the rest. *)
Definition field (n : nat) (s : string) : option (Z * string) :=
  if (String.length s <? n)%nat then None
  else match number 0 (JsString.take n s) with
       | Some v => Some (v, JsString.drop n s)
       | None => None
       end.

Definition expect (c : ascii) (s : string) : option string :=
  match s with
  | String c' s' => if Ascii.eqb c c' then Some s' else None
  | EmptyString => None
  end.

Definition is_leap (y : Z) : bool :=
  ((y mod 4 =? 0) && negb (y mod 100 =? 0)) || (y mod 400 =? 0).

Definition days_in_month (y m : Z) : Z :=
  if m =? 2 then (if is_leap y then 29 else 28)
  else if (m =? 4) || (m =? 6) || (m =? 9) || (m =? 11) then 30 else 31.

Definition bind {A B} (o : option A) (f : A -> option B) : option B :=
  match o with Some a => f a | None => None end.

(** The time value of [new Date(text)]; [None] is the invalid date. *)
Definition parse (text : string) : option Z :=
  bind (field 4 text) (fun '(y, s) =>
  bind (expect "-" s) (fun s =>
  bind (field 2 s) (fun '(m, s) =>
  bind (expect "-" s) (fun s =>
  bind (field 2 s) (fun '(d, s) =>
  bind (expect "T" s) (fun s =>
  bind (field 2 s) (fun '(h, s) =>
  bind (expect ":" s) (fun s =>
  bind (field 2 s) (fun '(mi, s) =>
  bind (expect ":" s) (fun s =>
  bind (field 2 s) (fun '(sec, s) =>
  bind (expect "." s) (fun s =>
  bind (field 3 s) (fun '(ms, s) =>
  if String.eqb s "Z"
     && (1 <=? m) && (m <=? 12) && (1 <=? d) && (d <=? days_in_month y m)
     && (mi <=? 59) && (sec <=? 59)
     && ((h <=? 23) || ((h =? 24) && (mi =? 0) && (sec =? 0) && (ms =? 0)))
  then Some (days_from_civil y m d * msPerDay
             + h * 3600000 + mi * 60000 + sec * 1000 + ms)
  else None))))))))))))).

(** [new Date(a) > new Date(b)] where the right side is a valid date:
    an invalid date on the left compares false. *)
Definition later_than (text : option string) (t : Z) : bool :=
  match text with
  | Some s => match parse s with Some v => t <? v | None => false end
  | None => false
  end.

End JsDate.

(** ** The data model ([types/index.ts]) *)

Record MemoryRelation : Type := {
  from : string;
  to : string;
  relationType : string
}.

(** A [MemoryEntity] is what a caller supplies; its observations are
    optional. *)
Record MemoryEntity : Type := {
  entity_name : string;
  entity_entityType : string;
  entity_observations : option (list string)
}.

Record MemoryNode : Type := {
  name : string;
  entityType : string;
  observations : list string;
  relations : list MemoryRelation
}.

(** The [entities] object of a [MemoryGraph]. *)
Definition MemoryGraph : Type := JsObject.t MemoryNode.

Record MemorySearchResult : Type := {
  result_name : string;
  result_entityType : string;
  result_observations : list string;
  result_relations : list MemoryRelation;
  score : nat
}.

Definition set_observations (n : MemoryNode) (obs : list string) : MemoryNode :=
  {| name := name n; entityType := entityType n;
     observations := obs; relations := relations n |}.

Definition set_relations (n : MemoryNode) (rs : list MemoryRelation)
  : MemoryNode :=
  {| name := name n; entityType := entityType n;
     observations := observations n; relations := rs |}.

(** [entity.observations || []] *)
Definition observations_or_empty (e : MemoryEntity) : list string :=
  match entity_observations e with Some l => l | None => [] end.

(** [l.includes(x)] on an array of strings. *)
Definition includes (l : list string) (x : string) : bool :=
  existsb (String.eqb x) l.

(** [[...new Set(l)]]: the first occurrence of every string, in order. *)
Fixpoint new_Set (l : list string) : list string :=
  match l with
  | [] => []
  | x :: l' => x :: filter (fun y => negb (String.eqb x y)) (new_Set l')
  end.

(** [results.join('\n')] *)
Definition newline : string := String (ascii_of_nat 10) EmptyString.

Fixpoint join_lines (l : list string) : string :=
  match l with
  | [] => EmptyString
  | [x] => x
  | x :: l' => x ++ newline ++ join_lines l'
  end.

(** [l.slice(0, e)] for an integer [e]: a negative [e] counts from the
    end of the array. *)
Definition slice_to {A : Type} (e : Z) (l : list A) : list A :=
  if (e <? 0)%Z then firstn (length l - Z.to_nat (- e)) l
  else firstn (Z.to_nat e) l.

(** [l.slice(-n)]: the last [n] elements. *)
Definition slice_last {A : Type} (n : nat) (l : list A) : list A :=
  skipn (length l - n) l.

(** What the servers read of an [fs.Stats]. *)
Record Stats : Type := {
  size : nat;
  stats_isDirectory : bool;
  stats_isFile : bool;
  mtime : string
}.

(** The text of a tool result.  Where the source passes a value through
    [JSON.stringify], the value itself stands for its text. *)
Inductive Payload : Type :=
| Text (s : string)
| JsonSearchResults (l : list MemorySearchResult)
| JsonGraph (g : MemoryGraph)
| JsonNodes (l : list MemoryNode)
| JsonNames (l : list string)
| JsonFileMap (m : JsObject.t string)
| JsonDirectories (dirs : list string) (count : nat)
| JsonStats (path : string) (stats : Stats).

Record CallToolResult : Type := {
  content : Payload;
  isError : bool
}.

Definition text_result (s : string) : CallToolResult :=
  {| content := Text s; isError := false |}.

(** ** Computations that read and write a server and may throw *)

Inductive Outcome (A : Type) : Type :=
| Return (a : A)
| Throw (message : string).

Arguments Throw {A} message.

Definition M (St A : Type) : Type := St -> Outcome A * St.

Definition ret {St A} (a : A) : M St A := fun s => (Return a, s).

Definition bind {St A B} (c : M St A) (k : A -> M St B) : M St B :=
  fun s => match c s with
           | (Return a, s') => k a s'
           | (Throw m, s') => (Throw m, s')
           end.

Definition throw {St A} (message : string) : M St A :=
  fun s => (Throw message, s).

(** [try { c } catch (error) { handler(error.message) }]: what [c] did to
    the state before it threw is kept. *)
Definition try_catch {St A} (c : M St A) (handler : string -> M St A)
  : M St A :=
  fun s => match c s with
           | (Return a, s') => (Return a, s')
           | (Throw m, s') => handler m s'
           end.

Definition gets {St A} (f : St -> A) : M St A := fun s => (Return (f s), s).
Definition modify {St} (f : St -> St) : M St unit := fun s => (Return tt, f s).

Declare Scope server_scope.
Delimit Scope server_scope with server.
Notation "x <- c ;; k" := (bind c (fun x => k))
  (at level 61, c at next level, right associativity) : server_scope.
Notation "c ;;; k" := (bind c (fun _ => k))
  (at level 61, right associativity) : server_scope.

(** [for (const x of l) { body(x) }] *)
Fixpoint for_each {St A} (l : list A) (body : A -> M St unit) : M St unit :=
  match l with
  | [] => ret tt
  | x :: l' => bind (body x) (fun _ => for_each l' body)
  end.

(** ** The host: file system, clock and working directory

    Everything the servers ask of Node.  A JSON document that a server
    writes or reads as a whole (the graph file, the configuration
    sidecar) is stored and loaded in one step. *)

Inductive Query : Type :=
| ListWithSizes (path : string)
| Tree (path : string) (maxDepth : nat)
| Glob (path pattern : string) (maxResults : nat).

Class Host (W : Type) : Type := {
  (** [process.cwd()] *)
  cwd : W -> string;
  (** [Date.now()], [new Date()]: the clock moves only when the world
      does *)
  date_now : W -> Z;
  (** [fs.readFile(path, 'utf-8')]: the content, or the error message *)
  fs_readFile : string -> W -> string + string;
  (** [fs.writeFile(path, content, 'utf-8')] *)
  fs_writeFile : string -> string -> W -> option string * W;
  (** [fs.mkdir(path, { recursive: true })] *)
  fs_mkdir : string -> W -> option string * W;
  (** [fs.rename(source, destination)] *)
  fs_rename : string -> string -> W -> option string * W;
  (** [fs.readdir(path)] *)
  fs_readdir : string -> W -> list string + string;
  (** [fs.stat(path)] *)
  fs_stat : string -> W -> Stats + string;
  (** The text that a read-only traversal ([fs.readdir], [fs.stat],
      [glob]) and [JSON.stringify] produce, or the error thrown *)
  fs_query : Query -> W -> string + string;
  (** [JSON.parse(await fs.readFile(path))] of a graph file; [None] when
      either step throws *)
  load_graph : string -> W -> option MemoryGraph;
  (** [fs.writeFile(path, JSON.stringify(graph, null, 2))] *)
  store_graph : string -> MemoryGraph -> W -> option string * W;
  (** [fs.writeFile(path, JSON.stringify({allowedDirectories, lastUpdated}))] *)
  store_config : string -> list string -> string -> W -> option string * W
}.

(** What a server reads of its configuration sidecar:
    [JSON.parse(await fs.readFile(path))] and the test
    [config.allowedDirectories && Array.isArray(config.allowedDirectories)].
    [None] when a step throws or the test fails. *)
Class ConfigReader (W : Type) : Type := {
  load_config : string -> W -> option (list string)
}.

(** [Array.prototype.sort(compare)]: the sort is stable, so its result is
    that of inserting every element, from the last to the first, before
    the first element it does not have to follow. *)
Section Sort.
Variable A : Type.
Variable compare : A -> A -> Z.

Fixpoint sort_insert (x : A) (l : list A) : list A :=
  match l with
  | [] => [x]
  | y :: l' =>
      if (0 <? compare x y)%Z then y :: sort_insert x l' else x :: l
  end.

Definition sort (l : list A) : list A := fold_right sort_insert [] l.
End Sort.

(** [(a, b) => (b.score || 0) - (a.score || 0)] *)
Definition by_score_descending (a b : MemorySearchResult) : Z :=
  (Z.of_nat (score b) - Z.of_nat (score a))%Z.

Definition stub (nm : string) : MemoryNode :=
  {| name := nm; entityType := "unknown"; observations := []; relations := [] |}.

(** [r => r.to === relation.to && r.relationType === relation.relationType] *)
Definition same_edge (relation r : MemoryRelation) : bool :=
  String.eqb (to r) (to relation)
  && String.eqb (relationType r) (relationType relation).

(** ** The memory server ([MemoryServer]) *)

Module MemoryServer.

(** *** The loops over [this.memoryGraph.entities]

    An entity is looked up as a property of its own ([JsObject.get],
    [JsObject.has]).  That is [this.memoryGraph.entities[name]] and its
    test for truth for every name but those of the members of
    [Object.prototype] ([JsObject.inherited]); the statements that
    depend on the difference are about the other names ([ordinary]). *)

Definition createEntities_step (g : MemoryGraph) (entity : MemoryEntity)
  : MemoryGraph * string :=
  let node := {| name := entity_name entity;
                 entityType := entity_entityType entity;
                 observations := observations_or_empty entity;
                 relations := [] |} in
  match JsObject.get (entity_name entity) g with
  | Some existing =>
      (JsObject.set (entity_name entity)
         (set_observations existing
            (new_Set (observations existing ++ observations node)%list)) g,
       "Updated entity: " ++ entity_name entity)
  | None =>
      (JsObject.set (entity_name entity) node g,
       "Created entity: " ++ entity_name entity)
  end.

Fixpoint createEntities_loop (entities : list MemoryEntity) (g : MemoryGraph)
  : MemoryGraph * list string :=
  match entities with
  | [] => (g, [])
  | entity :: rest =>
      let (g1, r) := createEntities_step g entity in
      let (g2, rs) := createEntities_loop rest g1 in
      (g2, r :: rs)
  end.

Definition ensure_entity (nm : string) (g : MemoryGraph) : MemoryGraph :=
  if JsObject.has nm g then g else JsObject.set nm (stub nm) g.

Definition relation_text (relation : MemoryRelation) : string :=
  from relation ++ " -> " ++ to relation
    ++ " (" ++ relationType relation ++ ")".

Definition createRelations_step (g : MemoryGraph) (relation : MemoryRelation)
  : MemoryGraph * string :=
  let g' := ensure_entity (to relation) (ensure_entity (from relation) g) in
  match JsObject.get (from relation) g' with
  | Some sourceEntity =>
      if existsb (same_edge relation) (relations sourceEntity)
      then (g', "Relation already exists: " ++ relation_text relation)
      else (JsObject.set (from relation)
              (set_relations sourceEntity
                 (relations sourceEntity ++ [relation])%list) g',
            "Created relation: " ++ relation_text relation)
  | None => (g', "Created relation: " ++ relation_text relation)
  end.

Fixpoint createRelations_loop (rels : list MemoryRelation) (g : MemoryGraph)
  : MemoryGraph * list string :=
  match rels with
  | [] => (g, [])
  | relation :: rest =>
      let (g1, r) := createRelations_step g relation in
      let (g2, rs) := createRelations_loop rest g1 in
      (g2, r :: rs)
  end.

(** [entity.relations.filter(r => r.to !== name)] for every entity *)
Definition strip_relations_to (nm : string) (g : MemoryGraph) : MemoryGraph :=
  JsObject.update_all
    (fun entity =>
       set_relations entity
         (filter (fun r => negb (String.eqb (to r) nm)) (relations entity)))
    g.

Definition deleteEntities_step (g : MemoryGraph) (nm : string)
  : MemoryGraph * string :=
  if JsObject.has nm g
  then (strip_relations_to nm (JsObject.delete nm g), "Deleted entity: " ++ nm)
  else (g, "Entity not found: " ++ nm).

Fixpoint deleteEntities_loop (names : list string) (g : MemoryGraph)
  : MemoryGraph * list string :=
  match names with
  | [] => (g, [])
  | nm :: rest =>
      let (g1, r) := deleteEntities_step g nm in
      let (g2, rs) := deleteEntities_loop rest g1 in
      (g2, r :: rs)
  end.

Definition deleteRelations_step (g : MemoryGraph) (relation : MemoryRelation)
  : MemoryGraph * list string :=
  match JsObject.get (from relation) g with
  | Some entity =>
      let kept := filter (fun r => negb (same_edge relation r))
                         (relations entity) in
      (JsObject.set (from relation) (set_relations entity kept) g,
       [(if (length kept <? length (relations entity))%nat
         then "Deleted relation: " else "Relation not found: ")
        ++ relation_text relation])
  | None => (g, [])
  end.

Fixpoint deleteRelations_loop (rels : list MemoryRelation) (g : MemoryGraph)
  : MemoryGraph * list string :=
  match rels with
  | [] => (g, [])
  | relation :: rest =>
      let (g1, r) := deleteRelations_step g relation in
      let (g2, rs) := deleteRelations_loop rest g1 in
      (g2, (r ++ rs)%list)
  end.

(** The score of one entity for a query already in lower case. *)
Definition score_of (queryLower : string) (nm : string) (entity : MemoryNode)
  : nat :=
  let hit s := JsString.includes (JsString.toLowerCase s) queryLower in
  (if hit nm then 10 else 0)
  + (if hit (entityType entity) then 5 else 0)
  + fold_left (fun sc observation => if hit observation then sc + 3 else sc)
              (observations entity) 0
  + fold_left (fun sc relation =>
                 if hit (relationType relation) || hit (to relation)
                 then sc + 2 else sc)
              (relations entity) 0.

Definition search_result (entity : MemoryNode) (sc : nat)
  : MemorySearchResult :=
  {| result_name := name entity; result_entityType := entityType entity;
     result_observations := observations entity;
     result_relations := relations entity; score := sc |}.

(** The results pushed by the loop over [Object.entries], before the
    sort. *)
Fixpoint search_loop (queryLower : string) (entries : list (string * MemoryNode))
  : list MemorySearchResult :=
  match entries with
  | [] => []
  | (nm, entity) :: rest =>
      let sc := score_of queryLower nm entity in
      if (0 <? sc)%nat
      then search_result entity sc :: search_loop queryLower rest
      else search_loop queryLower rest
  end.

Definition search (query : string) (g : MemoryGraph)
  : list MemorySearchResult :=
  sort by_score_descending (search_loop (JsString.toLowerCase query) g).

(** *** The methods *)

Section Methods.
Context {W : Type} {host : Host W}.
Local Open Scope server_scope.

Record State : Type := {
  world : W;
  memoryFilePath : string;
  memoryGraph : MemoryGraph;
  isInitialized : bool
}.

Definition set_world (s : State) (w : W) : State :=
  {| world := w; memoryFilePath := memoryFilePath s;
     memoryGraph := memoryGraph s; isInitialized := isInitialized s |}.

Definition set_graph (s : State) (g : MemoryGraph) : State :=
  {| world := world s; memoryFilePath := memoryFilePath s;
     memoryGraph := g; isInitialized := isInitialized s |}.

Definition set_initialized (s : State) : State :=
  {| world := world s; memoryFilePath := memoryFilePath s;
     memoryGraph := memoryGraph s; isInitialized := true |}.

(** A loop that reads and assigns [this.memoryGraph.entities]. *)
Definition on_graph {A} (loop : MemoryGraph -> MemoryGraph * A)
  : M State A :=
  fun s => let (g, a) := loop (memoryGraph s) in (Return a, set_graph s g).

(** Both steps sit in one [try]; a failure is logged and dropped. *)
Definition saveMemoryGraph : M State unit :=
  fun s =>
    match fs_mkdir (NodePath.dirname (memoryFilePath s)) (world s) with
    | (Some _, w) => (Return tt, set_world s w)
    | (None, w) =>
        let (_, w') := store_graph (memoryFilePath s) (memoryGraph s) w in
        (Return tt, set_world s w')
    end.

Definition loadMemoryGraph : M State unit :=
  fun s =>
    match load_graph (memoryFilePath s) (world s) with
    | Some g => (Return tt, set_graph s g)
    | None => saveMemoryGraph (set_graph s JsObject.empty)
    end.

Definition ensureInitialized : M State unit :=
  fun s =>
    if isInitialized s then (Return tt, s)
    else (loadMemoryGraph ;;; modify set_initialized) s.

Definition createEntities (entities : list MemoryEntity)
  : M State CallToolResult :=
  results <- on_graph (createEntities_loop entities) ;;
  saveMemoryGraph ;;;
  ret (text_result (join_lines results)).

Definition createRelations (rels : list MemoryRelation)
  : M State CallToolResult :=
  results <- on_graph (createRelations_loop rels) ;;
  saveMemoryGraph ;;;
  ret (text_result (join_lines results)).

Definition addObservations (entityName : string) (obs : list string)
  : M State CallToolResult :=
  g <- gets memoryGraph ;;
  match JsObject.get entityName g with
  | None =>
      ret (text_result ("Error: Entity '" ++ entityName ++ "' not found"))
  | Some entity =>
      let originalCount := length (observations entity) in
      let merged := new_Set (observations entity ++ obs)%list in
      let addedCount :=
        (Z.of_nat (length merged) - Z.of_nat originalCount)%Z in
      modify (fun s =>
                set_graph s (JsObject.set entityName
                               (set_observations entity merged) g)) ;;;
      saveMemoryGraph ;;;
      ret (text_result ("Added " ++ JsString.of_Z addedCount
                          ++ " new observations to " ++ entityName))
  end.

Definition searchNodes (query : string) : M State CallToolResult :=
  g <- gets memoryGraph ;;
  ret {| content := JsonSearchResults (search query g); isError := false |}.

Definition readGraph : M State CallToolResult :=
  g <- gets memoryGraph ;;
  ret {| content := JsonGraph g; isError := false |}.

Definition openNodes (names : list string) : M State CallToolResult :=
  g <- gets memoryGraph ;;
  ret {| content :=
           JsonNodes
             (flat_map (fun nm => match JsObject.get nm g with
                                  | Some n => [n]
                                  | None => []
                                  end) names);
         isError := false |}.

Definition deleteEntities (entityNames : list string)
  : M State CallToolResult :=
  results <- on_graph (deleteEntities_loop entityNames) ;;
  saveMemoryGraph ;;;
  ret (text_result (join_lines results)).

Definition deleteObservations (entityName : string) (obs : list string)
  : M State CallToolResult :=
  g <- gets memoryGraph ;;
  match JsObject.get entityName g with
  | None =>
      ret (text_result ("Error: Entity '" ++ entityName ++ "' not found"))
  | Some entity =>
      let originalCount := length (observations entity) in
      let kept := filter (fun o => negb (includes obs o))
                         (observations entity) in
      modify (fun s =>
                set_graph s (JsObject.set entityName
                               (set_observations entity kept) g)) ;;;
      saveMemoryGraph ;;;
      ret (text_result ("Deleted "
                          ++ JsString.of_nat (originalCount - length kept)
                          ++ " observations from " ++ entityName))
  end.

Definition deleteRelations (rels : list MemoryRelation)
  : M State CallToolResult :=
  results <- on_graph (deleteRelations_loop rels) ;;
  saveMemoryGraph ;;;
  ret (text_result (join_lines results)).

(** *** The request handler *)

Inductive ToolCall : Type :=
| create_entities (entities : list MemoryEntity)
| create_relations (rels : list MemoryRelation)
| add_observations (entityName : string) (obs : list string)
| search_nodes (query : string)
| read_graph
| open_nodes (names : list string)
| delete_entities (entityNames : list string)
| delete_observations (entityName : string) (obs : list string)
| delete_relations (rels : list MemoryRelation)
| unknown_tool (toolName : string).

Definition dispatch (call : ToolCall) : M State CallToolResult :=
  match call with
  | create_entities l => createEntities l
  | create_relations l => createRelations l
  | add_observations n l => addObservations n l
  | search_nodes q => searchNodes q
  | read_graph => readGraph
  | open_nodes l => openNodes l
  | delete_entities l => deleteEntities l
  | delete_observations n l => deleteObservations n l
  | delete_relations l => deleteRelations l
  | unknown_tool n => throw ("Unknown tool: " ++ n)
  end.

(** The handler of [CallToolRequestSchema]: an error becomes a text that
    starts with [Error:]; [isError] is not set. *)
Definition callTool (call : ToolCall) : M State CallToolResult :=
  try_catch
    (ensureInitialized ;;; dispatch call)
    (fun m => ret (text_result ("Error: " ++ m))).

End Methods.

End MemoryServer.

(** ** Edits ([edit_file]) *)

Record FileEdit : Type := {
  oldText : string;
  newText : string
}.

Definition quote : string := String (ascii_of_nat 34) EmptyString.

(** The loop of [editFile] over the edits: the modified content, or the
    message of the error thrown at the first edit whose [oldText] the
    current content does not include. *)
Fixpoint apply_edits (edits : list FileEdit) (modifiedContent : string)
  : string + string :=
  match edits with
  | [] => inl modifiedContent
  | edit :: rest =>
      if JsString.includes modifiedContent (oldText edit)
      then apply_edits rest
             (JsString.replace modifiedContent (oldText edit) (newText edit))
      else inr ("Text to replace not found: " ++ quote ++ oldText edit ++ quote)
  end.

Definition dry_run_text (originalContent modifiedContent filePath : string)
  : string :=
  "Dry run preview:" ++ newline ++ newline
    ++ "Original content length: "
    ++ JsString.of_nat (String.length originalContent) ++ newline
    ++ "Modified content length: "
    ++ JsString.of_nat (String.length modifiedContent) ++ newline ++ newline
    ++ "Changes would be applied to: " ++ filePath.

Definition access_denied (targetPath : string) : string :=
  "Access denied: Path " ++ targetPath ++ " is not within allowed directories".

Definition last_directory_message : string :=
  "Cannot remove the last allowed directory. At least one directory must remain for security.".

(** [this.allowedDirectories.some(dir => resolvedPath.startsWith(dir))] *)
Definition is_allowed (allowedDirectories : list string) (resolvedPath : string)
  : bool :=
  existsb (fun allowedDir => JsString.startsWith resolvedPath allowedDir)
          allowedDirectories.

(** ** The composite server ([ComprehensiveFilesystemMemoryServer]) *)

Module Comprehensive.

(** *** The loops over [this.memoryGraph.entities] *)

Definition createEntities_step (g : MemoryGraph) (entity : MemoryEntity)
  : MemoryGraph :=
  match JsObject.get (entity_name entity) g with
  | Some existing =>
      match entity_observations entity with
      | Some obs =>
          let existingObs := observations existing in
          JsObject.set (entity_name entity)
            (set_observations existing
               (existingObs
                  ++ filter (fun o => negb (includes existingObs o)) obs)%list)
            g
      | None => g
      end
  | None =>
      JsObject.set (entity_name entity)
        {| name := entity_name entity;
           entityType := entity_entityType entity;
           observations := observations_or_empty entity;
           relations := [] |} g
  end.

Definition createEntities_loop (entities : list MemoryEntity) (g : MemoryGraph)
  : MemoryGraph :=
  fold_left createEntities_step entities g.

Definition ensure_entity (nm : string) (g : MemoryGraph) : MemoryGraph :=
  if JsObject.has nm g then g else JsObject.set nm (stub nm) g.

Definition createRelations_step (g : MemoryGraph) (relation : MemoryRelation)
  : MemoryGraph :=
  let g' := ensure_entity (to relation) (ensure_entity (from relation) g) in
  match JsObject.get (from relation) g' with
  | Some fromEntity =>
      if existsb (same_edge relation) (relations fromEntity)
      then g'
      else JsObject.set (from relation)
             (set_relations fromEntity
                (relations fromEntity
                   ++ [{| from := from relation; to := to relation;
                          relationType := relationType relation |}])%list) g'
  | None => g'
  end.

Definition createRelations_loop (rels : list MemoryRelation) (g : MemoryGraph)
  : MemoryGraph :=
  fold_left createRelations_step rels g.

Definition strip_relations_to (nm : string) (g : MemoryGraph) : MemoryGraph :=
  JsObject.update_all
    (fun entity =>
       set_relations entity
         (filter (fun r => negb (String.eqb (to r) nm)) (relations entity)))
    g.

Definition deleteEntities_step (g : MemoryGraph) (entityName : string)
  : MemoryGraph :=
  strip_relations_to entityName (JsObject.delete entityName g).

Definition deleteEntities_loop (names : list string) (g : MemoryGraph)
  : MemoryGraph :=
  fold_left deleteEntities_step names g.

Definition deleteRelations_step (g : MemoryGraph) (relation : MemoryRelation)
  : MemoryGraph :=
  match JsObject.get (from relation) g with
  | Some fromEntity =>
      JsObject.set (from relation)
        (set_relations fromEntity
           (filter (fun r => negb (same_edge relation r))
                   (relations fromEntity))) g
  | None => g
  end.

Definition score_of (queryLower : string) (entity : MemoryNode) : nat :=
  let hit s := JsString.includes (JsString.toLowerCase s) queryLower in
  (if hit (name entity) then 100 else 0)
  + (if hit (entityType entity) then 50 else 0)
  + fold_left (fun sc observation => if hit observation then sc + 10 else sc)
              (observations entity) 0.

Fixpoint search_loop (queryLower : string) (entities : list MemoryNode)
  : list MemorySearchResult :=
  match entities with
  | [] => []
  | entity :: rest =>
      let sc := score_of queryLower entity in
      if (0 <? sc)%nat
      then MemoryServer.search_result entity sc :: search_loop queryLower rest
      else search_loop queryLower rest
  end.

Definition searchNodesInternal (query : string) (g : MemoryGraph)
  : list MemorySearchResult :=
  sort by_score_descending
       (search_loop (JsString.toLowerCase query) (JsObject.values g)).

(** *** The bridge *)

Definition msPerDay : Z := (24 * 60 * 60 * 1000)%Z.

(** [obs.includes('Accessed at:') &&
     new Date(obs.split('Accessed at: ')[1]) > new Date(Date.now() - 24h)] *)
Definition accessed_recently (now : Z) (obs : string) : bool :=
  JsString.includes obs "Accessed at:"
  && JsDate.later_than (nth_error (JsString.split obs "Accessed at: ") 1)
                       (now - msPerDay)%Z.

Definition recent_files (now : Z) (g : MemoryGraph) : list MemoryNode :=
  filter (fun entity =>
            String.eqb (entityType entity) "filesystem_file"
            && existsb (accessed_recently now) (observations entity))
         (JsObject.values g).

(** What [rememberFileAccess] looks at in its [metadata] argument. *)
Record Metadata : Type := {
  md_size : option nat;
  md_isDirectory : option bool;
  md_modified : option string;
  md_content : option string
}.

Definition no_metadata : Metadata :=
  {| md_size := None; md_isDirectory := None;
     md_modified := None; md_content := None |}.

Definition content_preview (c : string) : string :=
  if (200 <? String.length c)%nat then JsString.take 200 c ++ "..." else c.

Definition metadata_observations (operation : string) (md : Metadata)
  : list string :=
  let size_part :=
    match md_size md with
    | Some n => ["Size: " ++ JsString.of_nat n ++ " bytes"]
    | None => []
    end in
  let directory_part :=
    match md_isDirectory md with
    | Some b => ["Is directory: " ++ JsString.of_bool b]
    | None => []
    end in
  let modified_part :=
    match md_modified md with
    | Some m =>
        if String.eqb m EmptyString then [] else ["Last modified: " ++ m]
    | None => []
    end in
  let content_part :=
    match md_content md with
    | Some c =>
        if negb (String.eqb c EmptyString) && String.eqb operation "read"
        then ["Content preview: " ++ content_preview c]
        else []
    | None => []
    end in
  app size_part (app directory_part (app modified_part content_part)).

Definition access_observations (filePath operation : string) (now : Z)
           (md : option Metadata) : list string :=
  app ["Operation: " ++ operation;
       "Accessed at: " ++ JsDate.toISOString now;
       "File name: " ++ NodePath.basename filePath;
       "Directory: " ++ NodePath.dirname filePath]
      (match md with
       | Some m => metadata_observations operation m
       | None => []
       end).

(** *** What the memory tools of the filesystem report

    The objects that [recall_file_history], [find_similar_files] and
    [get_filesystem_memory_stats] pass to [JSON.stringify]. *)

Record FileHistory : Type := {
  history_file : string;
  history_entityType : string;
  accessHistory : list string;
  relationships : list MemoryRelation
}.

Record SimilarFile : Type := {
  similar_filePath : string;
  relevance : nat;
  recentObservations : list string
}.

Record MemoryStats : Type := {
  stats_memoryEnabled : bool;
  stats_memoryFilePath : string;
  stats_allowedDirectories : list string;
  totalFilesTracked : nat;
  totalDirectoriesTracked : nat;
  totalMemoryEntities : nat;
  recentlyAccessedFiles : nat
}.

Inductive Report : Type :=
| ReportText (s : string)
| JsonHistory (h : FileHistory)
| JsonSimilar (query : string) (results : list SimilarFile)
| JsonMemoryStats (stats : MemoryStats).

Definition similar_file (result : MemorySearchResult) : SimilarFile :=
  {| similar_filePath :=
       JsString.replace (result_name result) "file:" EmptyString;
     relevance := score result;
     recentObservations := slice_last 3 (result_observations result) |}.

Definition is_file (entity : MemoryNode) : bool :=
  String.eqb (entityType entity) "filesystem_file".

Definition is_directory (entity : MemoryNode) : bool :=
  String.eqb (entityType entity) "filesystem_directory".

(** *** The server and its private methods *)

Section Methods.
Context {W : Type} {host : Host W}.
Local Open Scope server_scope.

Record State : Type := {
  world : W;
  allowedDirectories : list string;
  memoryFilePath : string;
  configFilePath : string;
  memoryGraph : MemoryGraph;
  isInitialized : bool
}.

Definition set_world (s : State) (w : W) : State :=
  {| world := w; allowedDirectories := allowedDirectories s;
     memoryFilePath := memoryFilePath s;
     configFilePath := configFilePath s;
     memoryGraph := memoryGraph s; isInitialized := isInitialized s |}.

Definition set_directories (s : State) (dirs : list string) : State :=
  {| world := world s; allowedDirectories := dirs;
     memoryFilePath := memoryFilePath s;
     configFilePath := configFilePath s;
     memoryGraph := memoryGraph s; isInitialized := isInitialized s |}.

Definition set_graph (s : State) (g : MemoryGraph) : State :=
  {| world := world s; allowedDirectories := allowedDirectories s;
     memoryFilePath := memoryFilePath s;
     configFilePath := configFilePath s;
     memoryGraph := g; isInitialized := isInitialized s |}.

Definition set_initialized (s : State) : State :=
  {| world := world s; allowedDirectories := allowedDirectories s;
     memoryFilePath := memoryFilePath s;
     configFilePath := configFilePath s;
     memoryGraph := memoryGraph s; isInitialized := true |}.

(** An awaited call that changes the world and may reject. *)
Definition host_do (op : W -> option string * W) : M State unit :=
  fun s => match op (world s) with
           | (None, w) => (Return tt, set_world s w)
           | (Some m, w) => (Throw m, set_world s w)
           end.

(** An awaited call that only reads the world and may reject. *)
Definition host_ask {A} (q : W -> A + string) : M State A :=
  fun s => match q (world s) with
           | inl a => (Return a, s)
           | inr m => (Throw m, s)
           end.

Definition now : M State Z := gets (fun s => date_now (world s)).

Definition resolve (p : string) : M State string :=
  gets (fun s => NodePath.resolve (cwd (world s)) p).

Definition saveMemoryGraph : M State unit :=
  try_catch
    (fun s => host_do (store_graph (memoryFilePath s) (memoryGraph s)) s)
    (fun _ => ret tt).

Definition loadMemoryGraph : M State unit :=
  modify (fun s => match load_graph (memoryFilePath s) (world s) with
                   | Some g => set_graph s g
                   | None => set_graph s JsObject.empty
                   end).

Definition saveConfiguration : M State unit :=
  try_catch
    (fun s => host_do (store_config (configFilePath s)
                         (allowedDirectories s)
                         (JsDate.toISOString (date_now (world s)))) s)
    (fun _ => throw "Failed to save directory configuration").

Definition createEntitiesInternal (entities : list MemoryEntity)
  : M State unit :=
  modify (fun s => set_graph s (createEntities_loop entities (memoryGraph s))) ;;;
  saveMemoryGraph.

Definition createRelationsInternal (rels : list MemoryRelation)
  : M State unit :=
  modify (fun s => set_graph s (createRelations_loop rels (memoryGraph s))) ;;;
  saveMemoryGraph.

Definition directory_entity (dir resolved : string) (label : string) (t : Z)
  : MemoryEntity :=
  {| entity_name := "directory:" ++ dir;
     entity_entityType := "filesystem_directory";
     entity_observations :=
       Some ["Allowed directory: " ++ dir;
             "Resolved path: " ++ resolved;
             label ++ JsDate.toISOString t] |}.

Fixpoint sibling_relations (dirs : list string) : list MemoryRelation :=
  match dirs with
  | d1 :: ((d2 :: _) as rest) =>
      {| from := "directory:" ++ d1; to := "directory:" ++ d2;
         relationType := "sibling_directory" |} :: sibling_relations rest
  | _ => []
  end.

Definition initializeAllowedDirectories : M State unit :=
  try_catch
    (dirs <- gets allowedDirectories ;;
     t <- now ;;
     here <- gets (fun s => cwd (world s)) ;;
     createEntitiesInternal
       (map (fun dir => directory_entity dir (NodePath.resolve here dir)
                          "Added at: " t) dirs) ;;;
     match sibling_relations dirs with
     | [] => ret tt
     | rels => createRelationsInternal rels
     end)
    (fun _ => ret tt).

Definition ensureInitialized : M State unit :=
  initialized <- gets isInitialized ;;
  if initialized then ret tt
  else loadMemoryGraph ;;; initializeAllowedDirectories ;;;
       modify set_initialized.

Definition rememberFileAccess (filePath operation : string)
           (metadata : option Metadata) : M State unit :=
  try_catch
    (let fileEntityName := "file:" ++ filePath in
     let directoryEntityName := "directory:" ++ NodePath.dirname filePath in
     t <- now ;;
     createEntitiesInternal
       [{| entity_name := fileEntityName;
           entity_entityType := "filesystem_file";
           entity_observations :=
             Some (access_observations filePath operation t metadata) |}] ;;;
     createRelationsInternal
       [{| from := directoryEntityName; to := fileEntityName;
           relationType := "contains" |}] ;;;
     t' <- now ;;
     g <- gets memoryGraph ;;
     let recentFiles := recent_files t' g in
     if (1 <? length recentFiles)%nat
     then match nth_error recentFiles (length recentFiles - 2) with
          | Some previous =>
              createRelationsInternal
                [{| from := fileEntityName; to := name previous;
                    relationType := "accessed_after" |}]
          | None => ret tt
          end
     else ret tt)
    (fun _ => ret tt).

Definition validatePath (targetPath : string) : M State string :=
  resolvedPath <- resolve targetPath ;;
  dirs <- gets allowedDirectories ;;
  if is_allowed dirs resolvedPath then ret resolvedPath
  else throw (access_denied targetPath).

(** *** Filesystem tools *)

Definition readFile (filePath : string) : M State CallToolResult :=
  validatedPath <- validatePath filePath ;;
  try_catch
    (fileContent <- host_ask (fs_readFile validatedPath) ;;
     rememberFileAccess filePath "read"
       (Some {| md_size := Some (String.length fileContent);
                md_isDirectory := None; md_modified := None;
                md_content := Some fileContent |}) ;;;
     ret (text_result fileContent))
    (fun m => throw ("Failed to read file: " ++ m)).

Definition readMultipleFiles_step (results : JsObject.t string)
           (filePath : string) : M State (JsObject.t string) :=
  try_catch
    (validatedPath <- validatePath filePath ;;
     fileContent <- host_ask (fs_readFile validatedPath) ;;
     rememberFileAccess filePath "read"
       (Some {| md_size := Some (String.length fileContent);
                md_isDirectory := None; md_modified := None;
                md_content := Some fileContent |}) ;;;
     ret (JsObject.set_primitive filePath fileContent results))
    (fun m => ret (JsObject.set_primitive filePath ("Error: " ++ m) results)).

Fixpoint readMultipleFiles_loop (filePaths : list string)
         (results : JsObject.t string) : M State (JsObject.t string) :=
  match filePaths with
  | [] => ret results
  | filePath :: rest =>
      results' <- readMultipleFiles_step results filePath ;;
      readMultipleFiles_loop rest results'
  end.

Definition readMultipleFiles (filePaths : list string)
  : M State CallToolResult :=
  results <- readMultipleFiles_loop filePaths JsObject.empty ;;
  ret {| content := JsonFileMap results; isError := false |}.

Definition writeFile (filePath fileContent : string)
  : M State CallToolResult :=
  validatedPath <- validatePath filePath ;;
  try_catch
    (host_do (fs_mkdir (NodePath.dirname validatedPath)) ;;;
     host_do (fs_writeFile validatedPath fileContent) ;;;
     rememberFileAccess filePath "write"
       (Some {| md_size := Some (String.length fileContent);
                md_isDirectory := None; md_modified := None;
                md_content :=
                  Some (if (1000 <? String.length fileContent)%nat
                        then JsString.take 1000 fileContent ++ "..."
                        else fileContent) |}) ;;;
     ret (text_result ("Successfully wrote to " ++ filePath)))
    (fun m => throw ("Failed to write file: " ++ m)).

Definition editFile (filePath : string) (edits : list FileEdit)
           (dryRun : bool) : M State CallToolResult :=
  validatedPath <- validatePath filePath ;;
  try_catch
    (originalContent <- host_ask (fs_readFile validatedPath) ;;
     match apply_edits edits originalContent with
     | inr m => throw m
     | inl modifiedContent =>
         if dryRun
         then ret (text_result
                     (dry_run_text originalContent modifiedContent filePath))
         else
           host_do (fs_writeFile validatedPath modifiedContent) ;;;
           rememberFileAccess filePath "edit"
             (Some {| md_size := Some (String.length modifiedContent);
                      md_isDirectory := None; md_modified := None;
                      md_content := None |}) ;;;
           ret (text_result ("Successfully edited " ++ filePath))
     end)
    (fun m => throw ("Failed to edit file: " ++ m)).

Definition directory_metadata : option Metadata :=
  Some {| md_size := None; md_isDirectory := Some true;
          md_modified := None; md_content := None |}.

Definition createDirectory (dirPath : string) : M State CallToolResult :=
  validatedPath <- validatePath dirPath ;;
  try_catch
    (host_do (fs_mkdir validatedPath) ;;;
     rememberFileAccess dirPath "create_directory" directory_metadata ;;;
     ret (text_result ("Successfully created directory " ++ dirPath)))
    (fun m => throw ("Failed to create directory: " ++ m)).

Definition listDirectory (dirPath : string) : M State CallToolResult :=
  validatedPath <- validatePath dirPath ;;
  try_catch
    (entries <- host_ask (fs_readdir validatedPath) ;;
     rememberFileAccess dirPath "list_directory" directory_metadata ;;;
     ret {| content := JsonNames entries; isError := false |})
    (fun m => throw ("Failed to list directory: " ++ m)).

Definition listDirectoryWithSizes (dirPath : string)
  : M State CallToolResult :=
  validatedPath <- validatePath dirPath ;;
  try_catch
    (listing <- host_ask (fs_query (ListWithSizes validatedPath)) ;;
     rememberFileAccess dirPath "list_directory_with_sizes"
       directory_metadata ;;;
     ret (text_result listing))
    (fun m => throw ("Failed to list directory with sizes: " ++ m)).

Definition directoryTree (dirPath : string) (maxDepth : option nat)
  : M State CallToolResult :=
  validatedPath <- validatePath dirPath ;;
  try_catch
    (tree <- host_ask (fs_query (Tree validatedPath
                                      (match maxDepth with
                                       | Some d => d
                                       | None => 3
                                       end))) ;;
     rememberFileAccess dirPath "directory_tree" directory_metadata ;;;
     ret (text_result tree))
    (fun m => throw ("Failed to build directory tree: " ++ m)).

Definition moveFile (source destination : string)
  : M State CallToolResult :=
  validatedSource <- validatePath source ;;
  validatedDestination <- validatePath destination ;;
  try_catch
    (host_do (fs_mkdir (NodePath.dirname validatedDestination)) ;;;
     host_do (fs_rename validatedSource validatedDestination) ;;;
     rememberFileAccess source "move_from" (Some no_metadata) ;;;
     rememberFileAccess destination "move_to" (Some no_metadata) ;;;
     ret (text_result ("Successfully moved " ++ source ++ " to "
                         ++ destination)))
    (fun m => throw ("Failed to move file: " ++ m)).

Definition searchFiles (searchPath pattern : string)
           (maxResults : option nat) : M State CallToolResult :=
  validatedPath <- validatePath searchPath ;;
  try_catch
    (found <- host_ask (fs_query (Glob validatedPath pattern
                                       (match maxResults with
                                        | Some n => n
                                        | None => 100
                                        end))) ;;
     rememberFileAccess searchPath "search_files" (Some no_metadata) ;;;
     ret (text_result found))
    (fun m => throw ("Failed to search files: " ++ m)).

Definition getFileInfo (filePath : string) : M State CallToolResult :=
  validatedPath <- validatePath filePath ;;
  try_catch
    (stats <- host_ask (fs_stat validatedPath) ;;
     rememberFileAccess filePath "get_file_info"
       (Some {| md_size := Some (size stats);
                md_isDirectory := Some (stats_isDirectory stats);
                md_modified := Some (mtime stats);
                md_content := None |}) ;;;
     ret {| content := JsonStats filePath stats; isError := false |})
    (fun m => throw ("Failed to get file info: " ++ m)).

(** *** Directory management *)

Definition listAllowedDirectories : M State CallToolResult :=
  dirs <- gets allowedDirectories ;;
  ret {| content := JsonDirectories dirs (length dirs); isError := false |}.

(** [fs.stat] in its own [try]: every failure, the thrown "not a
    directory" included, comes out as the same message. *)
Definition check_directory (dirPath resolvedPath : string) : M State unit :=
  try_catch
    (stats <- host_ask (fs_stat resolvedPath) ;;
     if stats_isDirectory stats then ret tt
     else throw ("Path " ++ dirPath ++ " is not a directory"))
    (fun _ => throw ("Directory " ++ dirPath
                       ++ " does not exist or is not accessible")).

Definition addObservations (entityName : string) (obs : list string)
  : M State CallToolResult :=
  try_catch
    (g <- gets memoryGraph ;;
     match JsObject.get entityName g with
     | None => throw ("Entity " ++ entityName ++ " does not exist")
     | Some entity =>
         let existingObs := observations entity in
         modify (fun s =>
                   set_graph s
                     (JsObject.set entityName
                        (set_observations entity
                           (existingObs
                              ++ filter (fun o => negb (includes existingObs o))
                                        obs)%list) g)) ;;;
         saveMemoryGraph ;;;
         ret (text_result ("Successfully added "
                             ++ JsString.of_nat (length obs)
                             ++ " observations to " ++ entityName))
     end)
    (fun m => throw ("Failed to add observations: " ++ m)).

Definition addAllowedDirectory (dirPath : string) : M State CallToolResult :=
  try_catch
    (resolvedPath <- resolve dirPath ;;
     check_directory dirPath resolvedPath ;;;
     dirs <- gets allowedDirectories ;;
     if includes dirs resolvedPath
     then ret (text_result ("Directory " ++ dirPath
                 ++ " is already in the allowed directories list"))
     else
       modify (fun s => set_directories s (dirs ++ [resolvedPath])%list) ;;;
       saveConfiguration ;;;
       t <- now ;;
       here <- gets (fun s => cwd (world s)) ;;
       createEntitiesInternal
         [directory_entity resolvedPath
            (NodePath.resolve here resolvedPath)
            "Added dynamically at: " t] ;;;
       total <- gets (fun s => length (allowedDirectories s)) ;;
       ret (text_result ("Successfully added directory " ++ dirPath
              ++ " to allowed directories. Total directories: "
              ++ JsString.of_nat total)))
    (fun m => throw ("Failed to add directory: " ++ m)).

Definition removeAllowedDirectory (dirPath : string)
  : M State CallToolResult :=
  try_catch
    (resolvedPath <- resolve dirPath ;;
     dirs <- gets allowedDirectories ;;
     let initialCount := length dirs in
     let remaining :=
       filter (fun dir => negb (String.eqb dir resolvedPath)) dirs in
     modify (fun s => set_directories s remaining) ;;;
     if (length remaining =? initialCount)%nat
     then ret (text_result ("Directory " ++ dirPath
                 ++ " was not found in the allowed directories list"))
     else if (length remaining =? 0)%nat
     then
       modify (fun s => set_directories s (remaining ++ [resolvedPath])%list) ;;;
       throw last_directory_message
     else
       saveConfiguration ;;;
       g <- gets memoryGraph ;;
       t <- now ;;
       (if JsObject.has ("directory:" ++ resolvedPath) g
        then addObservations ("directory:" ++ resolvedPath)
               ["Directory access removed at: " ++ JsDate.toISOString t] ;;;
             ret tt
        else ret tt) ;;;
       ret (text_result ("Successfully removed directory " ++ dirPath
              ++ " from allowed directories. Remaining directories: "
              ++ JsString.of_nat (length remaining))))
    (fun m => throw ("Failed to remove directory: " ++ m)).

(** *** General memory tools *)

Definition createEntities (entities : list MemoryEntity)
  : M State CallToolResult :=
  try_catch
    (createEntitiesInternal entities ;;;
     ret (text_result ("Successfully created "
                         ++ JsString.of_nat (length entities) ++ " entities")))
    (fun m => throw ("Failed to create entities: " ++ m)).

Definition createRelations (rels : list MemoryRelation)
  : M State CallToolResult :=
  try_catch
    (createRelationsInternal rels ;;;
     ret (text_result ("Successfully created "
                         ++ JsString.of_nat (length rels) ++ " relations")))
    (fun m => throw ("Failed to create relations: " ++ m)).

Definition searchNodes (query : string) : M State CallToolResult :=
  g <- gets memoryGraph ;;
  ret {| content := JsonSearchResults (searchNodesInternal query g);
         isError := false |}.

Definition readGraph : M State CallToolResult :=
  g <- gets memoryGraph ;;
  ret {| content := JsonGraph g; isError := false |}.

Definition openNodes (names : list string) : M State CallToolResult :=
  g <- gets memoryGraph ;;
  ret {| content :=
           JsonNodes
             (flat_map (fun nm => match JsObject.get nm g with
                                  | Some n => [n]
                                  | None => []
                                  end) names);
         isError := false |}.

Definition deleteEntities (entityNames : list string)
  : M State CallToolResult :=
  modify (fun s =>
            set_graph s (deleteEntities_loop entityNames (memoryGraph s))) ;;;
  saveMemoryGraph ;;;
  ret (text_result ("Successfully deleted "
                      ++ JsString.of_nat (length entityNames) ++ " entities")).

Definition deleteObservations (entityName : string) (obs : list string)
  : M State CallToolResult :=
  try_catch
    (g <- gets memoryGraph ;;
     match JsObject.get entityName g with
     | None => throw ("Entity " ++ entityName ++ " does not exist")
     | Some entity =>
         modify (fun s =>
                   set_graph s
                     (JsObject.set entityName
                        (set_observations entity
                           (filter (fun o => negb (includes obs o))
                                   (observations entity))) g)) ;;;
         saveMemoryGraph ;;;
         ret (text_result ("Successfully deleted "
                             ++ JsString.of_nat (length obs)
                             ++ " observations from " ++ entityName))
     end)
    (fun m => throw ("Failed to delete observations: " ++ m)).

Definition deleteRelations (rels : list MemoryRelation)
  : M State CallToolResult :=
  modify (fun s =>
            set_graph s (fold_left deleteRelations_step rels (memoryGraph s))) ;;;
  saveMemoryGraph ;;;
  ret (text_result ("Successfully deleted "
                      ++ JsString.of_nat (length rels) ++ " relations")).

(** *** The request handler *)

Inductive ToolCall : Type :=
| read_file (path : string)
| read_multiple_files (paths : list string)
| write_file (path fileContent : string)
| edit_file (path : string) (edits : list FileEdit) (dryRun : bool)
| create_directory (path : string)
| list_directory (path : string)
| list_directory_with_sizes (path : string)
| directory_tree (path : string) (maxDepth : option nat)
| move_file (source destination : string)
| search_files (path pattern : string) (maxResults : option nat)
| get_file_info (path : string)
| list_allowed_directories
| add_allowed_directory (path : string)
| remove_allowed_directory (path : string)
| create_entities (entities : list MemoryEntity)
| create_relations (rels : list MemoryRelation)
| add_observations (entityName : string) (obs : list string)
| search_nodes (query : string)
| read_graph
| open_nodes (names : list string)
| delete_entities (entityNames : list string)
| delete_observations (entityName : string) (obs : list string)
| delete_relations (rels : list MemoryRelation)
| unknown_tool (toolName : string).

Definition dispatch (call : ToolCall) : M State CallToolResult :=
  match call with
  | read_file p => readFile p
  | read_multiple_files ps => readMultipleFiles ps
  | write_file p c => writeFile p c
  | edit_file p edits dryRun => editFile p edits dryRun
  | create_directory p => createDirectory p
  | list_directory p => listDirectory p
  | list_directory_with_sizes p => listDirectoryWithSizes p
  | directory_tree p d => directoryTree p d
  | move_file a b => moveFile a b
  | search_files p pat n => searchFiles p pat n
  | get_file_info p => getFileInfo p
  | list_allowed_directories => listAllowedDirectories
  | add_allowed_directory p => addAllowedDirectory p
  | remove_allowed_directory p => removeAllowedDirectory p
  | create_entities l => createEntities l
  | create_relations l => createRelations l
  | add_observations n l => addObservations n l
  | search_nodes q => searchNodes q
  | read_graph => readGraph
  | open_nodes l => openNodes l
  | delete_entities l => deleteEntities l
  | delete_observations n l => deleteObservations n l
  | delete_relations l => deleteRelations l
  | unknown_tool n => throw ("Unknown tool: " ++ n)
  end.

(** The handler of [CallToolRequestSchema]: every error becomes a
    result whose [isError] is set. *)
Definition callTool (call : ToolCall) : M State CallToolResult :=
  try_catch
    (ensureInitialized ;;; dispatch call)
    (fun m => ret {| content := Text ("Error: " ++ m); isError := true |}).

(** *** Memory tools of the filesystem *)

Definition recallFileHistory (filePath : string) : M State Report :=
  try_catch
    (g <- gets memoryGraph ;;
     match JsObject.get ("file:" ++ filePath) g with
     | None => ret (ReportText ("No memory found for file: " ++ filePath))
     | Some fileEntity =>
         ret (JsonHistory
                {| history_file := filePath;
                   history_entityType := entityType fileEntity;
                   accessHistory := observations fileEntity;
                   relationships := relations fileEntity |})
     end)
    (fun m => throw ("Failed to recall file history: " ++ m)).

Definition findSimilarFiles (query : string) (limit : option Z)
  : M State Report :=
  try_catch
    (g <- gets memoryGraph ;;
     let searchResults := searchNodesInternal query g in
     let fileResults :=
       slice_to (match limit with Some n => n | None => 10%Z end)
         (filter (fun result =>
                    String.eqb (result_entityType result) "filesystem_file")
                 searchResults) in
     ret (JsonSimilar query (map similar_file fileResults)))
    (fun m => throw ("Failed to find similar files: " ++ m)).

Definition getFilesystemMemoryStats : M State Report :=
  try_catch
    (g <- gets memoryGraph ;;
     t <- now ;;
     file <- gets memoryFilePath ;;
     dirs <- gets allowedDirectories ;;
     let fileEntities := filter is_file (JsObject.values g) in
     let dirEntities := filter is_directory (JsObject.values g) in
     ret (JsonMemoryStats
            {| stats_memoryEnabled := true;
               stats_memoryFilePath := file;
               stats_allowedDirectories := dirs;
               totalFilesTracked := length fileEntities;
               totalDirectoriesTracked := length dirEntities;
               totalMemoryEntities := length (JsObject.keys g);
               recentlyAccessedFiles :=
                 length (filter (fun f => existsb (accessed_recently t)
                                                  (observations f))
                                fileEntities) |}))
    (fun m => throw ("Failed to get filesystem memory stats: " ++ m)).

(** *** The whole switch of the request handler *)

Inductive Request : Type :=
| tool (call : ToolCall)
| recall_file_history (filePath : string)
| find_similar_files (query : string) (limit : option Z)
| get_filesystem_memory_stats.

Inductive Reply : Type :=
| Result (r : CallToolResult)
| Memory (r : Report).

Definition handle (request : Request) : M State Reply :=
  try_catch
    (ensureInitialized ;;;
     match request with
     | tool call => r <- dispatch call ;; ret (Result r)
     | recall_file_history p => r <- recallFileHistory p ;; ret (Memory r)
     | find_similar_files q n => r <- findSimilarFiles q n ;; ret (Memory r)
     | get_filesystem_memory_stats =>
         r <- getFilesystemMemoryStats ;; ret (Memory r)
     end)
    (fun m =>
       ret (Result {| content := Text ("Error: " ++ m); isError := true |})).

(** *** Construction and the configuration sidecar *)

(** The constructor, in a process whose world is [w]. *)
Definition construct (w : W) (dirs : list string)
           (memoryFile configFile : string) : State :=
  {| world := w;
     allowedDirectories := map (NodePath.resolve (cwd w)) dirs;
     memoryFilePath := memoryFile;
     configFilePath := configFile;
     memoryGraph := JsObject.empty;
     isInitialized := false |}.

Context {reader : ConfigReader W}.

Definition loadConfiguration : M State unit :=
  modify (fun s =>
            match load_config (configFilePath s) (world s) with
            | Some configured =>
                set_directories s
                  (new_Set (map (NodePath.resolve (cwd (world s)))
                                (allowedDirectories s ++ configured)%list))
            | None => s
            end).

End Methods.

End Comprehensive.

(** ** The plain filesystem server ([FilesystemServer]) *)

Module FilesystemServer.

Section Methods.
Context {W : Type} {host : Host W}.
Local Open Scope server_scope.

Record State : Type := {
  world : W;
  allowedDirectories : list string;
  configFilePath : string
}.

Definition set_world (s : State) (w : W) : State :=
  {| world := w; allowedDirectories := allowedDirectories s;
     configFilePath := configFilePath s |}.

Definition set_directories (s : State) (dirs : list string) : State :=
  {| world := world s; allowedDirectories := dirs;
     configFilePath := configFilePath s |}.

Definition host_do (op : W -> option string * W) : M State unit :=
  fun s => match op (world s) with
           | (None, w) => (Return tt, set_world s w)
           | (Some m, w) => (Throw m, set_world s w)
           end.

Definition host_ask {A} (q : W -> A + string) : M State A :=
  fun s => match q (world s) with
           | inl a => (Return a, s)
           | inr m => (Throw m, s)
           end.

Definition resolve (p : string) : M State string :=
  gets (fun s => NodePath.resolve (cwd (world s)) p).

Definition saveConfiguration : M State unit :=
  try_catch
    (fun s => host_do (store_config (configFilePath s)
                         (allowedDirectories s)
                         (JsDate.toISOString (date_now (world s)))) s)
    (fun _ => throw "Failed to save directory configuration").

Definition validatePath (targetPath : string) : M State string :=
  resolvedPath <- resolve targetPath ;;
  dirs <- gets allowedDirectories ;;
  if is_allowed dirs resolvedPath then ret resolvedPath
  else throw (access_denied targetPath).

Definition readFile (filePath : string) : M State CallToolResult :=
  validatedPath <- validatePath filePath ;;
  try_catch
    (fileContent <- host_ask (fs_readFile validatedPath) ;;
     ret (text_result fileContent))
    (fun m => throw ("Failed to read file: " ++ m)).

Definition writeFile (filePath fileContent : string)
  : M State CallToolResult :=
  validatedPath <- validatePath filePath ;;
  try_catch
    (host_do (fs_mkdir (NodePath.dirname validatedPath)) ;;;
     host_do (fs_writeFile validatedPath fileContent) ;;;
     ret (text_result ("Successfully wrote to " ++ filePath)))
    (fun m => throw ("Failed to write file: " ++ m)).

Definition editFile (filePath : string) (edits : list FileEdit)
           (dryRun : bool) : M State CallToolResult :=
  validatedPath <- validatePath filePath ;;
  try_catch
    (originalContent <- host_ask (fs_readFile validatedPath) ;;
     match apply_edits edits originalContent with
     | inr m => throw m
     | inl modifiedContent =>
         if dryRun
         then ret (text_result
                     (dry_run_text originalContent modifiedContent filePath))
         else
           host_do (fs_writeFile validatedPath modifiedContent) ;;;
           ret (text_result ("Successfully edited " ++ filePath))
     end)
    (fun m => throw ("Failed to edit file: " ++ m)).

Definition listAllowedDirectories : M State CallToolResult :=
  dirs <- gets allowedDirectories ;;
  ret {| content := JsonDirectories dirs (length dirs); isError := false |}.

Definition check_directory (dirPath resolvedPath : string) : M State unit :=
  try_catch
    (stats <- host_ask (fs_stat resolvedPath) ;;
     if stats_isDirectory stats then ret tt
     else throw ("Path " ++ dirPath ++ " is not a directory"))
    (fun _ => throw ("Directory " ++ dirPath
                       ++ " does not exist or is not accessible")).

Definition addAllowedDirectory (dirPath : string) : M State CallToolResult :=
  try_catch
    (resolvedPath <- resolve dirPath ;;
     check_directory dirPath resolvedPath ;;;
     dirs <- gets allowedDirectories ;;
     if includes dirs resolvedPath
     then ret (text_result ("Directory " ++ dirPath
                 ++ " is already in the allowed directories list"))
     else
       modify (fun s => set_directories s (dirs ++ [resolvedPath])%list) ;;;
       saveConfiguration ;;;
       total <- gets (fun s => length (allowedDirectories s)) ;;
       ret (text_result ("Successfully added directory " ++ dirPath
              ++ " to allowed directories. Total directories: "
              ++ JsString.of_nat total)))
    (fun m => throw ("Failed to add directory: " ++ m)).

Definition removeAllowedDirectory (dirPath : string)
  : M State CallToolResult :=
  try_catch
    (resolvedPath <- resolve dirPath ;;
     dirs <- gets allowedDirectories ;;
     let initialCount := length dirs in
     let remaining :=
       filter (fun dir => negb (String.eqb dir resolvedPath)) dirs in
     modify (fun s => set_directories s remaining) ;;;
     if (length remaining =? initialCount)%nat
     then ret (text_result ("Directory " ++ dirPath
                 ++ " was not found in the allowed directories list"))
     else if (length remaining =? 0)%nat
     then
       modify (fun s => set_directories s (remaining ++ [resolvedPath])%list) ;;;
       throw last_directory_message
     else
       saveConfiguration ;;;
       ret (text_result ("Successfully removed directory " ++ dirPath
              ++ " from allowed directories. Remaining directories: "
              ++ JsString.of_nat (length remaining))))
    (fun m => throw ("Failed to remove directory: " ++ m)).

Definition readMultipleFiles_step (results : JsObject.t string)
           (filePath : string) : M State (JsObject.t string) :=
  try_catch
    (validatedPath <- validatePath filePath ;;
     fileContent <- host_ask (fs_readFile validatedPath) ;;
     ret (JsObject.set_primitive filePath fileContent results))
    (fun m => ret (JsObject.set_primitive filePath ("Error: " ++ m) results)).

Fixpoint readMultipleFiles_loop (filePaths : list string)
         (results : JsObject.t string) : M State (JsObject.t string) :=
  match filePaths with
  | [] => ret results
  | filePath :: rest =>
      results' <- readMultipleFiles_step results filePath ;;
      readMultipleFiles_loop rest results'
  end.

Definition readMultipleFiles (filePaths : list string)
  : M State CallToolResult :=
  results <- readMultipleFiles_loop filePaths JsObject.empty ;;
  ret {| content := JsonFileMap results; isError := false |}.

(** The constructor, in a process whose world is [w]. *)
Definition construct (w : W) (dirs : list string) (configFile : string)
  : State :=
  {| world := w;
     allowedDirectories := map (NodePath.resolve (cwd w)) dirs;
     configFilePath := configFile |}.

Context {reader : ConfigReader W}.

Definition loadConfiguration : M State unit :=
  modify (fun s =>
            match load_config (configFilePath s) (world s) with
            | Some configured =>
                set_directories s
                  (new_Set (map (NodePath.resolve (cwd (world s)))
                                (allowedDirectories s ++ configured)%list))
            | None => s
            end).

End Methods.

End FilesystemServer.

(** ** The bridge of [FilesystemServerWithMemory]

    This server keeps its graph in a memory server that it reaches
    through [MemoryClient]; a client call is the memory server's method,
    the transport in between carrying requests and results unchanged. *)

Module FilesystemServerWithMemory.

Section Methods.
Context {W : Type} {host : Host W}.
Local Open Scope server_scope.

Record State : Type := {
  memory : @MemoryServer.State W;
  memoryEnabled : bool
}.

(** A call through [this.memoryClient]. *)
Definition client {A} (c : M MemoryServer.State A) : M State A :=
  fun s => let (r, m) := c (memory s) in
           (r, {| memory := m; memoryEnabled := memoryEnabled s |}).

(** [memoryClient.searchNodes(query)]: the parsed results. *)
Definition client_searchNodes (query : string)
  : M State (list MemorySearchResult) :=
  gets (fun s => MemoryServer.search query (MemoryServer.memoryGraph (memory s))).

Definition rememberFileAccess (filePath operation : string)
           (metadata : option Comprehensive.Metadata) : M State unit :=
  enabled <- gets memoryEnabled ;;
  if negb enabled then ret tt
  else
    try_catch
      (let fileEntityName := "file:" ++ filePath in
       let directoryEntityName := "directory:" ++ NodePath.dirname filePath in
       t <- gets (fun s => date_now (MemoryServer.world (memory s))) ;;
       client (MemoryServer.createEntities
                 [{| entity_name := fileEntityName;
                     entity_entityType := "filesystem_file";
                     entity_observations :=
                       Some (Comprehensive.access_observations
                               filePath operation t metadata) |}]) ;;;
       client (MemoryServer.createRelations
                 [{| from := directoryEntityName; to := fileEntityName;
                     relationType := "contains" |}]) ;;;
       recentFiles <- client_searchNodes "filesystem_file" ;;
       t' <- gets (fun s => date_now (MemoryServer.world (memory s))) ;;
       let recentlyAccessed :=
         filter (fun f => existsb (Comprehensive.accessed_recently t')
                                  (result_observations f)) recentFiles in
       if (1 <? length recentlyAccessed)%nat
       then match nth_error recentlyAccessed (length recentlyAccessed - 2) with
            | Some previous =>
                client (MemoryServer.createRelations
                          [{| from := fileEntityName; to := result_name previous;
                              relationType := "accessed_after" |}]) ;;;
                ret tt
            | None => ret tt
            end
       else ret tt)
      (fun _ => ret tt).

End Methods.

End FilesystemServerWithMemory.

(** ** The client of the memory server ([MemoryClient])

    The client sends a request to the handler of the memory server and
    reads the text of the reply; where it passes the text to
    [JSON.parse], the value that the server passed to [JSON.stringify]
    comes back, and a text that is no such value fails to parse. *)

Module MemoryClient.

(** The loop of [contextualSearch] over the relations of a result. *)
Definition boost (contextEntities : list string) (result : MemorySearchResult)
  : MemorySearchResult :=
  {| result_name := result_name result;
     result_entityType := result_entityType result;
     result_observations := result_observations result;
     result_relations := result_relations result;
     score :=
       fold_left (fun sc relation =>
                    if includes contextEntities (to relation)
                    then sc + 5 else sc)
                 (result_relations result) (score result) |}.

(** The loop of [getEntityTypes] over [Object.values(graph.entities)],
    for types that are not spelled like a member of [Object.prototype]:
    under such a type [typeCounts[type] || 0] is not a number. *)
Definition count_type (typeCounts : JsObject.t nat) (entity : MemoryNode)
  : JsObject.t nat :=
  JsObject.set_primitive (entityType entity)
    (match JsObject.get (entityType entity) typeCounts with
     | Some n => n + 1
     | None => 1
     end) typeCounts.

Section Methods.
Context {W : Type} {host : Host W}.
Local Open Scope server_scope.

Record State : Type := {
  server : @MemoryServer.State W;
  isConnected : bool
}.

Definition ensureConnected : M State unit :=
  connected <- gets isConnected ;;
  if connected then ret tt
  else throw "Memory client not connected. Call connect() first.".

(** [this.mcpClient.callTool(name, args)] followed by
    [extractTextContent]. *)
Definition callTool (call : MemoryServer.ToolCall) : M State Payload :=
  fun s => match MemoryServer.callTool call (server s) with
           | (Return r, m) =>
               (Return (content r),
                {| server := m; isConnected := isConnected s |})
           | (Throw e, m) =>
               (Throw e, {| server := m; isConnected := isConnected s |})
           end.

Definition createEntities (entities : list MemoryEntity) : M State Payload :=
  ensureConnected ;;; callTool (MemoryServer.create_entities entities).

Definition createEntity (nm type : string) (obs : option (list string))
  : M State Payload :=
  createEntities [{| entity_name := nm; entity_entityType := type;
                     entity_observations := obs |}].

Definition createRelations (rels : list MemoryRelation) : M State Payload :=
  ensureConnected ;;; callTool (MemoryServer.create_relations rels).

Definition createRelation (a b relation : string) : M State Payload :=
  createRelations [{| from := a; to := b; relationType := relation |}].

Definition addObservations (entityName : string) (obs : list string)
  : M State Payload :=
  ensureConnected ;;; callTool (MemoryServer.add_observations entityName obs).

Definition searchNodes (query : string) : M State (list MemorySearchResult) :=
  ensureConnected ;;;
  textContent <- callTool (MemoryServer.search_nodes query) ;;
  ret (match textContent with JsonSearchResults l => l | _ => [] end).

Definition readGraph : M State MemoryGraph :=
  ensureConnected ;;;
  textContent <- callTool MemoryServer.read_graph ;;
  ret (match textContent with JsonGraph g => g | _ => JsObject.empty end).

Definition openNodes (names : list string) : M State (list MemoryNode) :=
  ensureConnected ;;;
  textContent <- callTool (MemoryServer.open_nodes names) ;;
  ret (match textContent with JsonNodes l => l | _ => [] end).

Definition openNode (nm : string) : M State (option MemoryNode) :=
  nodes <- openNodes [nm] ;;
  ret (match nodes with n :: _ => Some n | [] => None end).

Definition deleteEntities (entityNames : list string) : M State Payload :=
  ensureConnected ;;; callTool (MemoryServer.delete_entities entityNames).

Definition deleteObservations (entityName : string) (obs : list string)
  : M State Payload :=
  ensureConnected ;;;
  callTool (MemoryServer.delete_observations entityName obs).

Definition deleteRelations (rels : list MemoryRelation) : M State Payload :=
  ensureConnected ;;; callTool (MemoryServer.delete_relations rels).

Definition rememberPerson (nm : string) (details : list string)
  : M State Payload :=
  createEntity nm "person" (Some details).

Definition associatePeople (person1 person2 relationship : string)
  : M State Payload :=
  createRelation person1 person2 relationship.

Definition recallSimilar (query : string) (limit : option Z)
  : M State (list MemorySearchResult) :=
  results <- searchNodes query ;;
  ret (slice_to (match limit with Some n => n | None => 5%Z end) results).

Definition recallAbout (entityName : string) : M State (option MemoryNode) :=
  openNode entityName.

Definition getEntityCount : M State nat :=
  graph <- readGraph ;;
  ret (length (JsObject.keys graph)).

Definition getEntityTypes : M State (JsObject.t nat) :=
  graph <- readGraph ;;
  ret (fold_left count_type (JsObject.values graph) JsObject.empty).

Definition contextualSearch (query : string)
           (contextEntities : option (list string))
  : M State (list MemorySearchResult) :=
  results <- searchNodes query ;;
  match contextEntities with
  | Some (c :: l) =>
      ret (sort by_score_descending (map (boost (c :: l)) results))
  | _ => ret results
  end.

End Methods.

End MemoryClient.

(** ** What the claims ask for

    Definitions that follow the words of the specification, to be
    compared with what the code computes. *)

Definition ends_with_slash (s : string) : bool :=
  match JsString.rev_string EmptyString s with
  | String c _ => NodePath.is_slash c
  | EmptyString => false
  end.

(** A resolved path is an allowed directory or lies under it. *)
Definition lies_within (dir resolvedPath : string) : bool :=
  String.eqb resolvedPath dir
  || JsString.startsWith resolvedPath
       (if ends_with_slash dir then dir else dir ++ "/").

Definition within_some (allowedDirectories : list string) (resolvedPath : string)
  : bool :=
  existsb (fun dir => lies_within dir resolvedPath) allowedDirectories.

(** The edits applied as literal replacements of the first occurrence. *)
Fixpoint apply_edits_literally (edits : list FileEdit) (modifiedContent : string)
  : string + string :=
  match edits with
  | [] => inl modifiedContent
  | edit :: rest =>
      if JsString.includes modifiedContent (oldText edit)
      then apply_edits_literally rest
             (JsString.replace_literal modifiedContent (oldText edit)
                                       (newText edit))
      else inr ("Text to replace not found: " ++ quote ++ oldText edit ++ quote)
  end.

Fixpoint has_dollar (s : string) : bool :=
  match s with
  | EmptyString => false
  | String c s' => Ascii.eqb c "$" || has_dollar s'
  end.

(** ** A host to run the servers on

    Files are a map from absolute path to content, a directory exists
    when a file lies under it, and the graph file and the configuration
    sidecar are kept as the documents they hold. *)

Module SimpleHost.

Record World : Type := {
  clock : Z;
  workdir : string;
  files : JsObject.t string;
  graph_document : option MemoryGraph;
  config_document : option (list string)
}.

Definition enoent (p : string) : string :=
  "ENOENT: no such file or directory, open '" ++ p ++ "'".

Definition with_files (w : World) (fs : JsObject.t string) : World :=
  {| clock := clock w; workdir := workdir w; files := fs;
     graph_document := graph_document w;
     config_document := config_document w |}.

Definition is_directory (p : string) (w : World) : bool :=
  existsb (fun f => JsString.startsWith f (p ++ "/")) (JsObject.keys (files w)).

Definition readFile (p : string) (w : World) : string + string :=
  match JsObject.get p (files w) with
  | Some c => inl c
  | None => inr (enoent p)
  end.

Definition rename (a b : string) (w : World) : option string * World :=
  match JsObject.get a (files w) with
  | Some c => (None, with_files w (JsObject.set b c (JsObject.delete a (files w))))
  | None => (Some (enoent a), w)
  end.

Definition stat (p : string) (w : World) : Stats + string :=
  match JsObject.get p (files w) with
  | Some c => inl {| size := String.length c; stats_isDirectory := false;
                     stats_isFile := true;
                     mtime := JsDate.toISOString (clock w) |}
  | None =>
      if is_directory p w
      then inl {| size := 0; stats_isDirectory := true; stats_isFile := false;
                  mtime := JsDate.toISOString (clock w) |}
      else inr (enoent p)
  end.

Definition readdir (p : string) (w : World) : list string + string :=
  if is_directory p w
  then inl (map NodePath.basename
              (filter (fun f => String.eqb (NodePath.dirname f) p)
                      (JsObject.keys (files w))))
  else inr (enoent p).

#[global] Instance host : Host World := {
  cwd := workdir;
  date_now := clock;
  fs_readFile := readFile;
  fs_writeFile := fun p c w => (None, with_files w (JsObject.set p c (files w)));
  fs_mkdir := fun _ w => (None, w);
  fs_rename := rename;
  fs_readdir := readdir;
  fs_stat := stat;
  fs_query := fun _ _ => inr "traversal is not available on this host";
  load_graph := fun _ w => graph_document w;
  store_graph := fun _ g w =>
    (None, {| clock := clock w; workdir := workdir w; files := files w;
              graph_document := Some g;
              config_document := config_document w |});
  store_config := fun _ dirs _ w =>
    (None, {| clock := clock w; workdir := workdir w; files := files w;
              graph_document := graph_document w;
              config_document := Some dirs |})
}.

#[global] Instance reader : ConfigReader World := {
  load_config := fun _ w => config_document w
}.

(** Time passing between two tool calls. *)
Definition at_time (t : Z) (w : World) : World :=
  {| clock := t; workdir := workdir w; files := files w;
     graph_document := graph_document w;
     config_document := config_document w |}.

End SimpleHost.

(** ** Sessions of directory management

    A session is a sequence of [add_allowed_directory] and
    [remove_allowed_directory] calls; between two calls the world may
    change in any way. *)

Inductive DirectoryCall : Type :=
| AddDirectory (path : string)
| RemoveDirectory (path : string).

Inductive SessionStep (W : Type) : Type :=
| Call (c : DirectoryCall)
| WorldChange (f : W -> W).

Arguments Call {W} c.
Arguments WorldChange {W} f.

Section Sessions.
Context {W : Type} {host : Host W}.

Definition plain_step (step : SessionStep W) (s : FilesystemServer.State)
  : FilesystemServer.State :=
  match step with
  | Call (AddDirectory p) => snd (FilesystemServer.addAllowedDirectory p s)
  | Call (RemoveDirectory p) => snd (FilesystemServer.removeAllowedDirectory p s)
  | WorldChange f => FilesystemServer.set_world s (f (FilesystemServer.world s))
  end.

Definition composite_step (step : SessionStep W) (s : Comprehensive.State)
  : Comprehensive.State :=
  match step with
  | Call (AddDirectory p) => snd (Comprehensive.addAllowedDirectory p s)
  | Call (RemoveDirectory p) => snd (Comprehensive.removeAllowedDirectory p s)
  | WorldChange f => Comprehensive.set_world s (f (Comprehensive.world s))
  end.

Definition plain_session (steps : list (SessionStep W))
           (s : FilesystemServer.State) : FilesystemServer.State :=
  fold_left (fun st step => plain_step step st) steps s.

Definition composite_session (steps : list (SessionStep W))
           (s : Comprehensive.State) : Comprehensive.State :=
  fold_left (fun st step => composite_step step st) steps s.

(** Sessions of tool calls of any kind. *)
Inductive Event (call : Type) : Type :=
| Request (c : call)
| Elsewhere (f : W -> W).

Arguments Request {call} c.
Arguments Elsewhere {call} f.

Definition composite_event (e : Event Comprehensive.ToolCall)
           (s : Comprehensive.State) : Comprehensive.State :=
  match e with
  | Request c => snd (Comprehensive.callTool c s)
  | Elsewhere f => Comprehensive.set_world s (f (Comprehensive.world s))
  end.

Definition memory_event (e : Event MemoryServer.ToolCall)
           (s : MemoryServer.State) : MemoryServer.State :=
  match e with
  | Request c => snd (MemoryServer.callTool c s)
  | Elsewhere f => MemoryServer.set_world s (f (MemoryServer.world s))
  end.

Definition composite_run (events : list (Event Comprehensive.ToolCall))
           (s : Comprehensive.State) : Comprehensive.State :=
  fold_left (fun st e => composite_event e st) events s.

Definition memory_run (events : list (Event MemoryServer.ToolCall))
           (s : MemoryServer.State) : MemoryServer.State :=
  fold_left (fun st e => memory_event e st) events s.

End Sessions.

(** The list of allowed directories after [removeAllowedDirectory]:
    unchanged in content when the path is not in it, put back when the
    removal would leave nothing. *)
Definition after_remove (resolvedPath : string) (dirs : list string)
  : list string :=
  let remaining := filter (fun dir => negb (String.eqb dir resolvedPath)) dirs in
  if (length remaining =? length dirs)%nat then remaining
  else if (length remaining =? 0)%nat then [resolvedPath]
  else remaining.

(** ** Path arguments of the filesystem tools *)

(** The paths that a filesystem tool validates before anything else, in
    the order in which it validates them. *)
Definition path_arguments (call : Comprehensive.ToolCall)
  : option (list string) :=
  match call with
  | Comprehensive.read_file p => Some [p]
  | Comprehensive.write_file p _ => Some [p]
  | Comprehensive.edit_file p _ _ => Some [p]
  | Comprehensive.create_directory p => Some [p]
  | Comprehensive.list_directory p => Some [p]
  | Comprehensive.list_directory_with_sizes p => Some [p]
  | Comprehensive.directory_tree p _ => Some [p]
  | Comprehensive.move_file source destination => Some [source; destination]
  | Comprehensive.search_files p _ _ => Some [p]
  | Comprehensive.get_file_info p => Some [p]
  | _ => None
  end.

(** The first of the paths that validation rejects. *)
Definition first_denied (here : string) (allowedDirectories : list string)
           (paths : list string) : option string :=
  find (fun p => negb (is_allowed allowedDirectories (NodePath.resolve here p)))
       paths.

(** ** Graph shapes *)

(** Every relation of the graph points at an entity of the graph. *)
Definition no_dangling (g : MemoryGraph) : Prop :=
  forall nm n r,
    JsObject.get nm g = Some n -> In r (relations n) ->
    JsObject.has (to r) g = true.

(** No relation of the graph points at [target]. *)
Definition no_edge_to (target : string) (g : MemoryGraph) : Prop :=
  forall nm n r,
    JsObject.get nm g = Some n -> In r (relations n) -> to r <> target.

(** ** Matching a query *)

(** [s.toLowerCase().includes(queryLower)] *)
Definition hit (queryLower s : string) : bool :=
  JsString.includes (JsString.toLowerCase s) queryLower.

(** The number of observations of an entity that match. *)
Definition matching_observations (queryLower : string) (entity : MemoryNode)
  : nat :=
  length (filter (hit queryLower) (observations entity)).

(** An entity that the memory server matches through its observations
    only: neither its key, its type nor any of its relations match. *)
Definition only_observations_match (queryLower nm : string)
           (entity : MemoryNode) : Prop :=
  hit queryLower nm = false
  /\ hit queryLower (entityType entity) = false
  /\ forall r, In r (relations entity) ->
               hit queryLower (relationType r) = false
               /\ hit queryLower (to r) = false.

(** The same for the composite server, which does not look at
    relations. *)
Definition only_observations_match_composite (queryLower : string)
           (entity : MemoryNode) : Prop :=
  hit queryLower (name entity) = false
  /\ hit queryLower (entityType entity) = false.

Definition has_score (k : nat) (r : MemorySearchResult) : bool :=
  (score r =? k)%nat.

(** ** Scenarios

    The states on which the properties below are exercised: one allowed
    directory [/tmp/a] with two files in it and a sibling [/tmp/ab]. *)

Module Scenario.
Import SimpleHost.

(** 2026-11-02T12:00:00.000Z *)
Definition noon : Z := 1793620800000.
Definition minute : Z := 60000.

Definition disk : World :=
  {| clock := noon; workdir := "/home/u";
     files := [("/tmp/a/x.txt", "hello"); ("/tmp/a/y.txt", "world");
               ("/tmp/a/Makefile", "PID = 0");
               ("/tmp/ab/secret.txt", "s3cret")];
     graph_document := None; config_document := None |}.

Definition composite (g : MemoryGraph) : Comprehensive.State :=
  {| Comprehensive.world := disk;
     Comprehensive.allowedDirectories := ["/tmp/a"];
     Comprehensive.memoryFilePath := "./comprehensive-memory.json";
     Comprehensive.configFilePath := "./comprehensive-filesystem-config.json";
     Comprehensive.memoryGraph := g;
     Comprehensive.isInitialized := true |}.

(** The composite server before its first tool call. *)
Definition composite_fresh : Comprehensive.State :=
  {| Comprehensive.world := disk;
     Comprehensive.allowedDirectories := ["/tmp/a"];
     Comprehensive.memoryFilePath := "./comprehensive-memory.json";
     Comprehensive.configFilePath := "./comprehensive-filesystem-config.json";
     Comprehensive.memoryGraph := JsObject.empty;
     Comprehensive.isInitialized := false |}.

Definition memory (g : MemoryGraph) : MemoryServer.State :=
  {| MemoryServer.world := disk;
     MemoryServer.memoryFilePath := "./memory.json";
     MemoryServer.memoryGraph := g;
     MemoryServer.isInitialized := true |}.

Definition plain : FilesystemServer.State :=
  {| FilesystemServer.world := disk;
     FilesystemServer.allowedDirectories := ["/tmp/a"];
     FilesystemServer.configFilePath := "./filesystem-config.json" |}.

(** Servers constructed with two spellings of one directory, where
    there is no configuration to load. *)
Definition plain_repeated : FilesystemServer.State :=
  snd (FilesystemServer.loadConfiguration
         (FilesystemServer.construct disk ["/tmp/a"; "/tmp/a/"]
                                     "./filesystem-config.json")).

Definition composite_repeated : Comprehensive.State :=
  snd (Comprehensive.loadConfiguration
         (Comprehensive.construct disk ["/tmp/a"; "/tmp/a/"]
            "./comprehensive-memory.json"
            "./comprehensive-filesystem-config.json")).

(** Time passing between two calls to the composite server. *)
Definition later (t : Z) (s : Comprehensive.State) : Comprehensive.State :=
  Comprehensive.set_world s (at_time t (Comprehensive.world s)).

Definition entity (nm ty : string) (obs : list string) : MemoryEntity :=
  {| entity_name := nm; entity_entityType := ty;
     entity_observations := Some obs |}.

Definition node (nm ty : string) (obs : list string)
           (rels : list MemoryRelation) : MemoryNode :=
  {| name := nm; entityType := ty; observations := obs; relations := rels |}.

Definition edge (a b ty : string) : MemoryRelation :=
  {| from := a; to := b; relationType := ty |}.

Definition alice : MemoryNode :=
  node "Alice" "person" ["likes tea"] [edge "Alice" "Carol" "knows"].

Definition alice_graph : MemoryGraph :=
  [("Alice", alice); ("Carol", node "Carol" "person" [] [])].


(** An entity named like the query and one that mentions the query in
    four observations. *)
Definition tea : MemoryNode := node "tea" "drink" [] [].

Definition bob : MemoryNode :=
  node "Bob" "person"
       ["likes tea"; "takes tea at five"; "green tea"; "no tea, no work"] [].

Definition tea_graph : MemoryGraph := [("tea", tea); ("Bob", bob)].

(** Three reads on the composite server, a minute apart: [x.txt],
    [y.txt], then [x.txt] again. *)
Definition after_x : Comprehensive.State :=
  snd (Comprehensive.readFile "/tmp/a/x.txt" (composite JsObject.empty)).

Definition after_xy : Comprehensive.State :=
  snd (Comprehensive.readFile "/tmp/a/y.txt" (later (noon + minute) after_x)).

Definition after_xyx : Comprehensive.State :=
  snd (Comprehensive.readFile "/tmp/a/x.txt"
         (later (noon + 2 * minute) after_xy)).

(** The same accesses remembered by the bridge of
    [FilesystemServerWithMemory]. *)
Definition bridge : FilesystemServerWithMemory.State :=
  {| FilesystemServerWithMemory.memory := memory JsObject.empty;
     FilesystemServerWithMemory.memoryEnabled := true |}.

Definition bridge_later (t : Z) (s : FilesystemServerWithMemory.State)
  : FilesystemServerWithMemory.State :=
  {| FilesystemServerWithMemory.memory :=
       MemoryServer.set_world
         (FilesystemServerWithMemory.memory s)
         (at_time t (MemoryServer.world (FilesystemServerWithMemory.memory s)));
     FilesystemServerWithMemory.memoryEnabled :=
       FilesystemServerWithMemory.memoryEnabled s |}.

Definition read_metadata (c : string) : option Comprehensive.Metadata :=
  Some {| Comprehensive.md_size := Some (String.length c);
          Comprehensive.md_isDirectory := None;
          Comprehensive.md_modified := None;
          Comprehensive.md_content := Some c |}.

Definition bridge_after_x : FilesystemServerWithMemory.State :=
  snd (FilesystemServerWithMemory.rememberFileAccess
         "/tmp/a/x.txt" "read" (read_metadata "hello") bridge).

Definition bridge_after_xy : FilesystemServerWithMemory.State :=
  snd (FilesystemServerWithMemory.rememberFileAccess
         "/tmp/a/y.txt" "read" (read_metadata "world")
         (bridge_later (noon + minute) bridge_after_x)).

Definition bridge_after_xyx : FilesystemServerWithMemory.State :=
  snd (FilesystemServerWithMemory.rememberFileAccess
         "/tmp/a/x.txt" "read" (read_metadata "hello")
         (bridge_later (noon + 2 * minute) bridge_after_xy)).

(** An edit whose new text holds the two-dollar form that a makefile
    uses for a shell variable. *)
Definition makefile_edit : list FileEdit :=
  [{| oldText := "0"; newText := "$$PPID" |}].


End Scenario.

(** * Predicates of the statements *)


(** A name that is not the name of a member of [Object.prototype]:
    under such a name [entities[name]] is the entity stored there, or
    [undefined]. *)
Definition ordinary (nm : string) : Prop := JsObject.inherited nm = false.

Definition ordinary_entities (entities : list MemoryEntity) : Prop :=
  Forall (fun e => ordinary (entity_name e)) entities.

Definition ordinary_relations (rels : list MemoryRelation) : Prop :=
  Forall (fun r => ordinary (from r) /\ ordinary (to r)) rels.

(** No entity of the graph carries such a name in its [name] field. *)
Definition ordinary_graph (g : MemoryGraph) : Prop :=
  forall n, In n (JsObject.values g) -> ordinary (name n).





(** The entity of a request is in the graph and its observations are
    there already. *)
Definition covered (g : MemoryGraph) (e : MemoryEntity) : Prop :=
  exists n, JsObject.get (entity_name e) g = Some n
            /\ incl (observations_or_empty e) (observations n).

(** The relations that leave the entity of a name. *)
Definition relations_of (nm : string) (g : MemoryGraph) : list MemoryRelation :=
  match JsObject.get nm g with Some n => relations n | None => [] end.

(** A path segment that [path.resolve] keeps as it is. *)
Definition plain_segment (seg : string) : Prop :=
  seg <> EmptyString /\ seg <> "." /\ seg <> "..".

(** [c] does not change what [f] reads of the state. *)
Definition keeps {St X A : Type} (f : St -> X) (c : M St A) : Prop :=
  forall s, f (snd (c s)) = f s.

(** [c] keeps [P] true of the state, whether it returns or throws. *)
Definition preserves {St A : Type} (P : St -> Prop) (c : M St A) : Prop :=
  forall s, P s -> P (snd (c s)).

(** What [f] reads of the state is neither the world nor the graph. *)
Definition blind_to_world_and_graph {W X : Type}
           (f : @Comprehensive.State W -> X) : Prop :=
  (forall s w, f (Comprehensive.set_world s w) = f s)
  /\ (forall s g, f (Comprehensive.set_graph s g) = f s).

(** The composite server is initialised and no relation of its graph
    points at a missing entity. *)
Definition graph_sound {W : Type} (s : @Comprehensive.State W) : Prop :=
  Comprehensive.isInitialized s = true
  /\ no_dangling (Comprehensive.memoryGraph s).

(** The same of the memory server. *)
Definition memory_sound {W : Type} (s : @MemoryServer.State W) : Prop :=
  MemoryServer.isInitialized s = true
  /\ no_dangling (MemoryServer.memoryGraph s).

(** * Further predicates of the statements *)

(** The relation of a request is in the graph: both ends exist and the
    source has an edge of that type to that target. *)
Definition linked (g : MemoryGraph) (relation : MemoryRelation) : Prop :=
  JsObject.has (to relation) g = true
  /\ exists sourceEntity,
       JsObject.get (from relation) g = Some sourceEntity
       /\ existsb (same_edge relation) (relations sourceEntity) = true.

(** One step of either loop, as a function of the edge it appends. *)
Definition attach (edge : MemoryRelation) (g : MemoryGraph)
           (relation : MemoryRelation) : MemoryGraph :=
  let g' := MemoryServer.ensure_entity (to relation)
              (MemoryServer.ensure_entity (from relation) g) in
  match JsObject.get (from relation) g' with
  | Some sourceEntity =>
      if existsb (same_edge relation) (relations sourceEntity) then g'
      else JsObject.set (from relation)
             (set_relations sourceEntity
                (relations sourceEntity ++ [edge])%list) g'
  | None => g'
  end.

(** A request of [delete_relations] removes the relation [r] of the
    entity stored under [nm]. *)
Definition unlinked_by (rels : list MemoryRelation) (nm : string)
           (r : MemoryRelation) : bool :=
  existsb (fun relation =>
             String.eqb (from relation) nm && same_edge relation r) rels.

(** What [delete_relations] leaves of an entity stored under [nm]. *)
Definition without_relations (rels : list MemoryRelation) (nm : string)
           (n : MemoryNode) : MemoryNode :=
  set_relations n
    (filter (fun r => negb (unlinked_by rels nm r)) (relations n)).

(** What [delete_entities] leaves of an entity that it does not
    delete. *)
Definition without_targets (names : list string) (n : MemoryNode)
  : MemoryNode :=
  set_relations n
    (filter (fun r => negb (includes names (to r))) (relations n)).

(** The entity stored under [nm] after [delete_entities], given the one
    stored there before. *)
Definition after_delete (names : list string) (nm : string)
           (before : option MemoryNode) : option MemoryNode :=
  if includes names nm then None else option_map (without_targets names) before.


(** [fs.stat(p)] succeeds and reports a directory. *)
Definition is_directory_at {W : Type} {host : Host W} (p : string) (w : W)
  : bool :=
  match fs_stat p w with
  | inl stats => stats_isDirectory stats
  | inr _ => false
  end.

(** The list of allowed directories after [addAllowedDirectory]. *)
Definition after_add (resolvedPath : string) (isDirectory : bool)
           (dirs : list string) : list string :=
  if isDirectory && negb (includes dirs resolvedPath)
  then (dirs ++ [resolvedPath])%list else dirs.

Section Requests.
Context {W : Type} {host : Host W}.

Definition composite_request (e : Event Comprehensive.Request)
           (s : @Comprehensive.State W) : Comprehensive.State :=
  match e with
  | Request r => snd (Comprehensive.handle r s)
  | Elsewhere _ f => Comprehensive.set_world s (f (Comprehensive.world s))
  end.

Definition composite_requests (events : list (Event Comprehensive.Request))
           (s : @Comprehensive.State W) : Comprehensive.State :=
  fold_left (fun st e => composite_request e st) events s.

End Requests.

(** No entity name of the request is the name of a member of
    [Object.prototype]. *)
Definition ordinary_memory_call (call : MemoryServer.ToolCall) : Prop :=
  match call with
  | MemoryServer.create_entities entities => ordinary_entities entities
  | MemoryServer.create_relations rels => ordinary_relations rels
  | MemoryServer.add_observations entityName _ => ordinary entityName
  | MemoryServer.open_nodes names => Forall ordinary names
  | MemoryServer.delete_entities entityNames => Forall ordinary entityNames
  | MemoryServer.delete_observations entityName _ => ordinary entityName
  | MemoryServer.delete_relations rels =>
      Forall (fun relation => ordinary (from relation)) rels
  | _ => True
  end.

Definition ordinary_call (call : Comprehensive.ToolCall) : Prop :=
  match call with
  | Comprehensive.create_entities entities => ordinary_entities entities
  | Comprehensive.create_relations rels => ordinary_relations rels
  | Comprehensive.add_observations entityName _ => ordinary entityName
  | Comprehensive.open_nodes names => Forall ordinary names
  | Comprehensive.delete_entities entityNames => Forall ordinary entityNames
  | Comprehensive.delete_observations entityName _ => ordinary entityName
  | Comprehensive.delete_relations rels =>
      Forall (fun relation => ordinary (from relation)) rels
  | _ => True
  end.

Definition ordinary_request (r : Comprehensive.Request) : Prop :=
  match r with
  | Comprehensive.tool call => ordinary_call call
  | _ => True
  end.

(** The requests among the events satisfy [P]. *)
Definition requests_are {W call : Type} (P : call -> Prop)
           (events : list (@Event W call)) : Prop :=
  Forall (fun e => match e with
                   | Request c => P c
                   | Elsewhere _ _ => True
                   end) events.

Definition reads_only (r : Comprehensive.Request) : bool :=
  match r with
  | Comprehensive.tool (Comprehensive.search_nodes _)
  | Comprehensive.tool Comprehensive.read_graph
  | Comprehensive.tool (Comprehensive.open_nodes _)
  | Comprehensive.tool Comprehensive.list_allowed_directories
  | Comprehensive.tool (Comprehensive.unknown_tool _)
  | Comprehensive.recall_file_history _
  | Comprehensive.find_similar_files _ _
  | Comprehensive.get_filesystem_memory_stats => true
  | _ => false
  end.

Definition memory_reads_only (call : MemoryServer.ToolCall) : bool :=
  match call with
  | MemoryServer.search_nodes _
  | MemoryServer.read_graph
  | MemoryServer.open_nodes _
  | MemoryServer.unknown_tool _ => true
  | _ => false
  end.

(** Every entity of [g] is in [g'] under the same key, with the same name
    and type and with at least the observations and relations it had. *)
Definition grown (g g' : MemoryGraph) : Prop :=
  forall nm n,
    JsObject.get nm g = Some n ->
    exists n',
      JsObject.get nm g' = Some n'
      /\ name n' = name n /\ entityType n' = entityType n
      /\ incl (observations n) (observations n')
      /\ incl (relations n) (relations n').

(** The requests that remove something from the graph. *)
Definition forgets (r : Comprehensive.Request) : bool :=
  match r with
  | Comprehensive.tool (Comprehensive.delete_entities _)
  | Comprehensive.tool (Comprehensive.delete_observations _ _)
  | Comprehensive.tool (Comprehensive.delete_relations _) => true
  | _ => false
  end.

(** A property of the graph alone, as a property of the server. *)
Definition graph_is {W : Type} (Q : MemoryGraph -> Prop)
           (s : @Comprehensive.State W) : Prop :=
  Q (Comprehensive.memoryGraph s).

(** The entity and the relation that [rememberFileAccess] creates. *)
Definition file_entity (filePath operation : string) (t : Z)
           (metadata : option Comprehensive.Metadata) : MemoryEntity :=
  {| entity_name := "file:" ++ filePath;
     entity_entityType := "filesystem_file";
     entity_observations :=
       Some (Comprehensive.access_observations filePath operation t metadata) |}.

Definition contains_edge (filePath : string) : MemoryRelation :=
  {| from := "directory:" ++ NodePath.dirname filePath;
     to := "file:" ++ filePath;
     relationType := "contains" |}.

(** The entry of [read_multiple_files] of the plain server for one
    path. *)
Definition read_entry {W : Type} {host : Host W}
           (s : @FilesystemServer.State W) (filePath : string) : string :=
  let resolved := NodePath.resolve (cwd (FilesystemServer.world s)) filePath in
  if is_allowed (FilesystemServer.allowedDirectories s) resolved
  then match fs_readFile resolved (FilesystemServer.world s) with
       | inl fileContent => fileContent
       | inr m => "Error: " ++ m
       end
  else "Error: " ++ access_denied filePath.

(** The text holds no slash. *)
Fixpoint slash_free (s : string) : bool :=
  match s with
  | EmptyString => true
  | String c s' => negb (NodePath.is_slash c) && slash_free s'
  end.

(** A segment of a canonical path: not empty, not [.] or [..], without
    a slash. *)
Definition clean_segment (seg : string) : Prop :=
  plain_segment seg /\ slash_free seg = true.

(** The entities of a graph that have a given type. *)
Definition of_type (type : string) (g : MemoryGraph) : list MemoryNode :=
  filter (fun entity => String.eqb (entityType entity) type)
         (JsObject.values g).

(** The context of a [contextualSearch], [[]] when there is none. *)
Definition context_of (contextEntities : option (list string)) : list string :=
  match contextEntities with Some l => l | None => [] end.

(** The calendar date of a day number reads back as that day number
    and is a date of the calendar; its year is between 0 and 400, and
    400 only in the last sixty days of the first era. *)
Definition day_ok (z : Z) : bool :=
  let '(y, m, d) := JsDate.civil_from_days z in
  ((JsDate.days_from_civil y m d =? z)
   && (1 <=? m) && (m <=? 12) && (1 <=? d)
   && (d <=? JsDate.days_in_month y m)
   && (0 <=? y) && (y <=? 400)
   && ((y <=? 399) || (-573431 <=? z)))%Z.

(** [day_ok] on the [2 ^ k] days from [lo] on. *)
Fixpoint days_ok (k : nat) (lo : Z) : bool :=
  match k with
  | O => day_ok lo
  | S k' => days_ok k' lo && days_ok k' (lo + 2 ^ Z.of_nat k')%Z
  end.

(** The character [c] does not occur in the string. *)
Fixpoint lacks (c : ascii) (s : string) : Prop :=
  match s with
  | EmptyString => True
  | String a s' => a <> c /\ lacks c s'
  end.

(** * Properties *)

Unset Implicit Arguments.

(** ** The embedded JavaScript library on examples *)

Example indexOf_ex : JsString.indexOf "hello world" "o w" = Some 4.
Proof. reflexivity. Qed.

Example split_ex :
  JsString.split "Accessed at: 2026-01-01" "Accessed at: " = [EmptyString; "2026-01-01"].
Proof. reflexivity. Qed.

Example replace_ex : JsString.replace "a foo b foo" "foo" "bar" = "a bar b foo".
Proof. reflexivity. Qed.

Example of_nat_ex : JsString.of_nat 1205 = "1205".
Proof. reflexivity. Qed.

Example array_index_ex :
  JsObject.array_index "42" = Some 42%N /\ JsObject.array_index "042" = None
  /\ JsObject.array_index "file:/a" = None
  /\ JsObject.array_index "4294967295" = None.
Proof. repeat split; reflexivity. Qed.

Example set_order_ex :
  JsObject.keys
    (JsObject.set "7" 3 (JsObject.set "b" 2 (JsObject.set "10" 1
       (JsObject.set "a" 0 JsObject.empty))))
  = ["7"; "10"; "a"; "b"].
Proof. reflexivity. Qed.

Example resolve_ex :
  NodePath.resolve "/home/u" "/tmp/a/../b/./c.txt" = "/tmp/b/c.txt"
  /\ NodePath.resolve "/home/u" "x/../../y" = "/home/y"
  /\ NodePath.resolve "/home/u" "/../.." = "/"
  /\ NodePath.resolve "/home/u" EmptyString = "/home/u"
  /\ NodePath.resolve "/home/u" "/tmp/a/" = "/tmp/a".
Proof. repeat split; reflexivity. Qed.

Example dirname_basename_ex :
  NodePath.dirname "/tmp/a/x.txt" = "/tmp/a"
  /\ NodePath.basename "/tmp/a/x.txt" = "x.txt"
  /\ NodePath.dirname "/x" = "/" /\ NodePath.dirname "x" = "."
  /\ NodePath.dirname "/tmp/a/" = "/tmp" /\ NodePath.basename "/tmp/a/" = "a"
  /\ NodePath.dirname "a//b" = "a/".
Proof. repeat split; reflexivity. Qed.

Example toISOString_ex :
  JsDate.toISOString 1793620800123 = "2026-11-02T12:00:00.123Z"
  /\ JsDate.toISOString 0 = "1970-01-01T00:00:00.000Z"
  /\ JsDate.toISOString 951782400000 = "2000-02-29T00:00:00.000Z".
Proof. repeat split; vm_compute; reflexivity. Qed.

Example parse_ex :
  JsDate.parse "2026-11-02T12:00:00.123Z" = Some 1793620800123%Z
  /\ JsDate.parse "2026-02-30T12:00:00.123Z" = None
  /\ JsDate.parse "yesterday" = None.
Proof. repeat split; vm_compute; reflexivity. Qed.

(** ** Objects *)

Module JsObjectFacts.
Import JsObject.

Section Facts.
Variable V : Type.
Implicit Types (o : t V) (k : string) (v : V).

Lemma get_replace_value_same k v o :
  has k o = true -> get k (replace_value k v o) = Some v.
Proof.
  unfold has. induction o as [|[k' v'] o IH]; simpl; [discriminate|].
  destruct (String.eqb k k') eqn:E; simpl; rewrite E; auto.
Qed.

Lemma get_replace_value_other k k' v o :
  k <> k' -> get k' (replace_value k v o) = get k' o.
Proof.
  intros Hne. induction o as [|[k0 v0] o IH]; simpl; [reflexivity|].
  destruct (String.eqb k k0) eqn:E; simpl.
  - apply String.eqb_eq in E. subst k0.
    destruct (String.eqb k' k) eqn:E'; [|reflexivity].
    apply String.eqb_eq in E'. congruence.
  - destruct (String.eqb k' k0); auto.
Qed.

Lemma get_insert_index_same n k v o :
  get k o = None -> get k (insert_index n k v o) = Some v.
Proof.
  induction o as [|[k' v'] o IH]; simpl; intros H.
  - rewrite String.eqb_refl. reflexivity.
  - destruct (String.eqb k k') eqn:E; [discriminate|].
    destruct (array_index k') as [m|]; simpl.
    + destruct (m <? n)%N; simpl.
      * rewrite E. auto.
      * rewrite String.eqb_refl. reflexivity.
    + rewrite String.eqb_refl. reflexivity.
Qed.

Lemma get_insert_index_other n k k' v o :
  k <> k' -> get k' (insert_index n k v o) = get k' o.
Proof.
  intros Hne.
  assert (Hk : String.eqb k' k = false)
    by (apply String.eqb_neq; congruence).
  induction o as [|[k0 v0] o IH]; simpl.
  - rewrite Hk. reflexivity.
  - destruct (array_index k0) as [m|]; simpl.
    + destruct (m <? n)%N; simpl.
      * rewrite IH. reflexivity.
      * rewrite Hk. reflexivity.
    + rewrite Hk. reflexivity.
Qed.

Lemma get_app o1 o2 k :
  get k (o1 ++ o2)%list
  = match get k o1 with Some v => Some v | None => get k o2 end.
Proof.
  induction o1 as [|[k' v'] o1 IH]; simpl; [reflexivity|].
  destruct (String.eqb k k'); auto.
Qed.

Lemma has_true k o : has k o = true <-> exists v, get k o = Some v.
Proof.
  unfold has. destruct (get k o); split; intros H; eauto; try discriminate.
  destruct H; discriminate.
Qed.

Lemma has_false k o : has k o = false <-> get k o = None.
Proof.
  unfold has. destruct (get k o); split; intros H; auto; discriminate.
Qed.

Lemma get_set_same k v o : get k (set k v o) = Some v.
Proof.
  unfold set. destruct (has k o) eqn:H.
  - apply get_replace_value_same; assumption.
  - apply has_false in H.
    destruct (array_index k).
    + apply get_insert_index_same; assumption.
    + rewrite get_app, H. simpl. rewrite String.eqb_refl. reflexivity.
Qed.

Lemma get_set_other k k' v o : k <> k' -> get k' (set k v o) = get k' o.
Proof.
  intros Hne. unfold set. destruct (has k o).
  - apply get_replace_value_other; assumption.
  - destruct (array_index k).
    + apply get_insert_index_other; assumption.
    + rewrite get_app. destruct (get k' o); [reflexivity|].
      simpl. destruct (String.eqb k' k) eqn:E; [|reflexivity].
      apply String.eqb_eq in E. congruence.
Qed.

Lemma get_set k k' v o :
  get k' (set k v o) = if String.eqb k k' then Some v else get k' o.
Proof.
  destruct (String.eqb k k') eqn:E.
  - apply String.eqb_eq in E. subst. apply get_set_same.
  - apply String.eqb_neq in E. apply get_set_other; assumption.
Qed.


Lemma get_delete k k' o :
  get k' (delete k o) = if String.eqb k k' then None else get k' o.
Proof.
  unfold delete. induction o as [|[k0 v0] o IH]; simpl.
  - destruct (String.eqb k k'); reflexivity.
  - destruct (String.eqb k k0) eqn:E0; simpl.
    + apply String.eqb_eq in E0. subst k0. rewrite IH.
      destruct (String.eqb k k') eqn:E; [reflexivity|].
      rewrite String.eqb_sym, E. reflexivity.
    + rewrite IH. destruct (String.eqb k' k0) eqn:E1; [|reflexivity].
      apply String.eqb_eq in E1. subst k0. rewrite E0. reflexivity.
Qed.

Lemma get_update_all (f : V -> V) k o :
  get k (update_all f o) = option_map f (get k o).
Proof.
  unfold update_all. induction o as [|[k0 v0] o IH]; simpl; [reflexivity|].
  destruct (String.eqb k k0); auto.
Qed.

Lemma get_In k v o : get k o = Some v -> In (k, v) o.
Proof.
  induction o as [|[k0 v0] o IH]; simpl; [discriminate|].
  destruct (String.eqb k k0) eqn:E.
  - apply String.eqb_eq in E. intros [= ->]. subst. auto.
  - auto.
Qed.

(** A new key that is not an array index goes last. *)
Lemma set_new_key k v o :
  get k o = None -> array_index k = None -> set k v o = (o ++ [(k, v)])%list.
Proof.
  intros H Hi. unfold set.
  apply has_false in H. rewrite H, Hi. reflexivity.
Qed.

End Facts.
End JsObjectFacts.

(** ** Arrays of strings *)

Section StringLists.
Implicit Types (l a b : list string) (x : string).

Lemma includes_In l x : includes l x = true <-> In x l.
Proof.
  unfold includes. rewrite existsb_exists. split.
  - intros [y [Hy E]]. apply String.eqb_eq in E. subst. assumption.
  - intros H. exists x. split; [assumption|apply String.eqb_refl].
Qed.

Lemma includes_false l x : includes l x = false <-> ~ In x l.
Proof.
  rewrite <- includes_In. destruct (includes l x); split; intros; auto;
    try discriminate. exfalso; auto.
Qed.

Lemma filter_filter_absorb (p q : string -> bool) l :
  (forall z, p z = true -> q z = true) ->
  filter p (filter q l) = filter p l.
Proof.
  intros H. induction l as [|z l IH]; simpl; [reflexivity|].
  destruct (q z) eqn:Q; simpl.
  - rewrite IH. reflexivity.
  - destruct (p z) eqn:P; [|assumption].
    apply H in P. congruence.
Qed.

Lemma filter_comm (p q : string -> bool) l :
  filter p (filter q l) = filter q (filter p l).
Proof.
  induction l as [|z l IH]; simpl; [reflexivity|].
  destruct (q z) eqn:Q, (p z) eqn:P; simpl; rewrite ?Q, ?P, IH; reflexivity.
Qed.

Lemma filter_id (p : string -> bool) l :
  (forall z, In z l -> p z = true) -> filter p l = l.
Proof.
  induction l as [|z l IH]; simpl; intros H; [reflexivity|].
  rewrite (H z) by auto. rewrite IH; auto.
Qed.


Lemma new_Set_In l x : In x (new_Set l) <-> In x l.
Proof.
  induction l as [|y l IH]; simpl; [tauto|].
  rewrite filter_In, IH. split.
  - intros [H|[H _]]; auto.
  - intros [H|H]; auto.
    destruct (String.eqb y x) eqn:E.
    + apply String.eqb_eq in E. auto.
    + right. split; [assumption|reflexivity].
Qed.

Lemma new_Set_NoDup l : NoDup (new_Set l).
Proof.
  induction l as [|y l IH]; simpl; constructor.
  - rewrite filter_In. intros [_ H]. rewrite String.eqb_refl in H. discriminate.
  - apply NoDup_filter. assumption.
Qed.

Lemma new_Set_filter (p : string -> bool) l :
  new_Set (filter p l) = filter p (new_Set l).
Proof.
  induction l as [|y l IH]; simpl; [reflexivity|].
  destruct (p y) eqn:P; simpl.
  - rewrite IH, filter_comm. reflexivity.
  - rewrite IH. symmetry. apply filter_filter_absorb.
    intros z Pz. destruct (String.eqb y z) eqn:E; [|reflexivity].
    apply String.eqb_eq in E. congruence.
Qed.


Lemma filter_andb (p q : string -> bool) l :
  filter (fun z => p z && q z) l = filter p (filter q l).
Proof.
  induction l as [|z l IH]; simpl; [reflexivity|].
  destruct (q z) eqn:Q, (p z) eqn:P; simpl; rewrite ?P, IH; reflexivity.
Qed.

Lemma filter_fresh_cons y a b :
  filter (fun o => negb (includes (y :: a) o)) b
  = filter (fun z => negb (String.eqb y z))
           (filter (fun o => negb (includes a o)) b).
Proof.
  rewrite <- filter_andb. apply filter_ext. intros z.
  unfold includes. simpl. rewrite negb_orb, (String.eqb_sym z y). reflexivity.
Qed.

(** Spreading two arrays into a set: the second contributes what the
    first does not have. *)
Lemma new_Set_app a b :
  NoDup a ->
  new_Set (a ++ b) = (a ++ new_Set (filter (fun o => negb (includes a o)) b))%list.
Proof.
  induction 1 as [|y a Hy Ha IH]; simpl.
  - f_equal. symmetry. apply filter_id. reflexivity.
  - f_equal. rewrite IH, filter_app. f_equal.
    + apply filter_id. intros z Hz.
      destruct (String.eqb y z) eqn:E; [|reflexivity].
      apply String.eqb_eq in E. congruence.
    + rewrite <- new_Set_filter. f_equal. symmetry. apply filter_fresh_cons.
Qed.



End StringLists.

(** ** What the methods leave in [this.memoryGraph] *)

Section MethodGraphs.
Context {W : Type} {host : Host W}.

Lemma MemoryServer_saveMemoryGraph_graph (s : MemoryServer.State) :
  MemoryServer.memoryGraph (snd (MemoryServer.saveMemoryGraph s))
  = MemoryServer.memoryGraph s
  /\ fst (MemoryServer.saveMemoryGraph s) = Return tt.
Proof.
  unfold MemoryServer.saveMemoryGraph.
  destruct (fs_mkdir _ _) as [[m|] w]; simpl; [auto|].
  destruct (store_graph _ _ _) as [r w']; simpl; auto.
Qed.

Lemma MemoryServer_on_graph_then_save {A}
      (loop : MemoryGraph -> MemoryGraph * A) (k : A -> CallToolResult)
      (s : MemoryServer.State) :
  let c := bind (MemoryServer.on_graph loop)
                (fun a => bind MemoryServer.saveMemoryGraph
                               (fun _ => ret (k a))) in
  fst (c s) = Return (k (snd (loop (MemoryServer.memoryGraph s))))
  /\ MemoryServer.memoryGraph (snd (c s))
     = fst (loop (MemoryServer.memoryGraph s)).
Proof.
  simpl. unfold bind, MemoryServer.on_graph.
  destruct (loop (MemoryServer.memoryGraph s)) as [g a]; simpl.
  pose proof (MemoryServer_saveMemoryGraph_graph (MemoryServer.set_graph s g))
    as [Hg Hr].
  destruct (MemoryServer.saveMemoryGraph (MemoryServer.set_graph s g))
    as [[[]|m] s']; simpl in *; try discriminate.
  auto.
Qed.


Lemma MemoryServer_createRelations_graph rels (s : MemoryServer.State) :
  MemoryServer.memoryGraph (snd (MemoryServer.createRelations rels s))
  = fst (MemoryServer.createRelations_loop rels (MemoryServer.memoryGraph s)).
Proof.
  apply (MemoryServer_on_graph_then_save
           (MemoryServer.createRelations_loop rels)
           (fun results => text_result (join_lines results))).
Qed.

Lemma MemoryServer_deleteEntities_graph names (s : MemoryServer.State) :
  MemoryServer.memoryGraph (snd (MemoryServer.deleteEntities names s))
  = fst (MemoryServer.deleteEntities_loop names (MemoryServer.memoryGraph s)).
Proof.
  apply (MemoryServer_on_graph_then_save
           (MemoryServer.deleteEntities_loop names)
           (fun results => text_result (join_lines results))).
Qed.

Lemma Comprehensive_saveMemoryGraph_spec (s : Comprehensive.State) :
  exists w, Comprehensive.saveMemoryGraph s
            = (Return tt, Comprehensive.set_world s w).
Proof.
  unfold Comprehensive.saveMemoryGraph, try_catch, Comprehensive.host_do, ret.
  destruct (store_graph _ _ _) as [[m|] w]; simpl; eauto.
Qed.

Lemma Comprehensive_createEntitiesInternal_spec entities
      (s : Comprehensive.State) :
  exists w,
    Comprehensive.createEntitiesInternal entities s
    = (Return tt,
       Comprehensive.set_world
         (Comprehensive.set_graph s
            (Comprehensive.createEntities_loop entities
               (Comprehensive.memoryGraph s))) w).
Proof.
  unfold Comprehensive.createEntitiesInternal, bind, modify.
  apply Comprehensive_saveMemoryGraph_spec.
Qed.

Lemma Comprehensive_createRelationsInternal_spec rels
      (s : Comprehensive.State) :
  exists w,
    Comprehensive.createRelationsInternal rels s
    = (Return tt,
       Comprehensive.set_world
         (Comprehensive.set_graph s
            (Comprehensive.createRelations_loop rels
               (Comprehensive.memoryGraph s))) w).
Proof.
  unfold Comprehensive.createRelationsInternal, bind, modify.
  apply Comprehensive_saveMemoryGraph_spec.
Qed.


Lemma Comprehensive_createRelations_graph rels (s : Comprehensive.State) :
  Comprehensive.memoryGraph (snd (Comprehensive.createRelations rels s))
  = Comprehensive.createRelations_loop rels (Comprehensive.memoryGraph s).
Proof.
  unfold Comprehensive.createRelations, try_catch, bind.
  destruct (Comprehensive_createRelationsInternal_spec rels s) as [w ->].
  reflexivity.
Qed.

Lemma Comprehensive_deleteEntities_graph names (s : Comprehensive.State) :
  Comprehensive.memoryGraph (snd (Comprehensive.deleteEntities names s))
  = Comprehensive.deleteEntities_loop names (Comprehensive.memoryGraph s).
Proof.
  unfold Comprehensive.deleteEntities, bind, modify.
  match goal with
  | |- context [Comprehensive.saveMemoryGraph ?s'] =>
      destruct (Comprehensive_saveMemoryGraph_spec s') as [w ->]
  end.
  reflexivity.
Qed.

End MethodGraphs.

(** ** Creating entities *)




Module MemoryServerFacts.
Import JsObject JsObjectFacts MemoryServer.












End MemoryServerFacts.

Module ComprehensiveFacts.
Import JsObject JsObjectFacts Comprehensive.





Lemma cs_step_covers g e : covered (createEntities_step g e) e.
Proof.
  unfold createEntities_step, covered, observations_or_empty.
  destruct (get (entity_name e) g) as [existing|] eqn:E.
  - destruct (entity_observations e) as [obs|].
    + rewrite get_set_same. eexists. split; [reflexivity|]. simpl.
      intros o Ho. apply in_or_app.
      destruct (includes (observations existing) o) eqn:I.
      * left. apply includes_In. assumption.
      * right. apply filter_In. rewrite I. auto.
    + exists existing. split; [assumption|]. intros o [].
  - rewrite get_set_same. eexists. split; [reflexivity|]. simpl.
    apply incl_refl.
Qed.







End ComprehensiveFacts.

(** ** Stub entities *)

Section Stubs.
Import JsObject JsObjectFacts.

Lemma ensure_entity_get_same nm g :
  exists n, get nm (MemoryServer.ensure_entity nm g) = Some n
            /\ (get nm g = None -> n = stub nm).
Proof.
  unfold MemoryServer.ensure_entity. destruct (has nm g) eqn:H.
  - apply has_true in H. destruct H as [v Hv]. exists v.
    split; [assumption|]. congruence.
  - exists (stub nm). rewrite get_set_same. auto.
Qed.




End Stubs.

(** ** What [createEntities] makes of the observations *)

Section CreateEntitiesObservations.
Import JsObject JsObjectFacts.










End CreateEntitiesObservations.

(** ** Claims about [createEntities] *)

Section CreateEntitiesClaims.
Context {W : Type} {host : Host W}.
Import JsObject.



End CreateEntitiesClaims.







(** ** Deleting entities *)

Section DeleteEntities.
Import JsObject JsObjectFacts.

Lemma get_strip_relations_to target nm g :
  get nm (MemoryServer.strip_relations_to target g)
  = option_map
      (fun entity =>
         set_relations entity
           (filter (fun r => negb (String.eqb (to r) target)) (relations entity)))
      (get nm g).
Proof. unfold MemoryServer.strip_relations_to. apply get_update_all. Qed.

(** What the unconditional form of the step does, on any graph. *)
Lemma delete_and_strip_spec target g :
  let g' := MemoryServer.strip_relations_to target (delete target g) in
  get target g' = None /\ no_edge_to target g'
  /\ (no_dangling g -> no_dangling g').
Proof.
  simpl. split; [|split].
  - rewrite get_strip_relations_to, get_delete, String.eqb_refl. reflexivity.
  - intros nm n r Hn Hr. rewrite get_strip_relations_to in Hn.
    destruct (get nm (delete target g)) as [e|]; [|discriminate].
    injection Hn as <-. simpl in Hr. apply filter_In in Hr.
    destruct Hr as [_ Hr]. intros E. apply String.eqb_eq in E.
    rewrite E in Hr. discriminate.
  - intros Hg nm n r Hn Hr. rewrite get_strip_relations_to in Hn.
    rewrite get_delete in Hn.
    destruct (String.eqb target nm) eqn:En; [discriminate|].
    destruct (get nm g) as [e|] eqn:Ge; [|discriminate].
    injection Hn as <-. simpl in Hr. apply filter_In in Hr.
    destruct Hr as [Hr Hne].
    pose proof (Hg nm e r Ge Hr) as Hh.
    apply has_true in Hh. destruct Hh as [v Hv].
    apply has_true. rewrite get_strip_relations_to, get_delete.
    destruct (String.eqb target (to r)) eqn:Et.
    + rewrite String.eqb_sym, Et in Hne. discriminate.
    + rewrite Hv. simpl. eauto.
Qed.

Lemma MemoryServer_deleteEntities_step_spec g target :
  no_dangling g ->
  let g' := fst (MemoryServer.deleteEntities_step g target) in
  get target g' = None /\ no_edge_to target g' /\ no_dangling g'.
Proof.
  intros Hg. unfold MemoryServer.deleteEntities_step.
  destruct (has target g) eqn:H; simpl.
  - destruct (delete_and_strip_spec target g) as (A & B & C). auto.
  - apply has_false in H. split; [assumption|]. split; [|assumption].
    intros nm n r Hn Hr E. pose proof (Hg nm n r Hn Hr) as Hh.
    rewrite E in Hh. apply has_true in Hh. destruct Hh as [v Hv]. congruence.
Qed.

End DeleteEntities.

Section DeleteEntitiesClaim.
Context {W : Type} {host : Host W}.
Import JsObject.


End DeleteEntitiesClaim.

Lemma no_dangling_alice_graph : no_dangling Scenario.alice_graph.
Proof.
  intros nm n r H. simpl in H.
  repeat match type of H with
         | (if ?b then _ else _) = _ => destruct b
         end; try discriminate; injection H as <-; simpl;
    intros Hr; intuition (subst; reflexivity).
Qed.



(** ** Sorting by score *)

Section SortByScore.

Lemma sort_insert_Forall (P : MemorySearchResult -> Prop) x l :
  P x -> Forall P l -> Forall P (sort_insert by_score_descending x l).
Proof.
  intros Hx. induction 1 as [|y l Hy Hl IH]; simpl.
  - constructor; auto.
  - destruct (0 <? by_score_descending x y)%Z; constructor; auto.
Qed.

Lemma sort_Forall (P : MemorySearchResult -> Prop) l :
  Forall P l -> Forall P (sort by_score_descending l).
Proof.
  induction 1 as [|x l Hx Hl IH]; simpl; [constructor|].
  apply sort_insert_Forall; assumption.
Qed.

Lemma sort_insert_sorted x l :
  StronglySorted (fun a b => score b <= score a) l ->
  StronglySorted (fun a b => score b <= score a)
                 (sort_insert by_score_descending x l).
Proof.
  induction 1 as [|y l Hl IH Hy]; simpl.
  - constructor; constructor.
  - unfold by_score_descending at 1.
    destruct (0 <? Z.of_nat (score y) - Z.of_nat (score x))%Z eqn:E.
    + apply Z.ltb_lt in E. constructor; [assumption|].
      apply sort_insert_Forall; [lia|assumption].
    + apply Z.ltb_ge in E. constructor.
      * constructor; assumption.
      * constructor; [lia|].
        eapply Forall_impl; [|exact Hy]. simpl. intros a Ha. lia.
Qed.

Lemma sort_sorted l :
  StronglySorted (fun a b => score b <= score a) (sort by_score_descending l).
Proof.
  induction l as [|x l IH]; simpl; [constructor|].
  apply sort_insert_sorted. assumption.
Qed.

Lemma sort_insert_perm x l :
  Permutation (sort_insert by_score_descending x l) (x :: l).
Proof.
  induction l as [|y l IH]; simpl; [reflexivity|].
  destruct (0 <? by_score_descending x y)%Z; [|reflexivity].
  rewrite IH. apply perm_swap.
Qed.

Lemma sort_perm l : Permutation (sort by_score_descending l) l.
Proof.
  induction l as [|x l IH]; simpl; [reflexivity|].
  rewrite sort_insert_perm. constructor. assumption.
Qed.

(** Stability: the results of one score come out in the order in which
    they went in. *)
Lemma sort_insert_stable k x l :
  filter (has_score k) (sort_insert by_score_descending x l)
  = filter (has_score k) (x :: l).
Proof.
  induction l as [|y l IH]; simpl; [reflexivity|].
  unfold by_score_descending at 1.
  destruct (0 <? Z.of_nat (score y) - Z.of_nat (score x))%Z eqn:E;
    [|reflexivity].
  apply Z.ltb_lt in E. simpl. rewrite IH. simpl.
  unfold has_score.
  destruct (score x =? k)%nat eqn:Ex, (score y =? k)%nat eqn:Ey; try reflexivity.
  apply Nat.eqb_eq in Ex, Ey. lia.
Qed.

Lemma sort_stable k l :
  filter (has_score k) (sort by_score_descending l) = filter (has_score k) l.
Proof.
  induction l as [|x l IH]; simpl; [reflexivity|].
  rewrite sort_insert_stable. simpl. rewrite IH. reflexivity.
Qed.

End SortByScore.

(** ** Scores *)

Section Scores.

Lemma prefix_refl s : String.prefix s s = true.
Proof.
  induction s as [|c s IH]; simpl; [reflexivity|].
  destruct (Ascii.ascii_dec c c); [assumption|congruence].
Qed.

Lemma includes_self s : JsString.includes s s = true.
Proof.
  unfold JsString.includes. destruct s; simpl; [reflexivity|].
  destruct (Ascii.ascii_dec a a); [|congruence].
  rewrite prefix_refl. reflexivity.
Qed.

Lemma fold_observations q w l : forall acc,
  fold_left (fun sc observation =>
               if JsString.includes (JsString.toLowerCase observation) q
               then sc + w else sc) l acc
  = acc + w * length (filter (hit q) l).
Proof.
  induction l as [|o l IH]; simpl; intros acc; [lia|].
  rewrite IH. unfold hit at 2.
  destruct (JsString.includes (JsString.toLowerCase o) q); simpl; lia.
Qed.

Lemma fold_relations_none q (rels : list MemoryRelation) :
  (forall r, In r rels ->
             hit q (relationType r) = false /\ hit q (to r) = false) ->
  fold_left (fun sc relation =>
               if JsString.includes (JsString.toLowerCase (relationType relation)) q
                  || JsString.includes (JsString.toLowerCase (to relation)) q
               then sc + 2 else sc) rels 0
  = 0.
Proof.
  induction rels as [|r rels IH]; simpl; intros H; [reflexivity|].
  destruct (H r (or_introl eq_refl)) as [H1 H2]. unfold hit in H1, H2.
  rewrite H1, H2. simpl. apply IH. intros r' Hr'. apply H. auto.
Qed.

Lemma MemoryServer_score_exact_name query entity :
  10 <= MemoryServer.score_of (JsString.toLowerCase query) query entity.
Proof.
  unfold MemoryServer.score_of. rewrite includes_self. lia.
Qed.

Lemma MemoryServer_score_observations_only q nm entity :
  only_observations_match q nm entity ->
  MemoryServer.score_of q nm entity = 3 * matching_observations q entity.
Proof.
  intros (Hn & Ht & Hr). unfold MemoryServer.score_of.
  unfold hit in Hn, Ht. rewrite Hn, Ht.
  rewrite fold_observations, fold_relations_none by assumption.
  unfold matching_observations. lia.
Qed.

Lemma Comprehensive_score_exact_name query entity :
  name entity = query ->
  100 <= Comprehensive.score_of (JsString.toLowerCase query) entity.
Proof.
  intros <-. unfold Comprehensive.score_of. rewrite includes_self. lia.
Qed.

Lemma Comprehensive_score_observations_only q entity :
  only_observations_match_composite q entity ->
  Comprehensive.score_of q entity = 10 * matching_observations q entity.
Proof.
  intros (Hn & Ht). unfold Comprehensive.score_of.
  unfold hit in Hn, Ht. rewrite Hn, Ht.
  rewrite fold_observations. unfold matching_observations. lia.
Qed.

Lemma MemoryServer_search_loop_spec q entries r :
  In r (MemoryServer.search_loop q entries) <->
  exists nm entity,
    In (nm, entity) entries
    /\ 0 < MemoryServer.score_of q nm entity
    /\ r = MemoryServer.search_result entity (MemoryServer.score_of q nm entity).
Proof.
  induction entries as [|[nm entity] entries IH]; simpl.
  - split; [tauto|]. intros (? & ? & [] & _).
  - destruct (0 <? MemoryServer.score_of q nm entity)%nat eqn:E; simpl;
      rewrite IH; split.
    + intros [<-|(nm' & e' & H & P & R)].
      * exists nm, entity. apply Nat.ltb_lt in E. auto.
      * exists nm', e'. auto.
    + intros (nm' & e' & [[= <- <-]|H] & P & R); [left; auto|].
      right. exists nm', e'. auto.
    + intros (nm' & e' & H & P & R). exists nm', e'. auto.
    + intros (nm' & e' & [[= <- <-]|H] & P & R).
      * apply Nat.ltb_ge in E. lia.
      * exists nm', e'. auto.
Qed.

Lemma Comprehensive_search_loop_spec q entities r :
  In r (Comprehensive.search_loop q entities) <->
  exists entity,
    In entity entities
    /\ 0 < Comprehensive.score_of q entity
    /\ r = MemoryServer.search_result entity (Comprehensive.score_of q entity).
Proof.
  induction entities as [|entity entities IH]; simpl.
  - split; [tauto|]. intros (? & [] & _).
  - destruct (0 <? Comprehensive.score_of q entity)%nat eqn:E; simpl;
      rewrite IH; split.
    + intros [<-|(e' & H & P & R)].
      * exists entity. apply Nat.ltb_lt in E. auto.
      * exists e'. auto.
    + intros (e' & [<-|H] & P & R); [left; auto|].
      right. exists e'. auto.
    + intros (e' & H & P & R). exists e'. auto.
    + intros (e' & [<-|H] & P & R).
      * apply Nat.ltb_ge in E. lia.
      * exists e'. auto.
Qed.

Lemma MemoryServer_search_loop_positive q entries :
  Forall (fun r => 0 < score r) (MemoryServer.search_loop q entries).
Proof.
  apply Forall_forall. intros r Hr.
  apply MemoryServer_search_loop_spec in Hr.
  destruct Hr as (nm & e & _ & P & ->). exact P.
Qed.

Lemma Comprehensive_search_loop_positive q entities :
  Forall (fun r => 0 < score r) (Comprehensive.search_loop q entities).
Proof.
  apply Forall_forall. intros r Hr.
  apply Comprehensive_search_loop_spec in Hr.
  destruct Hr as (e & _ & P & ->). exact P.
Qed.

End Scores.

(** ** Claims about [searchNodes] *)

(** C4, as amended.  In both servers the search returns exactly the
    entities whose score is positive, sorted by descending score, and
    results of equal score stay in the order in which the entities
    object enumerates them ([search_loop] follows that order: creation
    order, array-index names first).  An entity whose name is the query
    scores at least the name weight (10 in the memory server, 100 in the
    composite one); an entity matched through its observations only
    scores the observation weight (3, or 10) for each matching
    observation, so the exact name wins strictly as long as the other
    has at most 3 (or 9) matching observations. *)
Theorem searchNodes_ranks_by_score (g : MemoryGraph) (query : string) :
  let q := JsString.toLowerCase query in
  (Forall (fun r => 0 < score r) (MemoryServer.search query g)
   /\ StronglySorted (fun a b => score b <= score a)
                     (MemoryServer.search query g)
   /\ (forall k, filter (has_score k) (MemoryServer.search query g)
                 = filter (has_score k) (MemoryServer.search_loop q g))
   /\ (forall r, In r (MemoryServer.search query g) <->
                 exists nm entity,
                   In (nm, entity) g
                   /\ 0 < MemoryServer.score_of q nm entity
                   /\ r = MemoryServer.search_result
                            entity (MemoryServer.score_of q nm entity))
   /\ (forall entity nm' entity',
          only_observations_match q nm' entity' ->
          matching_observations q entity' <= 3 ->
          MemoryServer.score_of q nm' entity'
          < MemoryServer.score_of q query entity))
  /\ (Forall (fun r => 0 < score r) (Comprehensive.searchNodesInternal query g)
      /\ StronglySorted (fun a b => score b <= score a)
                        (Comprehensive.searchNodesInternal query g)
      /\ (forall k,
             filter (has_score k) (Comprehensive.searchNodesInternal query g)
             = filter (has_score k)
                      (Comprehensive.search_loop q (JsObject.values g)))
      /\ (forall r, In r (Comprehensive.searchNodesInternal query g) <->
                    exists entity,
                      In entity (JsObject.values g)
                      /\ 0 < Comprehensive.score_of q entity
                      /\ r = MemoryServer.search_result
                               entity (Comprehensive.score_of q entity))
      /\ (forall entity entity',
             name entity = query ->
             only_observations_match_composite q entity' ->
             matching_observations q entity' <= 9 ->
             Comprehensive.score_of q entity'
             < Comprehensive.score_of q entity)).
Proof.
  intros q. split.
  - unfold MemoryServer.search. fold q. repeat split.
    + apply sort_Forall, MemoryServer_search_loop_positive.
    + apply sort_sorted.
    + intros k. apply sort_stable.
    + intros H. apply MemoryServer_search_loop_spec.
      eapply Permutation_in; [apply sort_perm|exact H].
    + intros H. apply MemoryServer_search_loop_spec in H.
      eapply Permutation_in; [symmetry; apply sort_perm|exact H].
    + intros entity nm' entity' Ho Hc.
      rewrite (MemoryServer_score_observations_only _ _ _ Ho).
      pose proof (MemoryServer_score_exact_name query entity). fold q in H. lia.
  - unfold Comprehensive.searchNodesInternal. fold q. repeat split.
    + apply sort_Forall, Comprehensive_search_loop_positive.
    + apply sort_sorted.
    + intros k. apply sort_stable.
    + intros H. apply Comprehensive_search_loop_spec.
      eapply Permutation_in; [apply sort_perm|exact H].
    + intros H. apply Comprehensive_search_loop_spec in H.
      eapply Permutation_in; [symmetry; apply sort_perm|exact H].
    + intros entity entity' Hn Ho Hc.
      rewrite (Comprehensive_score_observations_only _ _ Ho).
      pose proof (Comprehensive_score_exact_name query entity Hn). fold q in H.
      lia.
Qed.

Lemma alice_matches_tea_by_observation :
  only_observations_match "tea" "Alice" Scenario.alice
  /\ only_observations_match_composite "tea" Scenario.alice.
Proof.
  repeat split; try reflexivity;
    destruct H as [<-|[]]; reflexivity.
Qed.

Lemma searchNodes_ranks_by_score_witness :
  MemoryServer.score_of "tea" "Alice" Scenario.alice
  < MemoryServer.score_of "tea" "tea" Scenario.tea
  /\ Comprehensive.score_of "tea" Scenario.alice
     < Comprehensive.score_of "tea" Scenario.tea.
Proof.
  destruct (searchNodes_ranks_by_score Scenario.tea_graph "tea")
    as ((_ & _ & _ & _ & HM) & (_ & _ & _ & _ & HC)).
  destruct alice_matches_tea_by_observation as [AM AC].
  split.
  - apply (HM Scenario.tea "Alice" Scenario.alice AM).
    vm_compute. lia.
  - apply (HC Scenario.tea Scenario.alice eq_refl AC).
    vm_compute. lia.
Defined.

(** C4 as stated fails: four observations that mention the query
    outweigh the entity whose name is the query. *)
Lemma searchNodes_exact_name_outscored_counterexample :
  MemoryServer.search "tea" Scenario.tea_graph
  = [MemoryServer.search_result Scenario.bob 12;
     MemoryServer.search_result Scenario.tea 10]
  /\ only_observations_match "tea" "Bob" Scenario.bob
  /\ ~ (MemoryServer.score_of "tea" "Bob" Scenario.bob
        < MemoryServer.score_of "tea" "tea" Scenario.tea).
Proof.
  split; [reflexivity|]. split.
  - repeat split; try reflexivity; destruct H.
  - vm_compute. lia.
Qed.

(** ** What a computation leaves alone *)

Section Frames.
Context {St X : Type} (f : St -> X).

Lemma keeps_ret {A} (a : A) : keeps f (ret a).
Proof. intros s. reflexivity. Qed.

Lemma keeps_throw {A} m : keeps f (@throw St A m).
Proof. intros s. reflexivity. Qed.

Lemma keeps_gets {A} (g : St -> A) : keeps f (gets g).
Proof. intros s. reflexivity. Qed.

Lemma keeps_modify (g : St -> St) :
  (forall s, f (g s) = f s) -> keeps f (modify g).
Proof. intros H s. apply H. Qed.

Lemma keeps_bind {A B} (c : M St A) (k : A -> M St B) :
  keeps f c -> (forall a, keeps f (k a)) -> keeps f (bind c k).
Proof.
  intros Hc Hk s. unfold bind. specialize (Hc s).
  destruct (c s) as [[a|m] s']; simpl in *; [|assumption].
  rewrite Hk. assumption.
Qed.

Lemma keeps_try_catch {A} (c : M St A) (h : string -> M St A) :
  keeps f c -> (forall m, keeps f (h m)) -> keeps f (try_catch c h).
Proof.
  intros Hc Hh s. unfold try_catch. specialize (Hc s).
  destruct (c s) as [[a|m] s']; simpl in *; [assumption|].
  rewrite Hh. assumption.
Qed.

Lemma keeps_state_dependent {A} (c : St -> M St A) :
  (forall s0, keeps f (c s0)) -> keeps f (fun s => c s s).
Proof. intros H s. apply H. Qed.

End Frames.

Lemma snd_try_catch_rethrow {St A} (c : M St A) (h : string -> string) s :
  snd (try_catch c (fun m => throw (h m)) s) = snd (c s).
Proof. unfold try_catch. destruct (c s) as [[a|m] s']; reflexivity. Qed.

Lemma run_bind {St A B} (c : M St A) (k : A -> M St B) s :
  bind c k s
  = match c s with
    | (Return a, s') => k a s'
    | (Throw m, s') => (Throw m, s')
    end.
Proof. reflexivity. Qed.

(** Running the first step of a computation. *)
Ltac run_step :=
  cbv beta iota;
  match goal with
  | |- context [bind (gets ?f) ?k ?s] =>
      change (bind (gets f) k s) with (k (f s) s); cbv beta
  | |- context [bind (modify ?f) ?k ?s] =>
      change (bind (modify f) k s) with (k tt (f s)); cbv beta
  | |- context [bind (ret ?a) ?k ?s] =>
      change (bind (ret a) k s) with (k a s); cbv beta
  end.

Ltac keeps_step :=
  first
    [ apply keeps_ret | apply keeps_throw | apply keeps_gets
    | apply keeps_bind; [|intros ?]
    | apply keeps_try_catch; [|intros ?]
    | match goal with
      | |- keeps _ (if ?b then _ else _) => destruct b
      | |- keeps _ (match ?x with _ => _ end) => destruct x
      end ].

(** ** Directory management *)

Section PlainDirectories.
Context {W : Type} {host : Host W}.

Lemma plain_host_do_keeps {X} (f : @FilesystemServer.State W -> X) op :
  (forall s w, f (FilesystemServer.set_world s w) = f s) ->
  keeps f (FilesystemServer.host_do op).
Proof.
  intros H s. unfold FilesystemServer.host_do.
  destruct (op (FilesystemServer.world s)) as [[m|] w]; simpl; apply H.
Qed.

Lemma plain_host_ask_keeps {X A} (f : @FilesystemServer.State W -> X)
      (q : W -> A + string) :
  keeps f (FilesystemServer.host_ask q).
Proof.
  intros s. unfold FilesystemServer.host_ask.
  destruct (q (FilesystemServer.world s)); reflexivity.
Qed.

Lemma plain_saveConfiguration_keeps :
  keeps FilesystemServer.allowedDirectories FilesystemServer.saveConfiguration.
Proof.
  unfold FilesystemServer.saveConfiguration.
  apply keeps_try_catch; [|intros; apply keeps_throw].
  apply (keeps_state_dependent FilesystemServer.allowedDirectories
           (fun s0 => FilesystemServer.host_do
                        (store_config (FilesystemServer.configFilePath s0)
                           (FilesystemServer.allowedDirectories s0)
                           (JsDate.toISOString
                              (date_now (FilesystemServer.world s0)))))).
  intros s0. apply plain_host_do_keeps. reflexivity.
Qed.

Lemma plain_removeAllowedDirectory_directories dirPath s :
  FilesystemServer.allowedDirectories
    (snd (FilesystemServer.removeAllowedDirectory dirPath s))
  = after_remove (NodePath.resolve (cwd (FilesystemServer.world s)) dirPath)
                 (FilesystemServer.allowedDirectories s).
Proof.
  unfold FilesystemServer.removeAllowedDirectory, after_remove.
  unfold try_catch, bind at 1 2 3, FilesystemServer.resolve, gets, modify.
  simpl.
  set (resolved := NodePath.resolve (cwd (FilesystemServer.world s)) dirPath).
  set (remaining := filter (fun dir => negb (String.eqb dir resolved))
                           (FilesystemServer.allowedDirectories s)).
  destruct (length remaining =? length (FilesystemServer.allowedDirectories s))%nat;
    [reflexivity|].
  destruct (length remaining =? 0)%nat eqn:E.
  - simpl. apply Nat.eqb_eq in E.
    destruct remaining; [reflexivity|discriminate].
  - unfold bind.
    pose proof (plain_saveConfiguration_keeps
                  (FilesystemServer.set_directories s remaining)) as K.
    destruct (FilesystemServer.saveConfiguration
                (FilesystemServer.set_directories s remaining))
      as [[[]|m] s']; simpl in *; exact K.
Qed.

Lemma plain_removeAllowedDirectory_last dirPath s d :
  FilesystemServer.allowedDirectories s = [d] ->
  NodePath.resolve (cwd (FilesystemServer.world s)) dirPath = d ->
  FilesystemServer.removeAllowedDirectory dirPath s
  = (Throw ("Failed to remove directory: " ++ last_directory_message), s).
Proof.
  intros Hd Hr.
  unfold FilesystemServer.removeAllowedDirectory.
  unfold try_catch, bind, FilesystemServer.resolve, gets, modify, throw.
  simpl. rewrite Hr, Hd. simpl. rewrite String.eqb_refl. simpl.
  f_equal. destruct s; simpl in *. subst. reflexivity.
Qed.

Lemma filter_out_only d (dirs : list string) :
  (forall x, In x dirs -> x = d) ->
  filter (fun dir => negb (String.eqb dir d)) dirs = [].
Proof.
  induction dirs as [|x dirs IH]; intros H; [reflexivity|]. simpl.
  rewrite (H x (or_introl eq_refl)), String.eqb_refl. simpl.
  apply IH. intros y Hy. apply H. right. assumption.
Qed.

Lemma plain_removeAllowedDirectory_sole dirPath s :
  FilesystemServer.allowedDirectories s <> [] ->
  (forall x, In x (FilesystemServer.allowedDirectories s) ->
             x = NodePath.resolve (cwd (FilesystemServer.world s)) dirPath) ->
  FilesystemServer.removeAllowedDirectory dirPath s
  = (Throw ("Failed to remove directory: " ++ last_directory_message),
     FilesystemServer.set_directories s
       [NodePath.resolve (cwd (FilesystemServer.world s)) dirPath]).
Proof.
  intros Hne Hall.
  unfold FilesystemServer.removeAllowedDirectory.
  unfold try_catch, bind, FilesystemServer.resolve, gets, modify, throw.
  cbn [fst snd FilesystemServer.world FilesystemServer.allowedDirectories
       FilesystemServer.set_directories].
  rewrite (filter_out_only _ _ Hall).
  destruct (FilesystemServer.allowedDirectories s); [congruence|].
  reflexivity.
Qed.

Lemma plain_check_directory_state dirPath resolved s :
  snd (FilesystemServer.check_directory dirPath resolved s) = s.
Proof.
  assert (K : keeps (fun s => s)
                    (FilesystemServer.check_directory dirPath resolved)).
  { unfold FilesystemServer.check_directory.
    repeat (keeps_step || apply plain_host_ask_keeps). }
  exact (K s).
Qed.

Lemma plain_addAllowedDirectory_directories dirPath s :
  FilesystemServer.allowedDirectories
    (snd (FilesystemServer.addAllowedDirectory dirPath s))
  = FilesystemServer.allowedDirectories s
  \/ FilesystemServer.allowedDirectories
       (snd (FilesystemServer.addAllowedDirectory dirPath s))
     = (FilesystemServer.allowedDirectories s
          ++ [NodePath.resolve (cwd (FilesystemServer.world s)) dirPath])%list.
Proof.
  unfold FilesystemServer.addAllowedDirectory.
  unfold try_catch, bind, FilesystemServer.resolve, gets, modify, ret, throw.
  simpl.
  set (resolved := NodePath.resolve (cwd (FilesystemServer.world s)) dirPath).
  pose proof (plain_check_directory_state dirPath resolved s) as C.
  destruct (FilesystemServer.check_directory dirPath resolved s)
    as [[[]|m] s1]; simpl in C; subst s1; simpl; [|left; reflexivity].
  destruct (includes (FilesystemServer.allowedDirectories s) resolved);
    [left; reflexivity|].
  right.
  pose proof (plain_saveConfiguration_keeps
                (FilesystemServer.set_directories s
                   (FilesystemServer.allowedDirectories s ++ [resolved])%list))
    as K.
  destruct (FilesystemServer.saveConfiguration _) as [[[]|m] s']; simpl in *;
    exact K.
Qed.

End PlainDirectories.

Section CompositeDirectories.
Context {W : Type} {host : Host W}.

Lemma directories_blind :
  blind_to_world_and_graph (@Comprehensive.allowedDirectories W).
Proof. split; reflexivity. Qed.

Lemma composite_host_do_keeps {X} (f : @Comprehensive.State W -> X) op :
  blind_to_world_and_graph f -> keeps f (Comprehensive.host_do op).
Proof.
  intros [H _] s. unfold Comprehensive.host_do.
  destruct (op (Comprehensive.world s)) as [[m|] w]; simpl; apply H.
Qed.

Lemma composite_host_ask_keeps {X A} (f : @Comprehensive.State W -> X)
      (q : W -> A + string) :
  keeps f (Comprehensive.host_ask q).
Proof.
  intros s. unfold Comprehensive.host_ask.
  destruct (q (Comprehensive.world s)); reflexivity.
Qed.

Lemma composite_saveMemoryGraph_keeps {X} (f : @Comprehensive.State W -> X) :
  blind_to_world_and_graph f -> keeps f Comprehensive.saveMemoryGraph.
Proof.
  intros [H _] s.
  destruct (Comprehensive_saveMemoryGraph_spec s) as [w ->]. apply H.
Qed.

Lemma composite_createEntitiesInternal_keeps {X}
      (f : @Comprehensive.State W -> X) entities :
  blind_to_world_and_graph f ->
  keeps f (Comprehensive.createEntitiesInternal entities).
Proof.
  intros [H1 H2] s.
  destruct (Comprehensive_createEntitiesInternal_spec entities s) as [w ->].
  simpl. rewrite H1, H2. reflexivity.
Qed.

Lemma composite_createRelationsInternal_keeps {X}
      (f : @Comprehensive.State W -> X) rels :
  blind_to_world_and_graph f ->
  keeps f (Comprehensive.createRelationsInternal rels).
Proof.
  intros [H1 H2] s.
  destruct (Comprehensive_createRelationsInternal_spec rels s) as [w ->].
  simpl. rewrite H1, H2. reflexivity.
Qed.

Lemma composite_modify_graph_keeps {X} (f : @Comprehensive.State W -> X)
      (h : @Comprehensive.State W -> MemoryGraph) :
  blind_to_world_and_graph f ->
  keeps f (modify (fun s => Comprehensive.set_graph s (h s))).
Proof. intros [_ H] s. apply H. Qed.

Lemma composite_saveConfiguration_keeps {X} (f : @Comprehensive.State W -> X) :
  blind_to_world_and_graph f -> keeps f Comprehensive.saveConfiguration.
Proof.
  intros B. unfold Comprehensive.saveConfiguration.
  apply keeps_try_catch; [|intros; apply keeps_throw].
  apply (keeps_state_dependent f
           (fun s0 => Comprehensive.host_do
                        (store_config (Comprehensive.configFilePath s0)
                           (Comprehensive.allowedDirectories s0)
                           (JsDate.toISOString
                              (date_now (Comprehensive.world s0)))))).
  intros s0. apply composite_host_do_keeps. assumption.
Qed.

End CompositeDirectories.

Ltac composite_keeps :=
  repeat first
    [ apply composite_host_ask_keeps
    | apply composite_host_do_keeps; assumption
    | apply composite_saveMemoryGraph_keeps; assumption
    | apply composite_saveConfiguration_keeps; assumption
    | apply composite_createEntitiesInternal_keeps; assumption
    | apply composite_createRelationsInternal_keeps; assumption
    | apply composite_modify_graph_keeps; assumption
    | keeps_step ].

Section CompositeDirectoryLemmas.
Context {W : Type} {host : Host W}.

Lemma composite_addObservations_keeps {X} (f : @Comprehensive.State W -> X)
      entityName obs :
  blind_to_world_and_graph f ->
  keeps f (Comprehensive.addObservations entityName obs).
Proof.
  intros B. unfold Comprehensive.addObservations. composite_keeps.
Qed.

Lemma composite_rememberFileAccess_keeps {X} (f : @Comprehensive.State W -> X)
      filePath operation metadata :
  blind_to_world_and_graph f ->
  keeps f (Comprehensive.rememberFileAccess filePath operation metadata).
Proof.
  intros B. unfold Comprehensive.rememberFileAccess, Comprehensive.now.
  composite_keeps.
Qed.

Lemma composite_check_directory_state dirPath resolved
      (s : @Comprehensive.State W) :
  snd (Comprehensive.check_directory dirPath resolved s) = s.
Proof.
  assert (K : keeps (fun s => s)
                    (Comprehensive.check_directory dirPath resolved)).
  { unfold Comprehensive.check_directory. composite_keeps. }
  exact (K s).
Qed.

Lemma composite_removeAllowedDirectory_directories dirPath
      (s : @Comprehensive.State W) :
  Comprehensive.allowedDirectories
    (snd (Comprehensive.removeAllowedDirectory dirPath s))
  = after_remove (NodePath.resolve (cwd (Comprehensive.world s)) dirPath)
                 (Comprehensive.allowedDirectories s).
Proof.
  unfold Comprehensive.removeAllowedDirectory, after_remove.
  unfold try_catch, bind at 1 2 3, Comprehensive.resolve, gets at 1 2, modify at 1.
  simpl.
  set (resolved := NodePath.resolve (cwd (Comprehensive.world s)) dirPath).
  set (remaining := filter (fun dir => negb (String.eqb dir resolved))
                           (Comprehensive.allowedDirectories s)).
  destruct (length remaining =? length (Comprehensive.allowedDirectories s))%nat;
    [reflexivity|].
  destruct (length remaining =? 0)%nat eqn:E.
  - simpl. apply Nat.eqb_eq in E.
    destruct remaining; [reflexivity|discriminate].
  - match goal with
    | |- Comprehensive.allowedDirectories
           (snd (let (o, s') := ?c ?s0 in _)) = _ =>
        assert (K : keeps Comprehensive.allowedDirectories c);
        [|specialize (K s0); destruct (c s0) as [[a|m] s']; simpl in *; exact K]
    end.
    pose proof (@directories_blind W) as B.
    unfold Comprehensive.now. composite_keeps.
Qed.

Lemma composite_removeAllowedDirectory_last dirPath
      (s : @Comprehensive.State W) d :
  Comprehensive.allowedDirectories s = [d] ->
  NodePath.resolve (cwd (Comprehensive.world s)) dirPath = d ->
  Comprehensive.removeAllowedDirectory dirPath s
  = (Throw ("Failed to remove directory: " ++ last_directory_message), s).
Proof.
  intros Hd Hr.
  unfold Comprehensive.removeAllowedDirectory.
  unfold try_catch, bind, Comprehensive.resolve, gets, modify, throw.
  simpl. rewrite Hr, Hd. simpl. rewrite String.eqb_refl. simpl.
  f_equal. destruct s; simpl in *. subst. reflexivity.
Qed.

Lemma composite_removeAllowedDirectory_sole dirPath
      (s : @Comprehensive.State W) :
  Comprehensive.allowedDirectories s <> [] ->
  (forall x, In x (Comprehensive.allowedDirectories s) ->
             x = NodePath.resolve (cwd (Comprehensive.world s)) dirPath) ->
  Comprehensive.removeAllowedDirectory dirPath s
  = (Throw ("Failed to remove directory: " ++ last_directory_message),
     Comprehensive.set_directories s
       [NodePath.resolve (cwd (Comprehensive.world s)) dirPath]).
Proof.
  intros Hne Hall.
  unfold Comprehensive.removeAllowedDirectory.
  unfold try_catch, bind, Comprehensive.resolve, gets, modify, throw.
  cbn [fst snd Comprehensive.world Comprehensive.allowedDirectories
       Comprehensive.set_directories].
  rewrite (filter_out_only _ _ Hall).
  destruct (Comprehensive.allowedDirectories s); [congruence|].
  reflexivity.
Qed.

Lemma composite_addAllowedDirectory_directories dirPath
      (s : @Comprehensive.State W) :
  Comprehensive.allowedDirectories
    (snd (Comprehensive.addAllowedDirectory dirPath s))
  = Comprehensive.allowedDirectories s
  \/ Comprehensive.allowedDirectories
       (snd (Comprehensive.addAllowedDirectory dirPath s))
     = (Comprehensive.allowedDirectories s
          ++ [NodePath.resolve (cwd (Comprehensive.world s)) dirPath])%list.
Proof.
  unfold Comprehensive.addAllowedDirectory.
  rewrite snd_try_catch_rethrow.
  unfold Comprehensive.resolve. run_step.
  set (resolved := NodePath.resolve (cwd (Comprehensive.world s)) dirPath).
  rewrite run_bind.
  pose proof (composite_check_directory_state dirPath resolved s) as C.
  destruct (Comprehensive.check_directory dirPath resolved s)
    as [[[]|m] s1]; simpl in C; subst s1; [|left; reflexivity].
  run_step.
  destruct (includes (Comprehensive.allowedDirectories s) resolved);
    [left; reflexivity|].
  right. run_step.
  match goal with
  | |- Comprehensive.allowedDirectories (snd (?c ?s0)) = _ =>
      assert (K : keeps Comprehensive.allowedDirectories c);
      [|exact (K s0)]
  end.
  pose proof (@directories_blind W) as B.
  unfold Comprehensive.now. composite_keeps.
Qed.

End CompositeDirectoryLemmas.

Lemma after_remove_nonempty resolvedPath dirs :
  dirs <> [] -> after_remove resolvedPath dirs <> [].
Proof.
  intros H. unfold after_remove.
  set (remaining := filter (fun dir => negb (String.eqb dir resolvedPath)) dirs).
  destruct (length remaining =? length dirs)%nat eqn:E1.
  - apply Nat.eqb_eq in E1. destruct dirs; [congruence|].
    destruct remaining; discriminate.
  - destruct (length remaining =? 0)%nat eqn:E2; [discriminate|].
    destruct remaining; [discriminate|discriminate].
Qed.

(** A list can name its only directory more than once (the constructor
    takes the list as given).  Removing that directory then fails as
    well and leaves the same directory allowed, named once. *)
Lemma after_remove_sole_repeated d dirs :
  dirs <> [] -> (forall x, In x dirs -> x = d) -> after_remove d dirs = [d].
Proof.
  intros Hne Hall. unfold after_remove.
  assert (E : filter (fun dir => negb (String.eqb dir d)) dirs = []).
  { clear Hne. induction dirs as [|x dirs IH]; [reflexivity|]. simpl.
    rewrite (Hall x (or_introl eq_refl)), String.eqb_refl. simpl.
    apply IH. intros y Hy. apply Hall. right. assumption. }
  rewrite E. destruct dirs; [congruence|reflexivity].
Qed.

Section DirectoryClaim.
Context {W : Type} {host : Host W}.

Lemma plain_step_nonempty (step : SessionStep W) (s : FilesystemServer.State) :
  FilesystemServer.allowedDirectories s <> [] ->
  FilesystemServer.allowedDirectories (plain_step step s) <> [].
Proof.
  intros H. destruct step as [[p|p]|f]; simpl.
  - destruct (plain_addAllowedDirectory_directories p s) as [-> | ->];
      [assumption|].
    intros E. apply app_eq_nil in E. destruct E; discriminate.
  - rewrite plain_removeAllowedDirectory_directories.
    apply after_remove_nonempty. assumption.
  - assumption.
Qed.

Lemma composite_step_nonempty (step : SessionStep W) (s : Comprehensive.State) :
  Comprehensive.allowedDirectories s <> [] ->
  Comprehensive.allowedDirectories (composite_step step s) <> [].
Proof.
  intros H. destruct step as [[p|p]|f]; simpl.
  - destruct (composite_addAllowedDirectory_directories p s) as [-> | ->];
      [assumption|].
    intros E. apply app_eq_nil in E. destruct E; discriminate.
  - rewrite composite_removeAllowedDirectory_directories.
    apply after_remove_nonempty. assumption.
  - assumption.
Qed.

(** X27.  Removing the only allowed directory throws and leaves that
    directory allowed, listed once: a list that names it once, and with
    it the server and the length of the list, is as it was; a list that
    names it several times, as the constructor can leave it, comes out
    with one entry.  And a list that starts with at least one directory
    has at least one after any session of [add_allowed_directory] and
    [remove_allowed_directory] calls, in the plain server and in the
    composite one. *)
Theorem allowed_directories_never_empty
        (sP : FilesystemServer.State) (sC : Comprehensive.State) :
  FilesystemServer.allowedDirectories sP <> [] ->
  Comprehensive.allowedDirectories sC <> [] ->
  ((forall dirPath,
       let d := NodePath.resolve (cwd (FilesystemServer.world sP)) dirPath in
       (forall x, In x (FilesystemServer.allowedDirectories sP) -> x = d) ->
       FilesystemServer.removeAllowedDirectory dirPath sP
       = (Throw ("Failed to remove directory: " ++ last_directory_message),
          FilesystemServer.set_directories sP [d])
       /\ (FilesystemServer.allowedDirectories sP = [d] ->
           FilesystemServer.set_directories sP [d] = sP))
   /\ forall steps,
       FilesystemServer.allowedDirectories (plain_session steps sP) <> [])
  /\ ((forall dirPath,
          let d := NodePath.resolve (cwd (Comprehensive.world sC)) dirPath in
          (forall x, In x (Comprehensive.allowedDirectories sC) -> x = d) ->
          Comprehensive.removeAllowedDirectory dirPath sC
          = (Throw ("Failed to remove directory: " ++ last_directory_message),
             Comprehensive.set_directories sC [d])
          /\ (Comprehensive.allowedDirectories sC = [d] ->
              Comprehensive.set_directories sC [d] = sC))
      /\ forall steps,
          Comprehensive.allowedDirectories (composite_session steps sC) <> []).
Proof.
  intros HP HC. split; split.
  - intros dirPath d Hall. split.
    + apply plain_removeAllowedDirectory_sole; assumption.
    + intros E. destruct sP; simpl in *. subst. reflexivity.
  - intros steps. revert sP HP. unfold plain_session.
    induction steps as [|step steps IH]; simpl; intros s H; [assumption|].
    apply IH. apply plain_step_nonempty. assumption.
  - intros dirPath d Hall. split.
    + apply composite_removeAllowedDirectory_sole; assumption.
    + intros E. destruct sC; simpl in *. subst. reflexivity.
  - intros steps. revert sC HC. unfold composite_session.
    induction steps as [|step steps IH]; simpl; intros s H; [assumption|].
    apply IH. apply composite_step_nonempty. assumption.
Qed.

End DirectoryClaim.

Lemma allowed_directories_never_empty_witness :
  FilesystemServer.removeAllowedDirectory "/tmp/a/sub/.." Scenario.plain
  = (Throw ("Failed to remove directory: " ++ last_directory_message),
     Scenario.plain)
  /\ Comprehensive.removeAllowedDirectory "/tmp/a"
       (Scenario.composite JsObject.empty)
     = (Throw ("Failed to remove directory: " ++ last_directory_message),
        Scenario.composite JsObject.empty)
  /\ FilesystemServer.allowedDirectories
       (plain_session
          [Call (RemoveDirectory "/tmp/a"); Call (AddDirectory "/tmp/ab");
           Call (RemoveDirectory "/tmp/a")] Scenario.plain) <> []
  /\ Comprehensive.allowedDirectories
       (composite_session
          [Call (RemoveDirectory "/tmp/a"); Call (AddDirectory "/tmp/ab");
           Call (RemoveDirectory "/tmp/a")]
          (Scenario.composite JsObject.empty)) <> [].
Proof.
  destruct (allowed_directories_never_empty
              Scenario.plain (Scenario.composite JsObject.empty))
    as ((LP & SP) & (LC & SC)); try discriminate.
  split.
  { destruct (LP "/tmp/a/sub/..") as [T U];
      [intros x [<-|[]]; reflexivity|].
    rewrite T, U; reflexivity. }
  split.
  { destruct (LC "/tmp/a") as [T U];
      [intros x [<-|[]]; reflexivity|].
    rewrite T, U; reflexivity. }
  split; [apply SP|apply SC].
Defined.

(** C3.  A server constructed with two spellings of its only
    directory, where there is no configuration to load, lists that
    directory twice: [loadConfiguration] and [addAllowedDirectory] keep
    the list free of repetitions, the constructor does not.  Removing
    the directory then throws, as for a list of one, but what is put
    back is one entry: the list has two entries before the failed call
    and one after it. *)
Theorem removeAllowedDirectory_collapses_repeated_directory :
  FilesystemServer.allowedDirectories Scenario.plain_repeated
  = ["/tmp/a"; "/tmp/a"]
  /\ FilesystemServer.removeAllowedDirectory "/tmp/a" Scenario.plain_repeated
     = (Throw ("Failed to remove directory: " ++ last_directory_message),
        Scenario.plain)
  /\ length (FilesystemServer.allowedDirectories
               (snd (FilesystemServer.removeAllowedDirectory
                       "/tmp/a" Scenario.plain_repeated)))
     <> length (FilesystemServer.allowedDirectories Scenario.plain_repeated)
  /\ Comprehensive.allowedDirectories Scenario.composite_repeated
     = ["/tmp/a"; "/tmp/a"]
  /\ fst (Comprehensive.removeAllowedDirectory "/tmp/a"
            Scenario.composite_repeated)
     = Throw ("Failed to remove directory: " ++ last_directory_message)
  /\ Comprehensive.allowedDirectories
       (snd (Comprehensive.removeAllowedDirectory
               "/tmp/a" Scenario.composite_repeated))
     = ["/tmp/a"].
Proof.
  split; [vm_compute; reflexivity|]. split; [vm_compute; reflexivity|].
  split; [vm_compute; discriminate|]. split; [vm_compute; reflexivity|].
  split; vm_compute; reflexivity.
Qed.

Example directory_session_ex :
  FilesystemServer.allowedDirectories
    (plain_session
       [Call (RemoveDirectory "/tmp/a"); Call (AddDirectory "/tmp/ab");
        Call (RemoveDirectory "/tmp/a")] Scenario.plain)
  = ["/tmp/ab"].
Proof. vm_compute. reflexivity. Qed.

(** ** Validation before any effect *)

Section Validation.
Context {W : Type} {host : Host W}.

Lemma composite_validatePath_run targetPath (s : @Comprehensive.State W) :
  Comprehensive.validatePath targetPath s
  = if is_allowed (Comprehensive.allowedDirectories s)
                  (NodePath.resolve (cwd (Comprehensive.world s)) targetPath)
    then (Return (NodePath.resolve (cwd (Comprehensive.world s)) targetPath), s)
    else (Throw (access_denied targetPath), s).
Proof.
  unfold Comprehensive.validatePath, Comprehensive.resolve.
  run_step. run_step.
  destruct (is_allowed _ _); reflexivity.
Qed.

Lemma plain_validatePath_run targetPath (s : @FilesystemServer.State W) :
  FilesystemServer.validatePath targetPath s
  = if is_allowed (FilesystemServer.allowedDirectories s)
                  (NodePath.resolve (cwd (FilesystemServer.world s)) targetPath)
    then (Return (NodePath.resolve (cwd (FilesystemServer.world s)) targetPath),
          s)
    else (Throw (access_denied targetPath), s).
Proof.
  unfold FilesystemServer.validatePath, FilesystemServer.resolve.
  run_step. run_step.
  destruct (is_allowed _ _); reflexivity.
Qed.

(** A tool that begins by validating a path that is rejected throws the
    denial and does nothing else. *)
Lemma denied_then {A} targetPath (k : string -> M Comprehensive.State A)
      (s : @Comprehensive.State W) :
  is_allowed (Comprehensive.allowedDirectories s)
             (NodePath.resolve (cwd (Comprehensive.world s)) targetPath)
  = false ->
  bind (Comprehensive.validatePath targetPath) k s
  = (Throw (access_denied targetPath), s).
Proof.
  intros H. rewrite run_bind, composite_validatePath_run, H. reflexivity.
Qed.

Lemma allowed_then {A} targetPath (k : string -> M Comprehensive.State A)
      (s : @Comprehensive.State W) :
  is_allowed (Comprehensive.allowedDirectories s)
             (NodePath.resolve (cwd (Comprehensive.world s)) targetPath)
  = true ->
  bind (Comprehensive.validatePath targetPath) k s
  = k (NodePath.resolve (cwd (Comprehensive.world s)) targetPath) s.
Proof.
  intros H. rewrite run_bind, composite_validatePath_run, H. reflexivity.
Qed.

Lemma dispatch_denied (s : @Comprehensive.State W) call paths p :
  path_arguments call = Some paths ->
  first_denied (cwd (Comprehensive.world s))
               (Comprehensive.allowedDirectories s) paths = Some p ->
  Comprehensive.dispatch call s = (Throw (access_denied p), s).
Proof.
  intros Hp Hd. unfold first_denied in Hd.
  destruct call; cbn [path_arguments] in Hp; try discriminate;
    injection Hp as <-; cbn [find] in Hd;
    repeat match type of Hd with
           | context [negb (is_allowed ?d ?r)] =>
               destruct (is_allowed d r) eqn:?; cbn [negb] in Hd
           end; try discriminate; injection Hd as <-;
    cbn [Comprehensive.dispatch];
    try (apply denied_then; assumption).
  unfold Comprehensive.moveFile.
  rewrite allowed_then by assumption. apply denied_then. assumption.
Qed.

Lemma ensureInitialized_done (s : @Comprehensive.State W) :
  Comprehensive.isInitialized s = true ->
  Comprehensive.ensureInitialized s = (Return tt, s).
Proof.
  intros H. unfold Comprehensive.ensureInitialized. run_step.
  rewrite H. reflexivity.
Qed.

(** Lazy initialisation never fails: a graph that cannot be loaded is
    taken as empty, and a failure while the allowed directories are
    recorded is logged and dropped. *)
Lemma ensureInitialized_returns (s : @Comprehensive.State W) :
  fst (Comprehensive.ensureInitialized s) = Return tt.
Proof.
  unfold Comprehensive.ensureInitialized. run_step.
  destruct (Comprehensive.isInitialized s); [reflexivity|].
  unfold Comprehensive.loadMemoryGraph. run_step. rewrite run_bind.
  unfold Comprehensive.initializeAllowedDirectories, try_catch.
  match goal with
  | |- context [match ?c ?s0 with _ => _ end] =>
      destruct (c s0) as [[[]|m] s1]; reflexivity
  end.
Qed.

Lemma ensureInitialized_directories (s : @Comprehensive.State W) :
  Comprehensive.allowedDirectories (snd (Comprehensive.ensureInitialized s))
  = Comprehensive.allowedDirectories s.
Proof.
  assert (K : keeps Comprehensive.allowedDirectories
                    (@Comprehensive.ensureInitialized W host));
    [|exact (K s)].
  pose proof (@directories_blind W) as B.
  unfold Comprehensive.ensureInitialized, Comprehensive.loadMemoryGraph,
    Comprehensive.initializeAllowedDirectories, Comprehensive.now.
  composite_keeps.
  - intros s0. unfold modify. cbn [snd].
    destruct (load_graph _ _); reflexivity.
  - intros s0. reflexivity.
Qed.

(** C2, as amended.  A call of a filesystem tool whose path argument
    (for [move_file], the first of its two that fails) is rejected by
    [validatePath] returns the "Access denied" error with [isError] set
    and leaves the server in the state that lazy initialisation alone
    gives: on a server that is initialised, the graph, the allowed
    directories and the disk are as they were, and on the first call of
    a session nothing is added to what the initialisation loads and
    records.  In [read_multiple_files] a rejected path gets the error
    text as its entry and leaves the server as it was. *)
Theorem denied_call_leaves_no_trace
        (s : @Comprehensive.State W) (call : Comprehensive.ToolCall)
        (paths : list string) (p : string) :
  let initialised := snd (Comprehensive.ensureInitialized s) in
  first_denied (cwd (Comprehensive.world initialised))
               (Comprehensive.allowedDirectories initialised) paths = Some p ->
  (path_arguments call = Some paths ->
   Comprehensive.callTool call s
   = (Return {| content := Text ("Error: " ++ access_denied p);
                isError := true |}, initialised))
  /\ (Comprehensive.isInitialized s = true -> initialised = s)
  /\ Comprehensive.allowedDirectories initialised
     = Comprehensive.allowedDirectories s
  /\ (forall results,
         Comprehensive.readMultipleFiles_step results p initialised
         = (Return (JsObject.set_primitive p ("Error: " ++ access_denied p)
                      results),
            initialised)).
Proof.
  intros initialised Hd. split; [|split; [|split]].
  - intros Hp. unfold Comprehensive.callTool, try_catch.
    rewrite run_bind. pose proof (ensureInitialized_returns s) as R.
    subst initialised.
    destruct (Comprehensive.ensureInitialized s) as [[[]|m] s0];
      [|discriminate].
    cbn [snd] in *.
    rewrite (dispatch_denied s0 call paths p Hp Hd). reflexivity.
  - intros Hi. subst initialised.
    rewrite (ensureInitialized_done s Hi). reflexivity.
  - apply ensureInitialized_directories.
  - intros results. unfold Comprehensive.readMultipleFiles_step, try_catch.
    rewrite denied_then; [reflexivity|].
    unfold first_denied in Hd. apply find_some in Hd. destruct Hd as [_ Hd].
    apply negb_true_iff in Hd. exact Hd.
Qed.

End Validation.

Lemma denied_call_leaves_no_trace_witness :
  Comprehensive.callTool
    (Comprehensive.move_file "/tmp/a/x.txt" "/tmp/a/../b/x.txt")
    (Scenario.composite Scenario.alice_graph)
  = (Return {| content :=
                 Text ("Error: " ++ access_denied "/tmp/a/../b/x.txt");
               isError := true |},
     Scenario.composite Scenario.alice_graph)
  /\ snd (Comprehensive.callTool (Comprehensive.read_file "/etc/passwd")
            Scenario.composite_fresh)
     = snd (Comprehensive.ensureInitialized Scenario.composite_fresh).
Proof.
  split.
  - destruct (denied_call_leaves_no_trace
                (Scenario.composite Scenario.alice_graph)
                (Comprehensive.move_file "/tmp/a/x.txt" "/tmp/a/../b/x.txt")
                ["/tmp/a/x.txt"; "/tmp/a/../b/x.txt"] "/tmp/a/../b/x.txt")
      as (C & _); [reflexivity|].
    exact (C eq_refl).
  - destruct (denied_call_leaves_no_trace
                Scenario.composite_fresh
                (Comprehensive.read_file "/etc/passwd")
                ["/etc/passwd"] "/etc/passwd") as (C & _);
      [vm_compute; reflexivity|].
    exact (f_equal snd (C eq_refl)).
Defined.

(** C2 as stated fails on the first call of a session: the handler
    initialises the server before it runs the tool, which records the
    allowed directories in the graph, so the denied call leaves an
    entity behind. *)
Lemma denied_first_call_counterexample :
  fst (Comprehensive.callTool (Comprehensive.read_file "/etc/passwd")
         Scenario.composite_fresh)
  = Return {| content := Text ("Error: " ++ access_denied "/etc/passwd");
              isError := true |}
  /\ Comprehensive.memoryGraph Scenario.composite_fresh = []
  /\ JsObject.keys
       (Comprehensive.memoryGraph
          (snd (Comprehensive.callTool (Comprehensive.read_file "/etc/passwd")
                  Scenario.composite_fresh)))
     = ["directory:/tmp/a"]
  /\ Comprehensive.memoryGraph
       (snd (Comprehensive.callTool (Comprehensive.read_file "/etc/passwd")
               Scenario.composite_fresh))
     <> Comprehensive.memoryGraph Scenario.composite_fresh.
Proof.
  split; [vm_compute; reflexivity|]. split; [reflexivity|].
  split; [vm_compute; reflexivity|].
  vm_compute. discriminate.
Qed.

(** ** The temporal heuristic of the bridge *)

(** The scenario of two reads of different files within a day: the
    second file's entity gets an [accessed_after] relation to the
    first's. *)
Example two_reads_link_second_to_first :
  relations_of "file:/tmp/a/y.txt" (Comprehensive.memoryGraph Scenario.after_xy)
  = [Scenario.edge "file:/tmp/a/y.txt" "file:/tmp/a/x.txt" "accessed_after"]
  /\ relations_of "file:/tmp/a/y.txt"
       (MemoryServer.memoryGraph
          (FilesystemServerWithMemory.memory Scenario.bridge_after_xy))
     = [Scenario.edge "file:/tmp/a/y.txt" "file:/tmp/a/x.txt" "accessed_after"].
Proof. split; vm_compute; reflexivity. Qed.

(** C9 (the code falls short of it).  Read [x.txt], then [y.txt], then
    [x.txt] again, a minute apart.  At the third read both files count
    as recent, the file just touched is [x.txt] and the one touched
    before it is [y.txt]; the relation that the bridge adds goes from
    [x.txt] to [x.txt] itself, and none goes from [x.txt] to [y.txt].
    The list of recent files is in the order of the entities object,
    not in the order of access, so its last but one element is the
    touched file whenever that file had been created first. *)
Theorem accessed_after_points_at_itself :
  map name (Comprehensive.recent_files
              (Scenario.noon + 2 * Scenario.minute)
              (Comprehensive.memoryGraph Scenario.after_xyx))
  = ["file:/tmp/a/x.txt"; "file:/tmp/a/y.txt"]
  /\ relations_of "file:/tmp/a/x.txt"
       (Comprehensive.memoryGraph Scenario.after_xyx)
     = [Scenario.edge "file:/tmp/a/x.txt" "file:/tmp/a/x.txt" "accessed_after"]
  /\ relations_of "file:/tmp/a/x.txt"
       (MemoryServer.memoryGraph
          (FilesystemServerWithMemory.memory Scenario.bridge_after_xyx))
     = [Scenario.edge "file:/tmp/a/x.txt" "file:/tmp/a/x.txt" "accessed_after"]
  /\ ~ In (Scenario.edge "file:/tmp/a/x.txt" "file:/tmp/a/y.txt" "accessed_after")
          (relations_of "file:/tmp/a/x.txt"
             (Comprehensive.memoryGraph Scenario.after_xyx)).
Proof.
  split; [vm_compute; reflexivity|].
  split; [vm_compute; reflexivity|].
  split; [vm_compute; reflexivity|].
  vm_compute. intros [H|[]]. discriminate.
Qed.

(** ** Adding observations *)

Section AddObservations.
Context {W : Type} {host : Host W}.
Import JsObject.

Lemma MemoryServer_addObservations_missing (s : @MemoryServer.State W)
      entityName obs :
  get entityName (MemoryServer.memoryGraph s) = None ->
  MemoryServer.addObservations entityName obs s
  = (Return (text_result ("Error: Entity '" ++ entityName ++ "' not found")), s).
Proof.
  intros H. unfold MemoryServer.addObservations. run_step. rewrite H.
  reflexivity.
Qed.

(** In the memory server the count reported is the number of strings
    that the call added. *)
Lemma MemoryServer_addObservations_present (s : @MemoryServer.State W)
      entityName obs n :
  get entityName (MemoryServer.memoryGraph s) = Some n ->
  NoDup (observations n) ->
  let added :=
    new_Set (filter (fun o => negb (includes (observations n) o)) obs) in
  fst (MemoryServer.addObservations entityName obs s)
  = Return (text_result ("Added " ++ JsString.of_Z (Z.of_nat (length added))
                           ++ " new observations to " ++ entityName))
  /\ MemoryServer.memoryGraph (snd (MemoryServer.addObservations entityName obs s))
     = set entityName
           (set_observations n (observations n ++ added)%list)
           (MemoryServer.memoryGraph s).
Proof.
  intros H Hd added. unfold MemoryServer.addObservations. run_step. rewrite H.
  run_step. rewrite run_bind.
  rewrite new_Set_app by assumption. fold added.
  match goal with
  | |- context [MemoryServer.saveMemoryGraph ?s0] =>
      pose proof (MemoryServer_saveMemoryGraph_graph s0) as [Hg Hr];
      destruct (MemoryServer.saveMemoryGraph s0) as [[[]|m] s1];
      simpl in Hg, Hr; try discriminate
  end.
  unfold ret. simpl. split; [|assumption].
  rewrite length_app.
  match goal with
  | |- context [(Z.of_nat (?a + ?b) - Z.of_nat ?a)%Z] =>
      replace (Z.of_nat (a + b) - Z.of_nat a)%Z with (Z.of_nat b) by lia
  end.
  reflexivity.
Qed.

Lemma Comprehensive_addObservations_missing (s : @Comprehensive.State W)
      entityName obs :
  get entityName (Comprehensive.memoryGraph s) = None ->
  Comprehensive.addObservations entityName obs s
  = (Throw ("Failed to add observations: Entity " ++ entityName
              ++ " does not exist"), s).
Proof.
  intros H. unfold Comprehensive.addObservations, try_catch. run_step.
  rewrite H. reflexivity.
Qed.

(** In the composite server the count reported is the length of the
    request, whatever was added. *)
Lemma Comprehensive_addObservations_present (s : @Comprehensive.State W)
      entityName obs n :
  get entityName (Comprehensive.memoryGraph s) = Some n ->
  fst (Comprehensive.addObservations entityName obs s)
  = Return (text_result ("Successfully added " ++ JsString.of_nat (length obs)
                           ++ " observations to " ++ entityName))
  /\ Comprehensive.memoryGraph
       (snd (Comprehensive.addObservations entityName obs s))
     = set entityName
           (set_observations n
              (observations n
                 ++ filter (fun o => negb (includes (observations n) o)) obs)%list)
           (Comprehensive.memoryGraph s).
Proof.
  intros H. unfold Comprehensive.addObservations, try_catch. run_step.
  rewrite H. run_step. rewrite run_bind.
  match goal with
  | |- context [Comprehensive.saveMemoryGraph ?s0] =>
      destruct (Comprehensive_saveMemoryGraph_spec s0) as [w ->]
  end.
  split; reflexivity.
Qed.

End AddObservations.

(** C7 (the code falls short of it).  Asked to add to [Alice] the one
    observation she already has, the composite server adds nothing and
    reports that it added 1; the memory server, on the same request,
    reports 0. *)
Theorem addObservations_reports_request_length :
  fst (Comprehensive.addObservations "Alice" ["likes tea"]
         (Scenario.composite Scenario.alice_graph))
  = Return (text_result "Successfully added 1 observations to Alice")
  /\ Comprehensive.memoryGraph
       (snd (Comprehensive.addObservations "Alice" ["likes tea"]
               (Scenario.composite Scenario.alice_graph)))
     = Scenario.alice_graph
  /\ fst (MemoryServer.addObservations "Alice" ["likes tea"]
            (Scenario.memory Scenario.alice_graph))
     = Return (text_result "Added 0 new observations to Alice").
Proof. repeat split; vm_compute; reflexivity. Qed.

(** ** The path sandbox *)

Section Sandbox.

Lemma prefix_app_l d x p :
  String.prefix (d ++ x) p = true -> String.prefix d p = true.
Proof.
  revert p. induction d as [|c d IH]; intros p H.
  - destruct p; reflexivity.
  - destruct p as [|c' p]; simpl in *; [discriminate|].
    destruct (Ascii.ascii_dec c c'); [|discriminate]. apply IH. assumption.
Qed.

Lemma lies_within_startsWith dir resolvedPath :
  lies_within dir resolvedPath = true ->
  JsString.startsWith resolvedPath dir = true.
Proof.
  unfold lies_within, JsString.startsWith. intros H.
  apply orb_true_iff in H. destruct H as [H|H].
  - apply String.eqb_eq in H. subst. apply prefix_refl.
  - destruct (ends_with_slash dir); [assumption|].
    eapply prefix_app_l. eassumption.
Qed.

(** One direction of the claim holds: a path that is an allowed
    directory or lies under one is accepted. *)
Lemma within_some_is_allowed dirs resolvedPath :
  within_some dirs resolvedPath = true -> is_allowed dirs resolvedPath = true.
Proof.
  unfold within_some, is_allowed. rewrite !existsb_exists.
  intros (dir & Hin & H). exists dir. split; [assumption|].
  apply lies_within_startsWith. assumption.
Qed.

Lemma push_segment_plain acc seg :
  Forall plain_segment acc ->
  Forall plain_segment (NodePath.push_segment false acc seg).
Proof.
  intros H. unfold NodePath.push_segment.
  destruct (String.eqb seg EmptyString) eqn:E1; simpl; [assumption|].
  destruct (String.eqb seg ".") eqn:E2; simpl; [assumption|].
  destruct (String.eqb seg "..") eqn:E3.
  - destruct acc as [|last rest]; [constructor|].
    destruct (String.eqb last ".."); [assumption|].
    inversion H; assumption.
  - constructor; [|assumption].
    apply String.eqb_neq in E1, E2, E3. repeat split; assumption.
Qed.

Lemma normalize_segments_plain segs :
  Forall plain_segment (NodePath.normalize_segments false segs).
Proof.
  unfold NodePath.normalize_segments.
  assert (H : forall acc, Forall plain_segment acc ->
                          Forall plain_segment
                            (fold_left (NodePath.push_segment false) segs acc)).
  { induction segs as [|seg segs IH]; simpl; intros acc Hacc; [assumption|].
    apply IH. apply push_segment_plain. assumption. }
  apply Forall_rev. apply H. constructor.
Qed.

(** [path.resolve] canonicalises: in a process whose working directory
    is absolute, the resolved path is a slash followed by segments none
    of which is empty, [.] or [..], joined by slashes. *)
Lemma resolve_canonical here p :
  NodePath.isAbsolute here = true ->
  exists segs,
    NodePath.resolve here p = "/" ++ NodePath.join segs
    /\ Forall plain_segment segs.
Proof.
  intros Hh. unfold NodePath.resolve.
  destruct (NodePath.isAbsolute p).
  - eexists. split; [reflexivity|]. apply normalize_segments_plain.
  - destruct (String.eqb here EmptyString) eqn:E.
    + apply String.eqb_eq in E. subst. discriminate.
    + rewrite Hh. eexists. split; [reflexivity|].
      apply normalize_segments_plain.
Qed.

End Sandbox.

(** C1 (the code falls short of it).  With [/tmp/a] the only allowed
    directory, [/tmp/ab/secret.txt] is neither [/tmp/a] nor under it,
    yet [validatePath] returns it, in both servers, because [/tmp/a] is
    a prefix of its text; [read_file] then hands out the content. *)
Theorem validatePath_accepts_sibling_prefix :
  within_some ["/tmp/a"] "/tmp/ab/secret.txt" = false
  /\ FilesystemServer.validatePath "/tmp/ab/secret.txt" Scenario.plain
     = (Return "/tmp/ab/secret.txt", Scenario.plain)
  /\ Comprehensive.validatePath "/tmp/ab/secret.txt"
       (Scenario.composite JsObject.empty)
     = (Return "/tmp/ab/secret.txt", Scenario.composite JsObject.empty)
  /\ fst (FilesystemServer.readFile "/tmp/ab/secret.txt" Scenario.plain)
     = Return (text_result "s3cret").
Proof. repeat split; vm_compute; reflexivity. Qed.

(** Traversal out of an allowed root is caught, since the path is
    resolved first. *)
Example traversal_is_denied :
  FilesystemServer.validatePath "/tmp/a/../../etc/passwd" Scenario.plain
  = (Throw (access_denied "/tmp/a/../../etc/passwd"), Scenario.plain)
  /\ FilesystemServer.validatePath "/tmp/a/./sub/../x.txt" Scenario.plain
     = (Return "/tmp/a/x.txt", Scenario.plain).
Proof. split; vm_compute; reflexivity. Qed.

(** ** Editing files *)

Section Edits.

Lemma getSubstitution_plain matched before after template :
  has_dollar template = false ->
  JsString.getSubstitution matched before after template = template.
Proof.
  induction template as [|c t IH]; simpl; intros H; [reflexivity|].
  apply orb_false_iff in H. destruct H as [Hc Ht].
  specialize (IH Ht).
  destruct c as [[] [] [] [] [] [] [] []]; try discriminate;
    try (f_equal; exact IH).
Qed.

(** A new text without a dollar sign is put in as it is. *)
Lemma replace_plain s pat template :
  has_dollar template = false ->
  JsString.replace s pat template = JsString.replace_literal s pat template.
Proof.
  intros H. unfold JsString.replace, JsString.replace_literal.
  destruct (JsString.indexOf s pat); [|reflexivity].
  rewrite getSubstitution_plain by assumption. reflexivity.
Qed.

Lemma apply_edits_plain edits : forall modifiedContent,
  Forall (fun edit => has_dollar (newText edit) = false) edits ->
  apply_edits edits modifiedContent
  = apply_edits_literally edits modifiedContent.
Proof.
  induction edits as [|edit rest IH]; simpl; intros c H; [reflexivity|].
  inversion H as [|? ? He Hr]; subst.
  destruct (JsString.includes c (oldText edit)); [|reflexivity].
  rewrite replace_plain by assumption. apply IH. assumption.
Qed.

(** The loop stops at the first edit whose old text the content, as
    modified so far, does not include. *)
Lemma apply_edits_not_found edits : forall modifiedContent m,
  apply_edits edits modifiedContent = inr m ->
  exists done edit rest current,
    edits = (done ++ edit :: rest)%list
    /\ apply_edits done modifiedContent = inl current
    /\ JsString.includes current (oldText edit) = false
    /\ m = "Text to replace not found: " ++ quote ++ oldText edit ++ quote.
Proof.
  induction edits as [|edit rest IH]; simpl; intros c m H; [discriminate|].
  destruct (JsString.includes c (oldText edit)) eqn:E.
  - destruct (IH _ _ H) as (done & e & r & cur & -> & Hd & Hi & ->).
    exists (edit :: done), e, r, cur. simpl. rewrite E. auto.
  - injection H as <-. exists [], edit, rest, c. auto.
Qed.

Context {W : Type} {host : Host W}.

(** A dry run, whatever its outcome, leaves the server and the disk as
    they were; when the path is allowed, the file readable and every
    old text found, it reports the two lengths. *)
Lemma composite_editFile_dry_run filePath edits (s : @Comprehensive.State W) :
  Comprehensive.editFile filePath edits true s
  = (if is_allowed (Comprehensive.allowedDirectories s)
                   (NodePath.resolve (cwd (Comprehensive.world s)) filePath)
     then match fs_readFile
                  (NodePath.resolve (cwd (Comprehensive.world s)) filePath)
                  (Comprehensive.world s) with
          | inl originalContent =>
              match apply_edits edits originalContent with
              | inl modifiedContent =>
                  Return (text_result
                            (dry_run_text originalContent modifiedContent
                                          filePath))
              | inr m => Throw ("Failed to edit file: " ++ m)
              end
          | inr m => Throw ("Failed to edit file: " ++ m)
          end
     else Throw (access_denied filePath),
     s).
Proof.
  unfold Comprehensive.editFile.
  rewrite run_bind, composite_validatePath_run.
  destruct (is_allowed _ _); [|reflexivity].
  unfold try_catch. rewrite run_bind. unfold Comprehensive.host_ask.
  destruct (fs_readFile _ _) as [originalContent|m]; [|reflexivity].
  destruct (apply_edits edits originalContent); reflexivity.
Qed.

Lemma plain_editFile_dry_run filePath edits (s : @FilesystemServer.State W) :
  FilesystemServer.editFile filePath edits true s
  = (if is_allowed (FilesystemServer.allowedDirectories s)
                   (NodePath.resolve (cwd (FilesystemServer.world s)) filePath)
     then match fs_readFile
                  (NodePath.resolve (cwd (FilesystemServer.world s)) filePath)
                  (FilesystemServer.world s) with
          | inl originalContent =>
              match apply_edits edits originalContent with
              | inl modifiedContent =>
                  Return (text_result
                            (dry_run_text originalContent modifiedContent
                                          filePath))
              | inr m => Throw ("Failed to edit file: " ++ m)
              end
          | inr m => Throw ("Failed to edit file: " ++ m)
          end
     else Throw (access_denied filePath),
     s).
Proof.
  unfold FilesystemServer.editFile.
  rewrite run_bind, plain_validatePath_run.
  destruct (is_allowed _ _); [|reflexivity].
  unfold try_catch. rewrite run_bind. unfold FilesystemServer.host_ask.
  destruct (fs_readFile _ _) as [originalContent|m]; [|reflexivity].
  destruct (apply_edits edits originalContent); reflexivity.
Qed.

(** An old text that is not found makes the call fail before anything
    is written, dry run or not. *)
Lemma editFile_text_not_found filePath edits dryRun
      (sP : @FilesystemServer.State W) (sC : @Comprehensive.State W)
      originalContent m :
  apply_edits edits originalContent = inr m ->
  (is_allowed (FilesystemServer.allowedDirectories sP)
              (NodePath.resolve (cwd (FilesystemServer.world sP)) filePath)
   = true ->
   fs_readFile (NodePath.resolve (cwd (FilesystemServer.world sP)) filePath)
               (FilesystemServer.world sP) = inl originalContent ->
   FilesystemServer.editFile filePath edits dryRun sP
   = (Throw ("Failed to edit file: " ++ m), sP))
  /\ (is_allowed (Comprehensive.allowedDirectories sC)
                 (NodePath.resolve (cwd (Comprehensive.world sC)) filePath)
      = true ->
      fs_readFile (NodePath.resolve (cwd (Comprehensive.world sC)) filePath)
                  (Comprehensive.world sC) = inl originalContent ->
      Comprehensive.editFile filePath edits dryRun sC
      = (Throw ("Failed to edit file: " ++ m), sC)).
Proof.
  intros He. split; intros Ha Hr.
  - unfold FilesystemServer.editFile.
    rewrite run_bind, plain_validatePath_run, Ha.
    unfold try_catch. rewrite run_bind. unfold FilesystemServer.host_ask.
    rewrite Hr, He. reflexivity.
  - unfold Comprehensive.editFile.
    rewrite run_bind, composite_validatePath_run, Ha.
    unfold try_catch. rewrite run_bind. unfold Comprehensive.host_ask.
    rewrite Hr, He. reflexivity.
Qed.

End Edits.

(** C8 (the code falls short of it).  The edit that replaces [0] by the
    text [$$PPID] in a file holding [PID = 0] should leave
    [PID = $$PPID]; [String.prototype.replace] reads [$$] in its second
    argument as an escaped dollar sign, so both servers write
    [PID = $PPID], and a dry run reports 11 characters where the literal
    result has 12.  The dry run itself leaves the disk untouched. *)
Theorem editFile_expands_dollar_patterns :
  apply_edits_literally Scenario.makefile_edit "PID = 0" = inl "PID = $$PPID"
  /\ JsObject.get "/tmp/a/Makefile"
       (SimpleHost.files
          (FilesystemServer.world
             (snd (FilesystemServer.editFile "/tmp/a/Makefile"
                     Scenario.makefile_edit false Scenario.plain))))
     = Some "PID = $PPID"
  /\ JsObject.get "/tmp/a/Makefile"
       (SimpleHost.files
          (Comprehensive.world
             (snd (Comprehensive.editFile "/tmp/a/Makefile"
                     Scenario.makefile_edit false
                     (Scenario.composite JsObject.empty)))))
     = Some "PID = $PPID"
  /\ FilesystemServer.editFile "/tmp/a/Makefile" Scenario.makefile_edit true
                               Scenario.plain
     = (Return (text_result
                  (dry_run_text "PID = 0" "PID = $PPID" "/tmp/a/Makefile")),
        Scenario.plain).
Proof. repeat split; vm_compute; reflexivity. Qed.

(** ** No relation points at a missing entity *)

Section NoDangling.
Import JsObject JsObjectFacts.

Lemma has_set_monotone (k x : string) (v : MemoryNode) (g : MemoryGraph) :
  has x g = true \/ x = k -> has x (set k v g) = true.
Proof.
  intros H. apply has_true. rewrite get_set.
  destruct (String.eqb k x) eqn:E; [eauto|].
  destruct H as [H| ->].
  - apply has_true in H. exact H.
  - rewrite String.eqb_refl in E. discriminate.
Qed.

(** Assigning an entity whose relations all point at entities keeps the
    graph free of dangling relations. *)
Lemma no_dangling_set k v g :
  no_dangling g ->
  (forall r, In r (relations v) -> has (to r) g = true \/ to r = k) ->
  no_dangling (set k v g).
Proof.
  intros Hg Hv nm n r Hn Hr. rewrite get_set in Hn.
  apply has_set_monotone.
  destruct (String.eqb k nm) eqn:E.
  - injection Hn as <-. apply Hv. assumption.
  - left. apply (Hg nm n r); assumption.
Qed.

Lemma no_dangling_same_relations k v n g :
  no_dangling g -> get k g = Some n -> incl (relations v) (relations n) ->
  no_dangling (set k v g).
Proof.
  intros Hg Hn Hi. apply no_dangling_set; [assumption|].
  intros r Hr. left. apply (Hg k n r); auto.
Qed.

Lemma no_dangling_empty : no_dangling empty.
Proof. intros nm n r H. discriminate. Qed.

Lemma no_dangling_ensure_entity nm g :
  no_dangling g -> no_dangling (MemoryServer.ensure_entity nm g).
Proof.
  intros Hg. unfold MemoryServer.ensure_entity.
  destruct (has nm g); [assumption|].
  apply no_dangling_set; [assumption|]. intros r [].
Qed.

Lemma has_ensure_entity nm g : has nm (MemoryServer.ensure_entity nm g) = true.
Proof.
  apply has_true. destruct (ensure_entity_get_same nm g) as (n & Hn & _). eauto.
Qed.

Lemma has_ensure_entity_monotone nm x g :
  has x g = true -> has x (MemoryServer.ensure_entity nm g) = true.
Proof.
  intros H. unfold MemoryServer.ensure_entity.
  destruct (has nm g); [assumption|]. apply has_set_monotone. auto.
Qed.

Lemma no_dangling_attach relation g :
  no_dangling g ->
  let g' := MemoryServer.ensure_entity (to relation)
              (MemoryServer.ensure_entity (from relation) g) in
  no_dangling g'
  /\ forall sourceEntity r0,
      to r0 = to relation ->
      get (from relation) g' = Some sourceEntity ->
      no_dangling
        (set (from relation)
             (set_relations sourceEntity (relations sourceEntity ++ [r0])%list)
             g').
Proof.
  intros Hg g'.
  assert (Hg' : no_dangling g')
    by (unfold g'; repeat apply no_dangling_ensure_entity; assumption).
  split; [assumption|].
  intros sourceEntity r0 Hr0 Hs. apply no_dangling_set; [assumption|].
  simpl. intros r Hr. apply in_app_or in Hr. destruct Hr as [Hr|[<-|[]]].
  - left. apply (Hg' _ _ _ Hs Hr).
  - left. rewrite Hr0. apply has_ensure_entity.
Qed.

Lemma MemoryServer_createEntities_step_no_dangling g e :
  no_dangling g -> no_dangling (fst (MemoryServer.createEntities_step g e)).
Proof.
  intros Hg. unfold MemoryServer.createEntities_step.
  destruct (get (entity_name e) g) as [existing|] eqn:E; simpl.
  - eapply no_dangling_same_relations; eauto. simpl. apply incl_refl.
  - apply no_dangling_set; [assumption|]. intros r [].
Qed.

Lemma MemoryServer_createRelations_step_no_dangling g relation :
  no_dangling g -> no_dangling (fst (MemoryServer.createRelations_step g relation)).
Proof.
  intros Hg. unfold MemoryServer.createRelations_step.
  destruct (no_dangling_attach relation g Hg) as [Hg' Hset].
  cbv zeta in Hg', Hset.
  destruct (get (from relation) _) as [sourceEntity|] eqn:Hs; cbn [fst];
    [|assumption].
  destruct (existsb _ _); cbn [fst]; [assumption|].
  apply Hset; reflexivity.
Qed.

Lemma MemoryServer_deleteRelations_step_no_dangling g relation :
  no_dangling g -> no_dangling (fst (MemoryServer.deleteRelations_step g relation)).
Proof.
  intros Hg. unfold MemoryServer.deleteRelations_step.
  destruct (get (from relation) g) as [entity|] eqn:E; simpl; [|assumption].
  eapply no_dangling_same_relations; eauto. simpl.
  intros r Hr. apply filter_In in Hr. tauto.
Qed.

Lemma Comprehensive_createEntities_step_no_dangling g e :
  no_dangling g -> no_dangling (Comprehensive.createEntities_step g e).
Proof.
  intros Hg. unfold Comprehensive.createEntities_step.
  destruct (get (entity_name e) g) as [existing|] eqn:E.
  - destruct (entity_observations e); [|assumption].
    eapply no_dangling_same_relations; eauto. simpl. apply incl_refl.
  - apply no_dangling_set; [assumption|]. intros r [].
Qed.

Lemma Comprehensive_createRelations_step_no_dangling g relation :
  no_dangling g -> no_dangling (Comprehensive.createRelations_step g relation).
Proof.
  intros Hg. unfold Comprehensive.createRelations_step.
  change Comprehensive.ensure_entity with MemoryServer.ensure_entity.
  destruct (no_dangling_attach relation g Hg) as [Hg' Hset].
  cbv zeta in Hg', Hset.
  destruct (get (from relation) _) as [fromEntity|] eqn:Hs; [|assumption].
  destruct (existsb _ _); [assumption|].
  apply Hset; reflexivity.
Qed.

Lemma Comprehensive_deleteRelations_step_no_dangling g relation :
  no_dangling g -> no_dangling (Comprehensive.deleteRelations_step g relation).
Proof.
  intros Hg. unfold Comprehensive.deleteRelations_step.
  destruct (get (from relation) g) as [entity|] eqn:E; [|assumption].
  eapply no_dangling_same_relations; eauto. simpl.
  intros r Hr. apply filter_In in Hr. tauto.
Qed.

Lemma Comprehensive_deleteEntities_step_no_dangling g target :
  no_dangling g -> no_dangling (Comprehensive.deleteEntities_step g target).
Proof.
  intros Hg. apply (delete_and_strip_spec target g). assumption.
Qed.

Lemma fold_left_no_dangling {A} (step : MemoryGraph -> A -> MemoryGraph) l :
  (forall g a, no_dangling g -> no_dangling (step g a)) ->
  forall g, no_dangling g -> no_dangling (fold_left step l g).
Proof.
  intros Hs. induction l as [|a l IH]; simpl; intros g Hg; auto.
Qed.

Lemma MemoryServer_createEntities_loop_no_dangling l g :
  no_dangling g -> no_dangling (fst (MemoryServer.createEntities_loop l g)).
Proof.
  revert g. induction l as [|e l IH]; simpl; intros g Hg; [assumption|].
  pose proof (MemoryServer_createEntities_step_no_dangling g e Hg) as H1.
  destruct (MemoryServer.createEntities_step g e) as [g1 r]; simpl in *.
  pose proof (IH g1 H1) as H2.
  destruct (MemoryServer.createEntities_loop l g1); assumption.
Qed.

Lemma MemoryServer_createRelations_loop_no_dangling l g :
  no_dangling g -> no_dangling (fst (MemoryServer.createRelations_loop l g)).
Proof.
  revert g. induction l as [|e l IH]; simpl; intros g Hg; [assumption|].
  pose proof (MemoryServer_createRelations_step_no_dangling g e Hg) as H1.
  destruct (MemoryServer.createRelations_step g e) as [g1 r]; simpl in *.
  pose proof (IH g1 H1) as H2.
  destruct (MemoryServer.createRelations_loop l g1); assumption.
Qed.

Lemma MemoryServer_deleteEntities_loop_no_dangling l g :
  no_dangling g -> no_dangling (fst (MemoryServer.deleteEntities_loop l g)).
Proof.
  revert g. induction l as [|e l IH]; simpl; intros g Hg; [assumption|].
  pose proof (MemoryServer_deleteEntities_step_spec g e Hg) as (_ & _ & H1).
  destruct (MemoryServer.deleteEntities_step g e) as [g1 r]; simpl in *.
  pose proof (IH g1 H1) as H2.
  destruct (MemoryServer.deleteEntities_loop l g1); assumption.
Qed.

Lemma MemoryServer_deleteRelations_loop_no_dangling l g :
  no_dangling g -> no_dangling (fst (MemoryServer.deleteRelations_loop l g)).
Proof.
  revert g. induction l as [|e l IH]; simpl; intros g Hg; [assumption|].
  pose proof (MemoryServer_deleteRelations_step_no_dangling g e Hg) as H1.
  destruct (MemoryServer.deleteRelations_step g e) as [g1 r]; simpl in *.
  pose proof (IH g1 H1) as H2.
  destruct (MemoryServer.deleteRelations_loop l g1); assumption.
Qed.

End NoDangling.

(** ** Invariants of a running server *)

Section Preserves.
Context {St : Type} (P : St -> Prop).

Lemma preserves_ret {A} (a : A) : preserves P (ret a).
Proof. intros s H. exact H. Qed.

Lemma preserves_throw {A} m : preserves P (@throw St A m).
Proof. intros s H. exact H. Qed.

Lemma preserves_gets {A} (g : St -> A) : preserves P (gets g).
Proof. intros s H. exact H. Qed.

Lemma preserves_modify (g : St -> St) :
  (forall s, P s -> P (g s)) -> preserves P (modify g).
Proof. intros H s. apply H. Qed.

Lemma preserves_bind {A B} (c : M St A) (k : A -> M St B) :
  preserves P c -> (forall a, preserves P (k a)) -> preserves P (bind c k).
Proof.
  intros Hc Hk s Hs. unfold bind. specialize (Hc s Hs).
  destruct (c s) as [[a|m] s']; simpl in *; [|assumption].
  apply Hk. assumption.
Qed.

Lemma preserves_try_catch {A} (c : M St A) (h : string -> M St A) :
  preserves P c -> (forall m, preserves P (h m)) -> preserves P (try_catch c h).
Proof.
  intros Hc Hh s Hs. unfold try_catch. specialize (Hc s Hs).
  destruct (c s) as [[a|m] s']; simpl in *; [assumption|].
  apply Hh. assumption.
Qed.

Lemma preserves_state_dependent {A} (c : St -> M St A) :
  (forall s0, preserves P (c s0)) -> preserves P (fun s => c s s).
Proof. intros H s. apply H. Qed.

End Preserves.

Ltac preserves_step :=
  first
    [ apply preserves_ret | apply preserves_throw | apply preserves_gets
    | apply preserves_bind; [|intros ?]
    | apply preserves_try_catch; [|intros ?]
    | match goal with
      | |- preserves _ (if ?b then _ else _) => destruct b
      | |- preserves _ (match ?x with _ => _ end) => destruct x
      end ].

Section CompositeInvariant.
Context {W : Type} {host : Host W}.
Import JsObject JsObjectFacts.

Lemma graph_sound_set_world
      (s : @Comprehensive.State W) w :
  graph_sound s -> graph_sound (Comprehensive.set_world s w).
Proof. intros H. exact H. Qed.

Lemma graph_sound_set_directories
      (s : @Comprehensive.State W) dirs :
  graph_sound s -> graph_sound (Comprehensive.set_directories s dirs).
Proof. intros H. exact H. Qed.

Lemma graph_sound_set_graph
      (s : @Comprehensive.State W) g :
  graph_sound s -> no_dangling g -> graph_sound (Comprehensive.set_graph s g).
Proof. intros [H _] Hg. split; assumption. Qed.

Lemma sound_host_do op : preserves (@graph_sound W) (Comprehensive.host_do op).
Proof.
  intros s H. unfold Comprehensive.host_do.
  destruct (op (Comprehensive.world s)) as [[m|] w]; exact H.
Qed.

Lemma sound_host_ask {A} (q : W -> A + string) :
  preserves (@graph_sound W) (Comprehensive.host_ask q).
Proof.
  intros s H. unfold Comprehensive.host_ask.
  destruct (q (Comprehensive.world s)); exact H.
Qed.

Lemma sound_saveMemoryGraph : preserves (@graph_sound W) Comprehensive.saveMemoryGraph.
Proof.
  intros s H. destruct (Comprehensive_saveMemoryGraph_spec s) as [w ->].
  exact H.
Qed.

Lemma sound_saveConfiguration :
  preserves (@graph_sound W) Comprehensive.saveConfiguration.
Proof.
  unfold Comprehensive.saveConfiguration.
  apply preserves_try_catch; [|intros; apply preserves_throw].
  apply (preserves_state_dependent (@graph_sound W)
           (fun s0 => Comprehensive.host_do
                        (store_config (Comprehensive.configFilePath s0)
                           (Comprehensive.allowedDirectories s0)
                           (JsDate.toISOString
                              (date_now (Comprehensive.world s0)))))).
  intros s0. apply sound_host_do.
Qed.

Lemma sound_modify_graph (h : MemoryGraph -> MemoryGraph) :
  (forall g, no_dangling g -> no_dangling (h g)) ->
  preserves (@graph_sound W)
    (modify (fun s => Comprehensive.set_graph s (h (Comprehensive.memoryGraph s)))).
Proof.
  intros Hh s H. apply graph_sound_set_graph; [assumption|].
  apply Hh. apply H.
Qed.

Lemma sound_modify_directories (h : @Comprehensive.State W -> list string) :
  preserves (@graph_sound W)
    (modify (fun s => Comprehensive.set_directories s (h s))).
Proof. intros s H. exact H. Qed.

Lemma sound_createEntitiesInternal entities :
  preserves (@graph_sound W) (Comprehensive.createEntitiesInternal entities).
Proof.
  unfold Comprehensive.createEntitiesInternal.
  apply preserves_bind; [|intros; apply sound_saveMemoryGraph].
  apply (sound_modify_graph (Comprehensive.createEntities_loop entities)).
  apply fold_left_no_dangling.
  apply Comprehensive_createEntities_step_no_dangling.
Qed.

Lemma sound_createRelationsInternal rels :
  preserves (@graph_sound W) (Comprehensive.createRelationsInternal rels).
Proof.
  unfold Comprehensive.createRelationsInternal.
  apply preserves_bind; [|intros; apply sound_saveMemoryGraph].
  apply (sound_modify_graph (Comprehensive.createRelations_loop rels)).
  apply fold_left_no_dangling.
  apply Comprehensive_createRelations_step_no_dangling.
Qed.

Lemma initialized_blind :
  blind_to_world_and_graph (@Comprehensive.isInitialized W).
Proof. split; reflexivity. Qed.

Lemma sound_addObservations entityName obs :
  preserves (@graph_sound W) (Comprehensive.addObservations entityName obs).
Proof.
  intros s [Hi Hg]. split.
  - rewrite (composite_addObservations_keeps Comprehensive.isInitialized
               entityName obs initialized_blind s). assumption.
  - destruct (get entityName (Comprehensive.memoryGraph s)) as [n|] eqn:E.
    + destruct (Comprehensive_addObservations_present s entityName obs n E)
        as [_ ->].
      eapply no_dangling_same_relations; eauto. simpl. apply incl_refl.
    + rewrite (Comprehensive_addObservations_missing s entityName obs E).
      assumption.
Qed.

Lemma sound_deleteObservations entityName obs :
  preserves (@graph_sound W) (Comprehensive.deleteObservations entityName obs).
Proof.
  intros s [Hi Hg]. unfold Comprehensive.deleteObservations, try_catch.
  run_step.
  destruct (get entityName (Comprehensive.memoryGraph s)) as [n|] eqn:E;
    [|split; assumption].
  run_step. rewrite run_bind.
  match goal with
  | |- context [Comprehensive.saveMemoryGraph ?s0] =>
      destruct (Comprehensive_saveMemoryGraph_spec s0) as [w ->]
  end.
  split; [assumption|]. simpl.
  eapply no_dangling_same_relations; eauto. simpl. apply incl_refl.
Qed.

End CompositeInvariant.

Ltac composite_sound :=
  repeat first
    [ apply sound_host_ask
    | apply sound_host_do
    | apply sound_saveMemoryGraph
    | apply sound_saveConfiguration
    | apply sound_createEntitiesInternal
    | apply sound_createRelationsInternal
    | apply sound_addObservations
    | apply sound_deleteObservations
    | apply sound_modify_directories
    | preserves_step ].

Section CompositeTools.
Context {W : Type} {host : Host W}.

Lemma sound_rememberFileAccess filePath operation metadata :
  preserves (@graph_sound W)
            (Comprehensive.rememberFileAccess filePath operation metadata).
Proof.
  unfold Comprehensive.rememberFileAccess, Comprehensive.now. composite_sound.
Qed.

Lemma sound_validatePath targetPath :
  preserves (@graph_sound W) (Comprehensive.validatePath targetPath).
Proof.
  unfold Comprehensive.validatePath, Comprehensive.resolve. composite_sound.
Qed.

Lemma directories_validatePath targetPath :
  keeps (@Comprehensive.allowedDirectories W)
        (Comprehensive.validatePath targetPath).
Proof.
  unfold Comprehensive.validatePath, Comprehensive.resolve. composite_keeps.
Qed.

Lemma sound_readMultipleFiles_loop filePaths : forall results,
  preserves (@graph_sound W)
            (Comprehensive.readMultipleFiles_loop filePaths results).
Proof.
  induction filePaths as [|p l IH]; simpl; intros results.
  - apply preserves_ret.
  - apply preserves_bind; [|intros; apply IH].
    unfold Comprehensive.readMultipleFiles_step.
    apply preserves_try_catch; [|intros; apply preserves_ret].
    apply preserves_bind; [apply sound_validatePath|intros].
    apply preserves_bind; [apply sound_host_ask|intros].
    apply preserves_bind; [apply sound_rememberFileAccess|intros].
    apply preserves_ret.
Qed.

Lemma directories_readMultipleFiles_loop filePaths : forall results,
  keeps Comprehensive.allowedDirectories
        (Comprehensive.readMultipleFiles_loop filePaths results).
Proof.
  pose proof (@directories_blind W) as B.
  induction filePaths as [|p l IH]; simpl; intros results.
  - apply keeps_ret.
  - apply keeps_bind; [|intros; apply IH].
    unfold Comprehensive.readMultipleFiles_step.
    apply keeps_try_catch; [|intros; apply keeps_ret].
    apply keeps_bind; [apply directories_validatePath|intros].
    apply keeps_bind; [apply composite_host_ask_keeps|intros].
    apply keeps_bind;
      [apply composite_rememberFileAccess_keeps; assumption|intros].
    apply keeps_ret.
Qed.

Lemma sound_dispatch call :
  preserves (@graph_sound W) (Comprehensive.dispatch call).
Proof.
  destruct call; cbn [Comprehensive.dispatch].
  - unfold Comprehensive.readFile.
    apply preserves_bind; [apply sound_validatePath|intros].
    apply preserves_try_catch; [|intros; apply preserves_throw].
    apply preserves_bind; [apply sound_host_ask|intros].
    apply preserves_bind; [apply sound_rememberFileAccess|intros].
    apply preserves_ret.
  - unfold Comprehensive.readMultipleFiles.
    apply preserves_bind; [apply sound_readMultipleFiles_loop|intros].
    apply preserves_ret.
  - unfold Comprehensive.writeFile.
    apply preserves_bind; [apply sound_validatePath|intros].
    apply preserves_try_catch; [|intros; apply preserves_throw].
    repeat (apply preserves_bind;
            [first [apply sound_host_do|apply sound_rememberFileAccess]|intros]).
    apply preserves_ret.
  - unfold Comprehensive.editFile.
    apply preserves_bind; [apply sound_validatePath|intros].
    apply preserves_try_catch; [|intros; apply preserves_throw].
    apply preserves_bind; [apply sound_host_ask|intros].
    destruct (apply_edits _ _); [|apply preserves_throw].
    destruct dryRun; [apply preserves_ret|].
    repeat (apply preserves_bind;
            [first [apply sound_host_do|apply sound_rememberFileAccess]|intros]).
    apply preserves_ret.
  - unfold Comprehensive.createDirectory.
    apply preserves_bind; [apply sound_validatePath|intros].
    apply preserves_try_catch; [|intros; apply preserves_throw].
    repeat (apply preserves_bind;
            [first [apply sound_host_do|apply sound_rememberFileAccess]|intros]).
    apply preserves_ret.
  - unfold Comprehensive.listDirectory.
    apply preserves_bind; [apply sound_validatePath|intros].
    apply preserves_try_catch; [|intros; apply preserves_throw].
    repeat (apply preserves_bind;
            [first [apply sound_host_ask|apply sound_rememberFileAccess]|intros]).
    apply preserves_ret.
  - unfold Comprehensive.listDirectoryWithSizes.
    apply preserves_bind; [apply sound_validatePath|intros].
    apply preserves_try_catch; [|intros; apply preserves_throw].
    repeat (apply preserves_bind;
            [first [apply sound_host_ask|apply sound_rememberFileAccess]|intros]).
    apply preserves_ret.
  - unfold Comprehensive.directoryTree.
    apply preserves_bind; [apply sound_validatePath|intros].
    apply preserves_try_catch; [|intros; apply preserves_throw].
    repeat (apply preserves_bind;
            [first [apply sound_host_ask|apply sound_rememberFileAccess]|intros]).
    apply preserves_ret.
  - unfold Comprehensive.moveFile.
    apply preserves_bind; [apply sound_validatePath|intros].
    apply preserves_bind; [apply sound_validatePath|intros].
    apply preserves_try_catch; [|intros; apply preserves_throw].
    repeat (apply preserves_bind;
            [first [apply sound_host_do|apply sound_rememberFileAccess]|intros]).
    apply preserves_ret.
  - unfold Comprehensive.searchFiles.
    apply preserves_bind; [apply sound_validatePath|intros].
    apply preserves_try_catch; [|intros; apply preserves_throw].
    repeat (apply preserves_bind;
            [first [apply sound_host_ask|apply sound_rememberFileAccess]|intros]).
    apply preserves_ret.
  - unfold Comprehensive.getFileInfo.
    apply preserves_bind; [apply sound_validatePath|intros].
    apply preserves_try_catch; [|intros; apply preserves_throw].
    repeat (apply preserves_bind;
            [first [apply sound_host_ask|apply sound_rememberFileAccess]|intros]).
    apply preserves_ret.
  - unfold Comprehensive.listAllowedDirectories. composite_sound.
  - unfold Comprehensive.addAllowedDirectory, Comprehensive.check_directory,
      Comprehensive.resolve, Comprehensive.now.
    composite_sound.
  - unfold Comprehensive.removeAllowedDirectory, Comprehensive.resolve,
      Comprehensive.now.
    composite_sound.
  - unfold Comprehensive.createEntities. composite_sound.
  - unfold Comprehensive.createRelations. composite_sound.
  - apply sound_addObservations.
  - unfold Comprehensive.searchNodes. composite_sound.
  - unfold Comprehensive.readGraph. composite_sound.
  - unfold Comprehensive.openNodes. composite_sound.
  - unfold Comprehensive.deleteEntities.
    apply preserves_bind; [|intros; composite_sound].
    apply (sound_modify_graph (Comprehensive.deleteEntities_loop entityNames)).
    apply fold_left_no_dangling.
    apply Comprehensive_deleteEntities_step_no_dangling.
  - apply sound_deleteObservations.
  - unfold Comprehensive.deleteRelations.
    apply preserves_bind; [|intros; composite_sound].
    apply (sound_modify_graph
             (fold_left Comprehensive.deleteRelations_step rels)).
    apply fold_left_no_dangling.
    apply Comprehensive_deleteRelations_step_no_dangling.
  - apply preserves_throw.
Qed.

End CompositeTools.

Ltac composite_keeps_directories :=
  repeat first
    [ apply directories_validatePath
    | apply directories_readMultipleFiles_loop
    | apply composite_rememberFileAccess_keeps; assumption
    | apply composite_addObservations_keeps; assumption
    | apply composite_host_ask_keeps
    | apply composite_host_do_keeps; assumption
    | apply composite_saveMemoryGraph_keeps; assumption
    | apply composite_createEntitiesInternal_keeps; assumption
    | apply composite_createRelationsInternal_keeps; assumption
    | apply composite_modify_graph_keeps; assumption
    | keeps_step ].

Section CompositeRun.
Context {W : Type} {host : Host W}.

Lemma directories_dispatch call (s : @Comprehensive.State W) :
  Comprehensive.allowedDirectories s <> [] ->
  Comprehensive.allowedDirectories (snd (Comprehensive.dispatch call s)) <> [].
Proof.
  intros H.
  assert (K : (forall p, call <> Comprehensive.add_allowed_directory p) ->
              (forall p, call <> Comprehensive.remove_allowed_directory p) ->
              keeps Comprehensive.allowedDirectories
                    (Comprehensive.dispatch call)).
  { pose proof (@directories_blind W) as B. intros Ha Hr.
    destruct call; cbn [Comprehensive.dispatch];
      try (exfalso; eapply Ha; reflexivity);
      try (exfalso; eapply Hr; reflexivity);
      unfold Comprehensive.readFile, Comprehensive.readMultipleFiles,
        Comprehensive.writeFile, Comprehensive.editFile,
        Comprehensive.createDirectory, Comprehensive.listDirectory,
        Comprehensive.listDirectoryWithSizes, Comprehensive.directoryTree,
        Comprehensive.moveFile, Comprehensive.searchFiles,
        Comprehensive.getFileInfo, Comprehensive.listAllowedDirectories,
        Comprehensive.createEntities, Comprehensive.createRelations,
        Comprehensive.searchNodes, Comprehensive.readGraph,
        Comprehensive.openNodes, Comprehensive.deleteEntities,
        Comprehensive.deleteObservations, Comprehensive.deleteRelations;
      composite_keeps_directories. }
  destruct call;
    try (rewrite K; [assumption|intros ? ?; discriminate
                                |intros ? ?; discriminate]).
  - cbn [Comprehensive.dispatch].
    destruct (composite_addAllowedDirectory_directories path s) as [-> | ->];
      [assumption|].
    intros E. apply app_eq_nil in E. destruct E; discriminate.
  - cbn [Comprehensive.dispatch].
    rewrite composite_removeAllowedDirectory_directories.
    apply after_remove_nonempty. assumption.
Qed.

(** The composite server, once initialised, keeps at least one allowed
    directory and a graph without dangling relations through every tool
    call, whatever the world does in between. *)
Theorem composite_server_invariants
        (events : list (Event Comprehensive.ToolCall))
        (s : @Comprehensive.State W) :
  graph_sound s -> Comprehensive.allowedDirectories s <> [] ->
  graph_sound (composite_run events s)
  /\ Comprehensive.allowedDirectories (composite_run events s) <> [].
Proof.
  unfold composite_run. revert s.
  induction events as [|e events IH]; simpl; intros s Hs Hd; [auto|].
  apply IH; destruct e as [call|f]; simpl; try assumption.
  - unfold Comprehensive.callTool.
    apply (preserves_try_catch (@graph_sound W)); [|intros; apply preserves_ret|].
    + apply preserves_bind; [|intros; apply sound_dispatch].
      intros s0 H0. rewrite ensureInitialized_done; [assumption|apply H0].
    + assumption.
  - unfold Comprehensive.callTool, try_catch.
    rewrite run_bind, (ensureInitialized_done s (proj1 Hs)).
    pose proof (directories_dispatch call s Hd) as H.
    destruct (Comprehensive.dispatch call s) as [[r|m] s']; exact H.
Qed.

End CompositeRun.

Section MemoryRun.
Context {W : Type} {host : Host W}.
Import JsObject JsObjectFacts.

Lemma memory_sound_saveMemoryGraph :
  preserves (@memory_sound W) MemoryServer.saveMemoryGraph.
Proof.
  intros s H. unfold MemoryServer.saveMemoryGraph.
  destruct (fs_mkdir _ _) as [[m|] w]; simpl; [exact H|].
  destruct (store_graph _ _ _) as [r w']; exact H.
Qed.

Lemma memory_sound_on_graph {A} (loop : MemoryGraph -> MemoryGraph * A) :
  (forall g, no_dangling g -> no_dangling (fst (loop g))) ->
  preserves (@memory_sound W) (MemoryServer.on_graph loop).
Proof.
  intros Hl s [Hi Hg]. unfold MemoryServer.on_graph.
  specialize (Hl _ Hg).
  destruct (loop (MemoryServer.memoryGraph s)) as [g a]. split; assumption.
Qed.

Lemma memory_sound_set_observations entityName n obs
      (s : @MemoryServer.State W) :
  memory_sound s ->
  get entityName (MemoryServer.memoryGraph s) = Some n ->
  memory_sound
    (MemoryServer.set_graph s
       (set entityName (set_observations n obs) (MemoryServer.memoryGraph s))).
Proof.
  intros [Hi Hg] Hn. split; [assumption|]. simpl.
  eapply no_dangling_same_relations; eauto. simpl. apply incl_refl.
Qed.

Lemma memory_sound_dispatch call :
  preserves (@memory_sound W) (MemoryServer.dispatch call).
Proof.
  destruct call; cbn [MemoryServer.dispatch].
  - unfold MemoryServer.createEntities.
    apply preserves_bind;
      [apply memory_sound_on_graph;
       apply MemoryServer_createEntities_loop_no_dangling|intros].
    apply preserves_bind; [apply memory_sound_saveMemoryGraph|intros].
    apply preserves_ret.
  - unfold MemoryServer.createRelations.
    apply preserves_bind;
      [apply memory_sound_on_graph;
       apply MemoryServer_createRelations_loop_no_dangling|intros].
    apply preserves_bind; [apply memory_sound_saveMemoryGraph|intros].
    apply preserves_ret.
  - intros s H. unfold MemoryServer.addObservations. run_step.
    destruct (get entityName (MemoryServer.memoryGraph s)) as [n|] eqn:E;
      [|exact H].
    run_step. rewrite run_bind.
    match goal with
    | |- context [MemoryServer.saveMemoryGraph ?s0] =>
        pose proof (memory_sound_saveMemoryGraph s0
                      (memory_sound_set_observations _ _ _ s H E)) as K;
        destruct (MemoryServer.saveMemoryGraph s0) as [[[]|m] s1]; exact K
    end.
  - unfold MemoryServer.searchNodes. repeat preserves_step.
  - unfold MemoryServer.readGraph. repeat preserves_step.
  - unfold MemoryServer.openNodes. repeat preserves_step.
  - unfold MemoryServer.deleteEntities.
    apply preserves_bind;
      [apply memory_sound_on_graph;
       apply MemoryServer_deleteEntities_loop_no_dangling|intros].
    apply preserves_bind; [apply memory_sound_saveMemoryGraph|intros].
    apply preserves_ret.
  - intros s H. unfold MemoryServer.deleteObservations. run_step.
    destruct (get entityName (MemoryServer.memoryGraph s)) as [n|] eqn:E;
      [|exact H].
    run_step. rewrite run_bind.
    match goal with
    | |- context [MemoryServer.saveMemoryGraph ?s0] =>
        pose proof (memory_sound_saveMemoryGraph s0
                      (memory_sound_set_observations _ _ _ s H E)) as K;
        destruct (MemoryServer.saveMemoryGraph s0) as [[[]|m] s1]; exact K
    end.
  - unfold MemoryServer.deleteRelations.
    apply preserves_bind;
      [apply memory_sound_on_graph;
       apply MemoryServer_deleteRelations_loop_no_dangling|intros].
    apply preserves_bind; [apply memory_sound_saveMemoryGraph|intros].
    apply preserves_ret.
  - apply preserves_throw.
Qed.

(** X26.  The memory server, once initialised, keeps its graph free of
    dangling relations through every tool call that names no entity
    like a member of [Object.prototype], whatever the world does in
    between. *)
Theorem memory_server_invariant
        (events : list (Event MemoryServer.ToolCall))
        (s : @MemoryServer.State W) :
  requests_are ordinary_memory_call events ->
  memory_sound s -> memory_sound (memory_run events s).
Proof.
  intros _. unfold memory_run. revert s.
  induction events as [|e events IH]; simpl; intros s Hs; [assumption|].
  apply IH. destruct e as [call|f]; simpl; [|exact Hs].
  unfold MemoryServer.callTool.
  apply (preserves_try_catch (@memory_sound W)); [|intros; apply preserves_ret|].
  - apply preserves_bind; [|intros; apply memory_sound_dispatch].
    intros s0 H0. unfold MemoryServer.ensureInitialized.
    rewrite (proj1 H0). exact H0.
  - assumption.
Qed.

End MemoryRun.

(** * Further properties *)

(** ** Creating relations *)

Section CreateRelations.
Import JsObject JsObjectFacts.

Lemma same_edge_refl relation : same_edge relation relation = true.
Proof. unfold same_edge. rewrite !String.eqb_refl. reflexivity. Qed.

Lemma has_set_other_true (k x : string) (v : MemoryNode) (g : MemoryGraph) :
  has x g = true -> has x (set k v g) = true.
Proof. intros H. apply has_set_monotone. left. assumption. Qed.

Lemma ensured_source relation g :
  let g' := MemoryServer.ensure_entity (to relation)
              (MemoryServer.ensure_entity (from relation) g) in
  has (to relation) g' = true
  /\ exists sourceEntity, get (from relation) g' = Some sourceEntity.
Proof.
  intros g'. split.
  - apply has_ensure_entity.
  - apply has_true. apply has_ensure_entity_monotone, has_ensure_entity.
Qed.

Lemma ensure_entity_present nm g :
  has nm g = true -> MemoryServer.ensure_entity nm g = g.
Proof. intros H. unfold MemoryServer.ensure_entity. rewrite H. reflexivity. Qed.

Lemma MemoryServer_step_attach g relation :
  fst (MemoryServer.createRelations_step g relation) = attach relation g relation.
Proof.
  unfold MemoryServer.createRelations_step, attach.
  destruct (get (from relation) _) as [n|]; [|reflexivity].
  destruct (existsb _ _); reflexivity.
Qed.

Lemma Comprehensive_step_attach g relation :
  Comprehensive.createRelations_step g relation
  = attach {| from := from relation; to := to relation;
              relationType := relationType relation |} g relation.
Proof. reflexivity. Qed.

Lemma attach_fixed edge g relation :
  linked g relation -> attach edge g relation = g.
Proof.
  intros (Ht & n & Hn & He). unfold attach.
  rewrite (ensure_entity_present (from relation) g)
    by (apply has_true; eauto).
  rewrite (ensure_entity_present (to relation) g) by assumption.
  rewrite Hn, He. reflexivity.
Qed.

Lemma attach_links edge g relation :
  same_edge relation edge = true -> linked (attach edge g relation) relation.
Proof.
  intros Hedge. unfold attach.
  destruct (ensured_source relation g) as (Ht & n & Hn).
  cbv zeta in Ht, Hn. rewrite Hn.
  destruct (existsb (same_edge relation) (relations n)) eqn:He.
  - split; [assumption|]. exists n. split; assumption.
  - split; [apply has_set_other_true; assumption|].
    eexists. split; [apply get_set_same|]. simpl.
    rewrite existsb_app. simpl. rewrite Hedge. apply orb_true_r.
Qed.

Lemma linked_ensure nm g relation :
  linked g relation -> linked (MemoryServer.ensure_entity nm g) relation.
Proof.
  intros (Ht & n & Hn & He). unfold MemoryServer.ensure_entity.
  destruct (has nm g) eqn:H; [repeat split; eauto|].
  split; [apply has_set_other_true; assumption|].
  exists n. split; [|assumption].
  rewrite get_set. destruct (String.eqb nm (from relation)) eqn:E; [|assumption].
  apply String.eqb_eq in E. subst nm. apply has_false in H. congruence.
Qed.

Lemma attach_keeps_linked edge g relation relation0 :
  linked g relation0 -> linked (attach edge g relation) relation0.
Proof.
  intros H0. unfold attach.
  pose proof (linked_ensure (to relation) _ _
                (linked_ensure (from relation) _ _ H0)) as H.
  set (g' := MemoryServer.ensure_entity (to relation)
               (MemoryServer.ensure_entity (from relation) g)) in *.
  destruct (get (from relation) g') as [n|] eqn:Hn; [|assumption].
  destruct (existsb (same_edge relation) (relations n)); [assumption|].
  destruct H as (Ht & n0 & Hn0 & He0).
  split; [apply has_set_other_true; assumption|].
  rewrite get_set. destruct (String.eqb (from relation) (from relation0)) eqn:E.
  - apply String.eqb_eq in E. rewrite E in Hn.
    assert (n0 = n) by congruence. subst n0.
    eexists. split; [reflexivity|]. simpl.
    rewrite existsb_app, He0. reflexivity.
  - exists n0. split; assumption.
Qed.

Lemma MemoryServer_relations_loop_fold rels : forall g,
  fst (MemoryServer.createRelations_loop rels g)
  = fold_left (fun g0 relation => attach relation g0 relation) rels g.
Proof.
  induction rels as [|relation rest IH]; intros g; [reflexivity|].
  simpl. rewrite <- MemoryServer_step_attach.
  destruct (MemoryServer.createRelations_step g relation) as [g1 r].
  specialize (IH g1).
  destruct (MemoryServer.createRelations_loop rest g1) as [g2 rs].
  exact IH.
Qed.

Section Loop.
Variable edge_of : MemoryRelation -> MemoryRelation.
Hypothesis edge_of_same : forall r, same_edge r (edge_of r) = true.

Lemma attach_loop_keeps_linked rels : forall g relation0,
  linked g relation0 -> linked (fold_left (fun g0 r => attach (edge_of r) g0 r) rels g) relation0.
Proof.
  induction rels as [|r rest IH]; intros g r0 H; [assumption|].
  simpl. apply IH. apply attach_keeps_linked. assumption.
Qed.

Lemma attach_loop_links rels : forall g,
  Forall (linked (fold_left (fun g0 r => attach (edge_of r) g0 r) rels g)) rels.
Proof.
  induction rels as [|r rest IH]; intros g; constructor.
  - simpl. apply attach_loop_keeps_linked. apply attach_links.
    apply edge_of_same.
  - apply IH.
Qed.

Lemma attach_loop_fixed rels : forall g,
  Forall (linked g) rels -> fold_left (fun g0 r => attach (edge_of r) g0 r) rels g = g.
Proof.
  induction rels as [|r rest IH]; intros g H; [reflexivity|].
  inversion H; subst. simpl.
  rewrite attach_fixed by assumption. apply IH. assumption.
Qed.

End Loop.

Context {W : Type} {host : Host W}.

(** X1.  [create_relations] with relations whose ends are not named
    like members of [Object.prototype] leaves every relation of the
    request in the graph: both ends exist (an end that was missing is
    created) and the source has an edge of that type to that target.  A
    second call with the same list changes nothing.  Both hold in the
    memory server and in the composite server. *)
Theorem createRelations_links_once
        (sM : @MemoryServer.State W) (sC : @Comprehensive.State W)
        (rels : list MemoryRelation) :
  ordinary_relations rels ->
  let onceM := snd (MemoryServer.createRelations rels sM) in
  let onceC := snd (Comprehensive.createRelations rels sC) in
  (Forall (linked (MemoryServer.memoryGraph onceM)) rels
   /\ MemoryServer.memoryGraph (snd (MemoryServer.createRelations rels onceM))
      = MemoryServer.memoryGraph onceM)
  /\ (Forall (linked (Comprehensive.memoryGraph onceC)) rels
      /\ Comprehensive.memoryGraph
           (snd (Comprehensive.createRelations rels onceC))
         = Comprehensive.memoryGraph onceC).
Proof.
  intros _. cbv zeta. rewrite !MemoryServer_createRelations_graph,
    !Comprehensive_createRelations_graph.
  rewrite !MemoryServer_relations_loop_fold.
  unfold Comprehensive.createRelations_loop.
  assert (EM : forall r, same_edge r r = true) by apply same_edge_refl.
  assert (EC : forall r, same_edge r {| from := from r; to := to r;
                                        relationType := relationType r |}
                         = true)
    by (intros r; unfold same_edge; simpl; rewrite !String.eqb_refl;
        reflexivity).
  set (copy := fun r => {| from := from r; to := to r;
                           relationType := relationType r |}).
  change (fold_left Comprehensive.createRelations_step)
    with (fold_left (fun g0 r => attach (copy r) g0 r)).
  split; split.
  - apply (attach_loop_links (fun r => r) EM).
  - apply (attach_loop_fixed (fun r => r)).
    apply (attach_loop_links (fun r => r) EM).
  - apply (attach_loop_links copy EC).
  - apply (attach_loop_fixed copy). apply (attach_loop_links copy EC).
Qed.

End CreateRelations.

(** ** Deleting relations *)

Section DeleteRelations.
Import JsObject JsObjectFacts.

Lemma keys_replace_value {V} k (v : V) o :
  keys (replace_value k v o) = keys o.
Proof.
  induction o as [|[k' v'] o IH]; [reflexivity|]. simpl.
  destruct (String.eqb k k'); simpl; [reflexivity|]. f_equal. apply IH.
Qed.

Lemma keys_set_present {V} k (v : V) o :
  has k o = true -> keys (set k v o) = keys o.
Proof. intros H. unfold set. rewrite H. apply keys_replace_value. Qed.

Lemma filter_filter {A} (p q : A -> bool) l :
  filter p (filter q l) = filter (fun x => q x && p x) l.
Proof.
  induction l as [|x l IH]; [reflexivity|]. simpl.
  destruct (q x); simpl; [destruct (p x)|]; rewrite IH; reflexivity.
Qed.

Lemma filter_all {A} (l : list A) : filter (fun _ => true) l = l.
Proof. induction l; simpl; congruence. Qed.

Lemma set_relations_same n : set_relations n (relations n) = n.
Proof. destruct n; reflexivity. Qed.

Lemma without_no_relations nm n : without_relations [] nm n = n.
Proof.
  unfold without_relations. simpl. rewrite filter_all.
  apply set_relations_same.
Qed.

Lemma without_relations_cons relation rest nm n :
  without_relations rest nm (without_relations [relation] nm n)
  = without_relations (relation :: rest) nm n.
Proof.
  unfold without_relations. simpl. rewrite filter_filter.
  unfold set_relations. simpl. f_equal. apply filter_ext. intros r.
  rewrite orb_false_r, negb_orb. reflexivity.
Qed.

(** One step of the loop, in either server. *)
Lemma unlink_step_spec g relation :
  let g1 := Comprehensive.deleteRelations_step g relation in
  keys g1 = keys g
  /\ forall nm, get nm g1
                = option_map (without_relations [relation] nm) (get nm g).
Proof.
  unfold Comprehensive.deleteRelations_step.
  destruct (get (from relation) g) as [entity|] eqn:E; cbv zeta.
  - split; [apply keys_set_present, has_true; eauto|].
    intros nm. rewrite get_set.
    destruct (String.eqb (from relation) nm) eqn:N.
    + apply String.eqb_eq in N. subst nm. rewrite E. simpl.
      unfold without_relations. simpl. rewrite String.eqb_refl. simpl.
      do 2 f_equal. apply filter_ext. intros r. rewrite orb_false_r.
      reflexivity.
    + destruct (get nm g) as [n|]; [|reflexivity]. simpl.
      unfold without_relations. simpl. rewrite N. simpl.
      rewrite filter_all, set_relations_same. reflexivity.
  - split; [reflexivity|]. intros nm.
    destruct (get nm g) as [n|] eqn:G; [|reflexivity]. simpl.
    unfold without_relations. simpl.
    destruct (String.eqb (from relation) nm) eqn:N.
    + apply String.eqb_eq in N. congruence.
    + simpl. rewrite filter_all, set_relations_same. reflexivity.
Qed.

Lemma MemoryServer_unlink_step g relation :
  fst (MemoryServer.deleteRelations_step g relation)
  = Comprehensive.deleteRelations_step g relation.
Proof.
  unfold MemoryServer.deleteRelations_step, Comprehensive.deleteRelations_step.
  destruct (get (from relation) g); reflexivity.
Qed.

Lemma MemoryServer_unlink_loop rels : forall g,
  fst (MemoryServer.deleteRelations_loop rels g)
  = fold_left Comprehensive.deleteRelations_step rels g.
Proof.
  induction rels as [|relation rest IH]; intros g; [reflexivity|].
  simpl. rewrite <- MemoryServer_unlink_step.
  destruct (MemoryServer.deleteRelations_step g relation) as [g1 r].
  specialize (IH g1).
  destruct (MemoryServer.deleteRelations_loop rest g1) as [g2 rs].
  exact IH.
Qed.

Lemma unlink_loop_spec rels : forall g,
  let g' := fold_left Comprehensive.deleteRelations_step rels g in
  keys g' = keys g
  /\ forall nm, get nm g' = option_map (without_relations rels nm) (get nm g).
Proof.
  induction rels as [|relation rest IH]; intros g; cbv zeta.
  - split; [reflexivity|]. intros nm. simpl.
    destruct (get nm g); simpl; [rewrite without_no_relations|]; reflexivity.
  - simpl. destruct (unlink_step_spec g relation) as [K1 G1].
    destruct (IH (Comprehensive.deleteRelations_step g relation)) as [K2 G2].
    split; [congruence|]. intros nm. rewrite G2, G1.
    destruct (get nm g); simpl; [rewrite without_relations_cons|]; reflexivity.
Qed.

Context {W : Type} {host : Host W}.

Lemma MemoryServer_deleteRelations_graph rels (s : @MemoryServer.State W) :
  MemoryServer.memoryGraph (snd (MemoryServer.deleteRelations rels s))
  = fst (MemoryServer.deleteRelations_loop rels (MemoryServer.memoryGraph s)).
Proof.
  apply (MemoryServer_on_graph_then_save
           (MemoryServer.deleteRelations_loop rels)
           (fun results => text_result (join_lines results)) s).
Qed.

Lemma Comprehensive_deleteRelations_graph rels (s : @Comprehensive.State W) :
  Comprehensive.memoryGraph (snd (Comprehensive.deleteRelations rels s))
  = fold_left Comprehensive.deleteRelations_step rels
              (Comprehensive.memoryGraph s).
Proof.
  unfold Comprehensive.deleteRelations, bind, modify.
  match goal with
  | |- context [Comprehensive.saveMemoryGraph ?s'] =>
      destruct (Comprehensive_saveMemoryGraph_spec s') as [w ->]
  end.
  reflexivity.
Qed.

(** X2.  [delete_relations] creates and removes no entity and keeps the
    order of the entities; of the entity stored under a name it changes
    only the relations, of which it keeps, in order, those that no
    relation of the request with that [from] matches in [to] and
    [relationType].  The composite server does so for every request,
    the memory server for a request in which no [from] is named like a
    member of [Object.prototype]. *)
Theorem deleteRelations_removes_matching_edges
        (sM : @MemoryServer.State W) (sC : @Comprehensive.State W)
        (rels : list MemoryRelation) :
  let gM := MemoryServer.memoryGraph sM in
  let gM' := MemoryServer.memoryGraph
               (snd (MemoryServer.deleteRelations rels sM)) in
  let gC := Comprehensive.memoryGraph sC in
  let gC' := Comprehensive.memoryGraph
               (snd (Comprehensive.deleteRelations rels sC)) in
  (Forall (fun relation => ordinary (from relation)) rels ->
   keys gM' = keys gM
   /\ forall nm, get nm gM' = option_map (without_relations rels nm) (get nm gM))
  /\ (keys gC' = keys gC
      /\ forall nm,
          get nm gC' = option_map (without_relations rels nm) (get nm gC)).
Proof.
  cbv zeta.
  rewrite MemoryServer_deleteRelations_graph, MemoryServer_unlink_loop,
    Comprehensive_deleteRelations_graph.
  split; [intros _|]; apply unlink_loop_spec.
Qed.

End DeleteRelations.

(** ** Adding and deleting observations *)

Section Observations.
Import JsObject JsObjectFacts.
Context {W : Type} {host : Host W}.

Lemma MemoryServer_set_then_save {A} (g' : MemoryGraph) (a : A)
      (s : @MemoryServer.State W) :
  MemoryServer.memoryGraph
    (snd (bind (modify (fun s0 => MemoryServer.set_graph s0 g'))
               (fun _ => bind MemoryServer.saveMemoryGraph
                              (fun _ => ret a)) s)) = g'.
Proof.
  run_step. rewrite run_bind.
  pose proof (MemoryServer_saveMemoryGraph_graph (MemoryServer.set_graph s g'))
    as [Hg Hr].
  destruct (MemoryServer.saveMemoryGraph (MemoryServer.set_graph s g'))
    as [[[]|m] s1]; simpl in *; [assumption|discriminate].
Qed.

Lemma Comprehensive_set_then_save {A} (g' : MemoryGraph) (a : A)
      (h : string -> string) (s : @Comprehensive.State W) :
  Comprehensive.memoryGraph
    (snd (try_catch
            (bind (modify (fun s0 => Comprehensive.set_graph s0 g'))
                  (fun _ => bind Comprehensive.saveMemoryGraph
                                 (fun _ => ret a)))
            (fun m => throw (h m)) s)) = g'.
Proof.
  rewrite snd_try_catch_rethrow. run_step. rewrite run_bind.
  destruct (Comprehensive_saveMemoryGraph_spec (Comprehensive.set_graph s g'))
    as [w ->].
  reflexivity.
Qed.

Lemma MemoryServer_addObservations_graph entityName obs n
      (s : @MemoryServer.State W) :
  get entityName (MemoryServer.memoryGraph s) = Some n ->
  MemoryServer.memoryGraph (snd (MemoryServer.addObservations entityName obs s))
  = set entityName
        (set_observations n (new_Set (observations n ++ obs)))
        (MemoryServer.memoryGraph s).
Proof.
  intros E. unfold MemoryServer.addObservations. run_step. rewrite E.
  apply MemoryServer_set_then_save.
Qed.

Lemma MemoryServer_deleteObservations_graph entityName obs n
      (s : @MemoryServer.State W) :
  get entityName (MemoryServer.memoryGraph s) = Some n ->
  MemoryServer.memoryGraph
    (snd (MemoryServer.deleteObservations entityName obs s))
  = set entityName
        (set_observations n
           (filter (fun o => negb (includes obs o)) (observations n)))
        (MemoryServer.memoryGraph s).
Proof.
  intros E. unfold MemoryServer.deleteObservations. run_step. rewrite E.
  apply MemoryServer_set_then_save.
Qed.

Lemma Comprehensive_deleteObservations_graph entityName obs n
      (s : @Comprehensive.State W) :
  get entityName (Comprehensive.memoryGraph s) = Some n ->
  Comprehensive.memoryGraph
    (snd (Comprehensive.deleteObservations entityName obs s))
  = set entityName
        (set_observations n
           (filter (fun o => negb (includes obs o)) (observations n)))
        (Comprehensive.memoryGraph s).
Proof.
  intros E. unfold Comprehensive.deleteObservations.
  rewrite snd_try_catch_rethrow. run_step. rewrite E. run_step.
  rewrite run_bind.
  match goal with
  | |- context [Comprehensive.saveMemoryGraph ?s'] =>
      destruct (Comprehensive_saveMemoryGraph_spec s') as [w ->]
  end.
  reflexivity.
Qed.

(** X3.  [add_observations] on an entity that exists changes that entity
    only, and of it only the observations: afterwards they are the
    observations it had together with those of the request.  In the
    memory server no observation is then repeated; in the composite
    server the old observations stay in front, in order. *)
Theorem addObservations_adds_to_one_entity
        (sM : @MemoryServer.State W) (sC : @Comprehensive.State W)
        (entityName : string) (obs : list string) (nM nC : MemoryNode) :
  get entityName (MemoryServer.memoryGraph sM) = Some nM ->
  get entityName (Comprehensive.memoryGraph sC) = Some nC ->
  let gM' := MemoryServer.memoryGraph
               (snd (MemoryServer.addObservations entityName obs sM)) in
  let gC' := Comprehensive.memoryGraph
               (snd (Comprehensive.addObservations entityName obs sC)) in
  (exists merged,
      get entityName gM' = Some (set_observations nM merged)
      /\ NoDup merged
      /\ forall o, In o merged <-> In o (observations nM) \/ In o obs)
  /\ (forall nm, nm <> entityName ->
                 get nm gM' = get nm (MemoryServer.memoryGraph sM))
  /\ keys gM' = keys (MemoryServer.memoryGraph sM)
  /\ (exists added,
         get entityName gC'
         = Some (set_observations nC (observations nC ++ added))
         /\ forall o, In o (observations nC ++ added)
                      <-> In o (observations nC) \/ In o obs)
  /\ (forall nm, nm <> entityName ->
                 get nm gC' = get nm (Comprehensive.memoryGraph sC))
  /\ keys gC' = keys (Comprehensive.memoryGraph sC).
Proof.
  intros EM EC. cbv zeta.
  rewrite (MemoryServer_addObservations_graph _ _ _ _ EM).
  destruct (Comprehensive_addObservations_present sC entityName obs nC EC)
    as [_ ->].
  repeat split.
  - exists (new_Set (observations nM ++ obs)). split; [apply get_set_same|].
    split; [apply new_Set_NoDup|]. intros o.
    rewrite new_Set_In, in_app_iff. reflexivity.
  - intros nm N. apply get_set_other. congruence.
  - apply keys_set_present, has_true; eauto.
  - exists (filter (fun o => negb (includes (observations nC) o)) obs).
    split; [apply get_set_same|]. intros o.
    rewrite in_app_iff, filter_In. split.
    + intros [H|[H _]]; auto.
    + intros [H|H]; [auto|].
      destruct (includes (observations nC) o) eqn:I.
      * left. apply includes_In. assumption.
      * right. split; [assumption|reflexivity].
  - intros nm N. apply get_set_other. congruence.
  - apply keys_set_present, has_true; eauto.
Qed.

(** X4.  [delete_observations] on an entity that exists changes that
    entity only, and of it only the observations, of which it keeps, in
    order, those that the request does not list.  Both servers. *)
Theorem deleteObservations_removes_listed
        (sM : @MemoryServer.State W) (sC : @Comprehensive.State W)
        (entityName : string) (obs : list string) (nM nC : MemoryNode) :
  get entityName (MemoryServer.memoryGraph sM) = Some nM ->
  get entityName (Comprehensive.memoryGraph sC) = Some nC ->
  let gM' := MemoryServer.memoryGraph
               (snd (MemoryServer.deleteObservations entityName obs sM)) in
  let gC' := Comprehensive.memoryGraph
               (snd (Comprehensive.deleteObservations entityName obs sC)) in
  let kept n := filter (fun o => negb (includes obs o)) (observations n) in
  (get entityName gM' = Some (set_observations nM (kept nM))
   /\ (forall o, In o (kept nM) <-> In o (observations nM) /\ ~ In o obs)
   /\ (forall nm, nm <> entityName ->
                  get nm gM' = get nm (MemoryServer.memoryGraph sM))
   /\ keys gM' = keys (MemoryServer.memoryGraph sM))
  /\ (get entityName gC' = Some (set_observations nC (kept nC))
      /\ (forall o, In o (kept nC) <-> In o (observations nC) /\ ~ In o obs)
      /\ (forall nm, nm <> entityName ->
                     get nm gC' = get nm (Comprehensive.memoryGraph sC))
      /\ keys gC' = keys (Comprehensive.memoryGraph sC)).
Proof.
  intros EM EC. cbv zeta.
  rewrite (MemoryServer_deleteObservations_graph _ _ _ _ EM),
    (Comprehensive_deleteObservations_graph _ _ _ _ EC).
  assert (K : forall n o,
             In o (filter (fun o => negb (includes obs o)) (observations n))
             <-> In o (observations n) /\ ~ In o obs).
  { intros n o. rewrite filter_In, negb_true_iff, includes_false.
    reflexivity. }
  split; (split; [apply get_set_same|]); (split; [apply K|]);
    (split; [intros nm N; apply get_set_other; congruence|]);
    apply keys_set_present, has_true; eauto.
Qed.

End Observations.

Lemma addObservations_adds_to_one_entity_witness :
  exists merged,
    JsObject.get "Alice"
      (MemoryServer.memoryGraph
         (snd (MemoryServer.addObservations "Alice" ["tall"; "likes tea"]
                 (Scenario.memory Scenario.alice_graph))))
    = Some (set_observations Scenario.alice merged)
    /\ NoDup merged.
Proof.
  destruct (addObservations_adds_to_one_entity
              (Scenario.memory Scenario.alice_graph)
              (Scenario.composite Scenario.alice_graph)
              "Alice" ["tall"; "likes tea"] Scenario.alice Scenario.alice
              eq_refl eq_refl)
    as ((merged & G & D & _) & _).
  exists merged. split; assumption.
Defined.

Lemma deleteObservations_removes_listed_witness :
  JsObject.get "Alice"
    (Comprehensive.memoryGraph
       (snd (Comprehensive.deleteObservations "Alice" ["likes tea"; "x"]
               (Scenario.composite Scenario.alice_graph))))
  = Some (set_observations Scenario.alice []).
Proof.
  destruct (deleteObservations_removes_listed
              (Scenario.memory Scenario.alice_graph)
              (Scenario.composite Scenario.alice_graph)
              "Alice" ["likes tea"; "x"] Scenario.alice Scenario.alice
              eq_refl eq_refl)
    as (_ & G & _).
  exact G.
Defined.

(** ** Deleting entities *)

Section DeleteEntitiesFrame.
Import JsObject JsObjectFacts.

Lemma keys_update_all {V} (f : V -> V) o : keys (update_all f o) = keys o.
Proof. unfold keys, update_all. rewrite map_map. reflexivity. Qed.

Lemma keys_delete {V} k (o : t V) :
  keys (delete k o) = filter (fun k' => negb (String.eqb k k')) (keys o).
Proof.
  unfold keys, delete. induction o as [|[k' v] o IH]; [reflexivity|]. simpl.
  destruct (String.eqb k k'); simpl; [|f_equal]; apply IH.
Qed.

Lemma keys_absent {V} k (o : t V) : get k o = None -> ~ In k (keys o).
Proof.
  induction o as [|[k' v] o IH]; simpl; [tauto|].
  destruct (String.eqb k k') eqn:E; [discriminate|].
  intros H [H'|H']; [|apply IH; assumption].
  subst k'. rewrite String.eqb_refl in E. discriminate.
Qed.

Lemma without_no_targets n : without_targets [] n = n.
Proof.
  unfold without_targets. simpl. rewrite filter_all. apply set_relations_same.
Qed.

Lemma without_targets_cons x rest n :
  without_targets rest (without_targets [x] n) = without_targets (x :: rest) n.
Proof.
  unfold without_targets. simpl. rewrite filter_filter.
  unfold set_relations. simpl. f_equal. apply filter_ext. intros r.
  rewrite orb_false_r, negb_orb. reflexivity.
Qed.

Lemma after_delete_cons x rest nm before :
  after_delete rest nm (after_delete [x] nm before)
  = after_delete (x :: rest) nm before.
Proof.
  unfold after_delete. simpl. rewrite orb_false_r.
  destruct (String.eqb nm x); simpl.
  - destruct (includes rest nm); reflexivity.
  - destruct (includes rest nm); [reflexivity|].
    destruct before; simpl; [rewrite without_targets_cons|]; reflexivity.
Qed.

Lemma filter_keys_cons x rest (l : list string) :
  filter (fun k => negb (includes rest k))
         (filter (fun k => negb (String.eqb x k)) l)
  = filter (fun k => negb (includes (x :: rest) k)) l.
Proof.
  rewrite filter_filter. apply filter_ext. intros k. simpl.
  rewrite negb_orb, (String.eqb_sym k x). reflexivity.
Qed.

Lemma Comprehensive_delete_step_spec g x :
  let g1 := Comprehensive.deleteEntities_step g x in
  keys g1 = filter (fun k => negb (String.eqb x k)) (keys g)
  /\ forall nm, get nm g1 = after_delete [x] nm (get nm g).
Proof.
  cbv zeta. unfold Comprehensive.deleteEntities_step. split.
  - unfold Comprehensive.strip_relations_to.
    rewrite keys_update_all. apply keys_delete.
  - intros nm.
    change (Comprehensive.strip_relations_to x (delete x g))
      with (MemoryServer.strip_relations_to x (delete x g)).
    rewrite get_strip_relations_to, get_delete. unfold after_delete. simpl.
    rewrite orb_false_r, (String.eqb_sym nm x).
    destruct (String.eqb x nm); [reflexivity|].
    destruct (get nm g) as [n|]; [|reflexivity]. simpl.
    unfold without_targets. simpl. do 2 f_equal. apply filter_ext.
    intros r. rewrite orb_false_r. reflexivity.
Qed.

Lemma Comprehensive_delete_loop_spec names : forall g,
  let g' := Comprehensive.deleteEntities_loop names g in
  keys g' = filter (fun k => negb (includes names k)) (keys g)
  /\ forall nm, get nm g' = after_delete names nm (get nm g).
Proof.
  unfold Comprehensive.deleteEntities_loop.
  induction names as [|x rest IH]; intros g; cbv zeta.
  - split; [simpl; rewrite filter_all; reflexivity|]. intros nm. simpl.
    unfold after_delete. simpl.
    destruct (get nm g); simpl; [rewrite without_no_targets|]; reflexivity.
  - simpl. destruct (Comprehensive_delete_step_spec g x) as [K1 G1].
    destruct (IH (Comprehensive.deleteEntities_step g x)) as [K2 G2].
    split.
    + rewrite K2, K1. apply filter_keys_cons.
    + intros nm. rewrite G2, G1. apply after_delete_cons.
Qed.

Lemma filter_absent_key x (l : list string) :
  ~ In x l -> filter (fun k => negb (String.eqb x k)) l = l.
Proof.
  intros H. induction l as [|k l IH]; [reflexivity|]. simpl.
  destruct (String.eqb x k) eqn:E.
  - apply String.eqb_eq in E. subst k. exfalso. apply H. left. reflexivity.
  - simpl. f_equal. apply IH. intros H'. apply H. right. assumption.
Qed.

Lemma filter_id_relations (p : MemoryRelation -> bool) l :
  (forall r, In r l -> p r = true) -> filter p l = l.
Proof.
  intros H. induction l as [|r l IH]; [reflexivity|]. simpl.
  rewrite (H r (or_introl eq_refl)). f_equal. apply IH.
  intros r' Hr'. apply H. right. assumption.
Qed.

Lemma MemoryServer_delete_step_spec g x :
  no_dangling g ->
  let g1 := fst (MemoryServer.deleteEntities_step g x) in
  keys g1 = filter (fun k => negb (String.eqb x k)) (keys g)
  /\ forall nm, get nm g1 = after_delete [x] nm (get nm g).
Proof.
  intros Hg. cbv zeta. unfold MemoryServer.deleteEntities_step.
  destruct (has x g) eqn:Hx; simpl.
  - apply (Comprehensive_delete_step_spec g x).
  - apply has_false in Hx. split.
    + symmetry. apply filter_absent_key, keys_absent. assumption.
    + intros nm. unfold after_delete. simpl. rewrite orb_false_r.
      destruct (String.eqb nm x) eqn:E.
      * apply String.eqb_eq in E. subst nm. assumption.
      * destruct (get nm g) as [n|] eqn:Gn; [|reflexivity]. simpl.
        unfold without_targets. rewrite filter_id_relations.
        -- rewrite set_relations_same. reflexivity.
        -- intros r Hr. simpl. rewrite orb_false_r.
           destruct (String.eqb (to r) x) eqn:T; [|reflexivity].
           apply String.eqb_eq in T. pose proof (Hg nm n r Gn Hr) as Hh.
           rewrite T in Hh. apply has_true in Hh. destruct Hh as [v Hv].
           congruence.
Qed.

Lemma MemoryServer_delete_loop_spec names : forall g,
  no_dangling g ->
  let g' := fst (MemoryServer.deleteEntities_loop names g) in
  keys g' = filter (fun k => negb (includes names k)) (keys g)
  /\ forall nm, get nm g' = after_delete names nm (get nm g).
Proof.
  induction names as [|x rest IH]; intros g Hg; cbv zeta.
  - split; [simpl; rewrite filter_all; reflexivity|]. intros nm. simpl.
    unfold after_delete. simpl.
    destruct (get nm g); simpl; [rewrite without_no_targets|]; reflexivity.
  - simpl. destruct (MemoryServer_delete_step_spec g x Hg) as [K1 G1].
    destruct (MemoryServer_deleteEntities_step_spec g x Hg) as (_ & _ & Hg1).
    destruct (MemoryServer.deleteEntities_step g x) as [g1 r]. simpl in *.
    destruct (IH g1 Hg1) as [K2 G2].
    destruct (MemoryServer.deleteEntities_loop rest g1) as [g2 rs].
    simpl in *. split.
    + rewrite K2, K1. apply filter_keys_cons.
    + intros nm. rewrite G2, G1. apply after_delete_cons.
Qed.

Context {W : Type} {host : Host W}.

(** X5.  [delete_entities] with a list of names: the entities stored
    under those names are gone, the others stay in their order, and each
    keeps its name, type and observations and, in order, the relations
    whose target is not one of the names.  The composite server does so
    on every graph, the memory server on every graph in which no
    relation points at a missing entity. *)
Theorem deleteEntities_keeps_the_rest
        (sM : @MemoryServer.State W) (sC : @Comprehensive.State W)
        (names : list string) :
  no_dangling (MemoryServer.memoryGraph sM) ->
  let gM := MemoryServer.memoryGraph sM in
  let gM' := MemoryServer.memoryGraph
               (snd (MemoryServer.deleteEntities names sM)) in
  let gC := Comprehensive.memoryGraph sC in
  let gC' := Comprehensive.memoryGraph
               (snd (Comprehensive.deleteEntities names sC)) in
  (keys gM' = filter (fun k => negb (includes names k)) (keys gM)
   /\ forall nm, get nm gM' = after_delete names nm (get nm gM))
  /\ (keys gC' = filter (fun k => negb (includes names k)) (keys gC)
      /\ forall nm, get nm gC' = after_delete names nm (get nm gC)).
Proof.
  intros Hg. cbv zeta.
  rewrite MemoryServer_deleteEntities_graph, Comprehensive_deleteEntities_graph.
  split.
  - apply MemoryServer_delete_loop_spec. assumption.
  - apply Comprehensive_delete_loop_spec.
Qed.

End DeleteEntitiesFrame.

Lemma deleteEntities_keeps_the_rest_witness :
  JsObject.keys
    (MemoryServer.memoryGraph
       (snd (MemoryServer.deleteEntities ["Carol"; "Dave"]
               (Scenario.memory Scenario.alice_graph)))) = ["Alice"]
  /\ JsObject.get "Alice"
       (MemoryServer.memoryGraph
          (snd (MemoryServer.deleteEntities ["Carol"; "Dave"]
                  (Scenario.memory Scenario.alice_graph))))
     = Some (Scenario.node "Alice" "person" ["likes tea"] []).
Proof.
  destruct (deleteEntities_keeps_the_rest
              (Scenario.memory Scenario.alice_graph)
              (Scenario.composite Scenario.alice_graph)
              ["Carol"; "Dave"] no_dangling_alice_graph)
    as ((K & G) & _).
  split; [exact K|exact (G "Alice")].
Defined.

(** ** Creating, then opening *)

Section CreateThenOpen.
Import JsObject JsObjectFacts.







Context {W : Type} {host : Host W}.


End CreateThenOpen.


(** ** The empty query *)

Section EmptyQuery.
Import JsObject JsObjectFacts.

Lemma includes_empty s : JsString.includes s EmptyString = true.
Proof. unfold JsString.includes. destruct s; reflexivity. Qed.

Lemma fold_all_true {A} (w : nat) (p : A -> bool) (l : list A) :
  (forall x, p x = true) ->
  forall acc,
    fold_left (fun sc x => if p x then sc + w else sc) l acc
    = acc + w * length l.
Proof.
  intros H. induction l as [|x l IH]; intros acc; simpl; [lia|].
  rewrite H, IH. lia.
Qed.

Lemma MemoryServer_score_empty nm entity :
  MemoryServer.score_of EmptyString nm entity
  = 15 + 3 * length (observations entity) + 2 * length (relations entity).
Proof.
  unfold MemoryServer.score_of. rewrite !includes_empty.
  rewrite !fold_all_true; [lia| |].
  - intros r. rewrite !includes_empty. reflexivity.
  - intros o. apply includes_empty.
Qed.

Lemma Comprehensive_score_empty entity :
  Comprehensive.score_of EmptyString entity
  = 150 + 10 * length (observations entity).
Proof.
  unfold Comprehensive.score_of. rewrite !includes_empty.
  rewrite fold_all_true; [lia|]. intros o. apply includes_empty.
Qed.

Lemma MemoryServer_search_loop_empty entries :
  MemoryServer.search_loop EmptyString entries
  = map (fun kv => MemoryServer.search_result (snd kv)
                     (15 + 3 * length (observations (snd kv))
                      + 2 * length (relations (snd kv)))) entries.
Proof.
  induction entries as [|[nm entity] rest IH]; [reflexivity|].
  cbn [MemoryServer.search_loop map snd]. rewrite MemoryServer_score_empty.
  rewrite IH. reflexivity.
Qed.

Lemma Comprehensive_search_loop_empty entities :
  Comprehensive.search_loop EmptyString entities
  = map (fun entity => MemoryServer.search_result entity
                         (150 + 10 * length (observations entity))) entities.
Proof.
  induction entities as [|entity rest IH]; [reflexivity|].
  cbn [Comprehensive.search_loop map]. rewrite Comprehensive_score_empty.
  rewrite IH. reflexivity.
Qed.

(** X7.  The empty query matches everything: [search_nodes] then
    returns every entity of the graph, once, and the score of a result
    only counts what is recorded of it: 15 (memory server) or 150
    (composite server) for name and type, 3 or 10 per observation and,
    in the memory server, 2 per relation. *)
Theorem searchNodes_empty_query_returns_every_entity (g : MemoryGraph) :
  (Permutation (MemoryServer.search EmptyString g)
               (map (fun kv => MemoryServer.search_result (snd kv)
                                 (15 + 3 * length (observations (snd kv))
                                  + 2 * length (relations (snd kv)))) g)
   /\ length (MemoryServer.search EmptyString g) = length (keys g))
  /\ (Permutation (Comprehensive.searchNodesInternal EmptyString g)
                  (map (fun entity =>
                          MemoryServer.search_result entity
                            (150 + 10 * length (observations entity)))
                       (values g))
      /\ length (Comprehensive.searchNodesInternal EmptyString g)
         = length (keys g)).
Proof.
  unfold MemoryServer.search, Comprehensive.searchNodesInternal.
  cbn [JsString.toLowerCase].
  rewrite MemoryServer_search_loop_empty, Comprehensive_search_loop_empty.
  split; split; try apply sort_perm.
  - rewrite (Permutation_length (sort_perm _)). unfold keys.
    rewrite !length_map. reflexivity.
  - rewrite (Permutation_length (sort_perm _)). unfold keys, values.
    rewrite !length_map. reflexivity.
Qed.

End EmptyQuery.

(** ** Adding a directory *)

Section AddDirectory.
Context {W : Type} {host : Host W}.

Lemma plain_check_directory_run dirPath resolved
      (s : @FilesystemServer.State W) :
  FilesystemServer.check_directory dirPath resolved s
  = if is_directory_at resolved (FilesystemServer.world s)
    then (Return tt, s)
    else (Throw ("Directory " ++ dirPath
                   ++ " does not exist or is not accessible"), s).
Proof.
  unfold FilesystemServer.check_directory, is_directory_at, try_catch, bind,
    FilesystemServer.host_ask.
  destruct (fs_stat resolved (FilesystemServer.world s)) as [stats|m];
    [|reflexivity].
  destruct (stats_isDirectory stats); reflexivity.
Qed.

Lemma composite_check_directory_run dirPath resolved
      (s : @Comprehensive.State W) :
  Comprehensive.check_directory dirPath resolved s
  = if is_directory_at resolved (Comprehensive.world s)
    then (Return tt, s)
    else (Throw ("Directory " ++ dirPath
                   ++ " does not exist or is not accessible"), s).
Proof.
  unfold Comprehensive.check_directory, is_directory_at, try_catch, bind,
    Comprehensive.host_ask.
  destruct (fs_stat resolved (Comprehensive.world s)) as [stats|m];
    [|reflexivity].
  destruct (stats_isDirectory stats); reflexivity.
Qed.

Lemma plain_addAllowedDirectory_after dirPath (s : @FilesystemServer.State W) :
  let resolved := NodePath.resolve (cwd (FilesystemServer.world s)) dirPath in
  FilesystemServer.allowedDirectories
    (snd (FilesystemServer.addAllowedDirectory dirPath s))
  = after_add resolved (is_directory_at resolved (FilesystemServer.world s))
              (FilesystemServer.allowedDirectories s).
Proof.
  cbv zeta. unfold FilesystemServer.addAllowedDirectory, after_add.
  rewrite snd_try_catch_rethrow.
  unfold FilesystemServer.resolve. run_step.
  rewrite run_bind, plain_check_directory_run.
  destruct (is_directory_at _ _); [|reflexivity].
  run_step.
  destruct (includes (FilesystemServer.allowedDirectories s) _);
    [reflexivity|].
  run_step. rewrite run_bind. simpl.
  match goal with
  | |- context [FilesystemServer.saveConfiguration ?s0] =>
      pose proof (plain_saveConfiguration_keeps s0) as K;
      destruct (FilesystemServer.saveConfiguration s0) as [[[]|m] s']
  end; exact K.
Qed.

Lemma composite_addAllowedDirectory_after dirPath
      (s : @Comprehensive.State W) :
  let resolved := NodePath.resolve (cwd (Comprehensive.world s)) dirPath in
  Comprehensive.allowedDirectories
    (snd (Comprehensive.addAllowedDirectory dirPath s))
  = after_add resolved (is_directory_at resolved (Comprehensive.world s))
              (Comprehensive.allowedDirectories s).
Proof.
  cbv zeta. unfold Comprehensive.addAllowedDirectory, after_add.
  rewrite snd_try_catch_rethrow.
  unfold Comprehensive.resolve. run_step.
  rewrite run_bind, composite_check_directory_run.
  destruct (is_directory_at _ _); [|reflexivity].
  run_step.
  destruct (includes (Comprehensive.allowedDirectories s) _);
    [reflexivity|].
  run_step. simpl.
  match goal with
  | |- Comprehensive.allowedDirectories (snd (?c ?s0)) = _ =>
      assert (K : keeps Comprehensive.allowedDirectories c);
      [|exact (K s0)]
  end.
  pose proof (@directories_blind W) as B.
  unfold Comprehensive.now. composite_keeps.
Qed.

End AddDirectory.

Section DirectoryLists.
Context {W : Type} {host : Host W}.

Lemma resolve_absolute here there p :
  NodePath.isAbsolute p = true -> NodePath.resolve here p = NodePath.resolve there p.
Proof. intros H. unfold NodePath.resolve. rewrite H. reflexivity. Qed.

Lemma filter_other_directories d dirs :
  ~ In d dirs -> filter (fun dir => negb (String.eqb dir d)) dirs = dirs.
Proof.
  intros H. apply filter_id. intros z Hz. apply negb_true_iff.
  apply String.eqb_neq. intros ->. contradiction.
Qed.

Lemma after_remove_absent d dirs : ~ In d dirs -> after_remove d dirs = dirs.
Proof.
  intros H. unfold after_remove. rewrite filter_other_directories by assumption.
  rewrite Nat.eqb_refl. reflexivity.
Qed.

Lemma after_remove_added d dirs :
  ~ In d dirs -> dirs <> [] -> after_remove d (dirs ++ [d]) = dirs.
Proof.
  intros H Hne. unfold after_remove. rewrite filter_app.
  rewrite filter_other_directories by assumption. simpl.
  rewrite String.eqb_refl. simpl. rewrite app_nil_r, length_app. simpl.
  destruct (Nat.eqb_spec (length dirs) (length dirs + 1)); [lia|].
  destruct dirs; [congruence|reflexivity].
Qed.

Lemma after_add_then_remove d ok dirs :
  ~ In d dirs -> dirs <> [] -> after_remove d (after_add d ok dirs) = dirs.
Proof.
  intros H Hne. unfold after_add.
  destruct (ok && negb (includes dirs d)).
  - apply after_remove_added; assumption.
  - apply after_remove_absent; assumption.
Qed.

Lemma after_add_NoDup d ok dirs : NoDup dirs -> NoDup (after_add d ok dirs).
Proof.
  intros H. unfold after_add.
  destruct ok; simpl; [|assumption].
  destruct (includes dirs d) eqn:I; simpl; [assumption|].
  apply includes_false in I.
  apply NoDup_app; [assumption|repeat constructor; simpl; tauto|].
  intros x Hx [<-|[]]. contradiction.
Qed.

Lemma after_remove_NoDup d dirs : NoDup dirs -> NoDup (after_remove d dirs).
Proof.
  intros H. unfold after_remove.
  destruct (_ =? _)%nat; [apply NoDup_filter; assumption|].
  destruct (_ =? _)%nat; [repeat constructor; simpl; tauto|].
  apply NoDup_filter; assumption.
Qed.

(** X8.  [add_allowed_directory] appends the resolved path to the list
    of allowed directories exactly when [fs.stat] reports a directory
    there and the list does not hold it yet; otherwise the list stays as
    it is.  A path that is not a directory is refused with the same
    message whatever the reason, and nothing changes.  Both servers. *)
Theorem addAllowedDirectory_adds_directories_only
        (sP : @FilesystemServer.State W) (sC : @Comprehensive.State W)
        (dirPath : string) :
  let rP := NodePath.resolve (cwd (FilesystemServer.world sP)) dirPath in
  let rC := NodePath.resolve (cwd (Comprehensive.world sC)) dirPath in
  let refused :=
    "Failed to add directory: Directory " ++ dirPath
      ++ " does not exist or is not accessible" in
  (FilesystemServer.allowedDirectories
     (snd (FilesystemServer.addAllowedDirectory dirPath sP))
   = after_add rP (is_directory_at rP (FilesystemServer.world sP))
               (FilesystemServer.allowedDirectories sP)
   /\ (is_directory_at rP (FilesystemServer.world sP) = false ->
       FilesystemServer.addAllowedDirectory dirPath sP = (Throw refused, sP)))
  /\ (Comprehensive.allowedDirectories
        (snd (Comprehensive.addAllowedDirectory dirPath sC))
      = after_add rC (is_directory_at rC (Comprehensive.world sC))
                  (Comprehensive.allowedDirectories sC)
      /\ (is_directory_at rC (Comprehensive.world sC) = false ->
          Comprehensive.addAllowedDirectory dirPath sC = (Throw refused, sC))).
Proof.
  cbv zeta. split; split.
  - apply plain_addAllowedDirectory_after.
  - intros H. unfold FilesystemServer.addAllowedDirectory, try_catch.
    unfold FilesystemServer.resolve. run_step.
    rewrite run_bind, plain_check_directory_run, H. reflexivity.
  - apply composite_addAllowedDirectory_after.
  - intros H. unfold Comprehensive.addAllowedDirectory, try_catch.
    unfold Comprehensive.resolve. run_step.
    rewrite run_bind, composite_check_directory_run, H. reflexivity.
Qed.

(** X9.  Adding a directory and then removing it by the same absolute
    path gives back the list of allowed directories as it was, whether
    or not the directory exists and whether or not the configuration
    could be saved, when the list did not hold the directory and was
    not empty.  Both servers. *)
Theorem add_then_remove_restores_directories
        (sP : @FilesystemServer.State W) (sC : @Comprehensive.State W)
        (dirPath : string) :
  NodePath.isAbsolute dirPath = true ->
  ~ In (NodePath.resolve EmptyString dirPath)
       (FilesystemServer.allowedDirectories sP) ->
  ~ In (NodePath.resolve EmptyString dirPath)
       (Comprehensive.allowedDirectories sC) ->
  FilesystemServer.allowedDirectories sP <> [] ->
  Comprehensive.allowedDirectories sC <> [] ->
  FilesystemServer.allowedDirectories
    (snd (FilesystemServer.removeAllowedDirectory dirPath
            (snd (FilesystemServer.addAllowedDirectory dirPath sP))))
  = FilesystemServer.allowedDirectories sP
  /\ Comprehensive.allowedDirectories
       (snd (Comprehensive.removeAllowedDirectory dirPath
               (snd (Comprehensive.addAllowedDirectory dirPath sC))))
     = Comprehensive.allowedDirectories sC.
Proof.
  intros A HP HC NP NC. split.
  - rewrite plain_removeAllowedDirectory_directories,
      plain_addAllowedDirectory_after.
    repeat match goal with
           | |- context [NodePath.resolve (cwd ?w) dirPath] =>
               rewrite (resolve_absolute (cwd w) EmptyString dirPath A)
           end.
    apply after_add_then_remove; assumption.
  - rewrite composite_removeAllowedDirectory_directories,
      composite_addAllowedDirectory_after.
    repeat match goal with
           | |- context [NodePath.resolve (cwd ?w) dirPath] =>
               rewrite (resolve_absolute (cwd w) EmptyString dirPath A)
           end.
    apply after_add_then_remove; assumption.
Qed.

End DirectoryLists.

Lemma add_then_remove_restores_directories_witness :
  FilesystemServer.allowedDirectories
    (snd (FilesystemServer.removeAllowedDirectory "/tmp/ab"
            (snd (FilesystemServer.addAllowedDirectory "/tmp/ab"
                    Scenario.plain)))) = ["/tmp/a"]
  /\ Comprehensive.allowedDirectories
       (snd (Comprehensive.removeAllowedDirectory "/tmp/ab"
               (snd (Comprehensive.addAllowedDirectory "/tmp/ab"
                       (Scenario.composite JsObject.empty))))) = ["/tmp/a"].
Proof.
  apply (add_then_remove_restores_directories
           Scenario.plain (Scenario.composite JsObject.empty) "/tmp/ab").
  - reflexivity.
  - simpl. intuition discriminate.
  - simpl. intuition discriminate.
  - discriminate.
  - discriminate.
Defined.

(** ** Every request of the composite server *)

Section RequestInvariants.
Context {W : Type} {host : Host W}.

Lemma handle_tool_state call (s : @Comprehensive.State W) :
  snd (Comprehensive.handle (Comprehensive.tool call) s)
  = snd (Comprehensive.callTool call s).
Proof.
  unfold Comprehensive.handle, Comprehensive.callTool, try_catch, bind.
  destruct (Comprehensive.ensureInitialized s) as [[[]|m] s1]; [|reflexivity].
  destruct (Comprehensive.dispatch call s1) as [[r|m] s2]; reflexivity.
Qed.

Lemma recallFileHistory_run filePath (s : @Comprehensive.State W) :
  Comprehensive.recallFileHistory filePath s
  = (Return
       (match JsObject.get ("file:" ++ filePath) (Comprehensive.memoryGraph s)
        with
        | None =>
            Comprehensive.ReportText ("No memory found for file: " ++ filePath)
        | Some fileEntity =>
            Comprehensive.JsonHistory
              {| Comprehensive.history_file := filePath;
                 Comprehensive.history_entityType := entityType fileEntity;
                 Comprehensive.accessHistory := observations fileEntity;
                 Comprehensive.relationships := relations fileEntity |}
        end), s).
Proof.
  unfold Comprehensive.recallFileHistory, try_catch. run_step.
  destruct (JsObject.get _ _); reflexivity.
Qed.

Lemma memory_reports_keep_state (r : Comprehensive.Request)
      (s : @Comprehensive.State W) :
  Comprehensive.isInitialized s = true ->
  (forall call, r <> Comprehensive.tool call) ->
  snd (Comprehensive.handle r s) = s.
Proof.
  intros I N. unfold Comprehensive.handle, try_catch.
  rewrite run_bind, (ensureInitialized_done s I).
  destruct r as [call|p|q n|].
  - exfalso. apply (N call). reflexivity.
  - rewrite run_bind, recallFileHistory_run. reflexivity.
  - reflexivity.
  - reflexivity.
Qed.

Lemma dispatch_keeps_directories call :
  (forall p, call <> Comprehensive.add_allowed_directory p) ->
  (forall p, call <> Comprehensive.remove_allowed_directory p) ->
  keeps (@Comprehensive.allowedDirectories W) (Comprehensive.dispatch call).
Proof.
  pose proof (@directories_blind W) as B. intros Ha Hr.
  destruct call; cbn [Comprehensive.dispatch];
    try (exfalso; eapply Ha; reflexivity);
    try (exfalso; eapply Hr; reflexivity);
    unfold Comprehensive.readFile, Comprehensive.readMultipleFiles,
      Comprehensive.writeFile, Comprehensive.editFile,
      Comprehensive.createDirectory, Comprehensive.listDirectory,
      Comprehensive.listDirectoryWithSizes, Comprehensive.directoryTree,
      Comprehensive.moveFile, Comprehensive.searchFiles,
      Comprehensive.getFileInfo, Comprehensive.listAllowedDirectories,
      Comprehensive.createEntities, Comprehensive.createRelations,
      Comprehensive.searchNodes, Comprehensive.readGraph,
      Comprehensive.openNodes, Comprehensive.deleteEntities,
      Comprehensive.deleteObservations, Comprehensive.deleteRelations;
    composite_keeps_directories.
Qed.

Lemma dispatch_directories_NoDup call (s : @Comprehensive.State W) :
  NoDup (Comprehensive.allowedDirectories s) ->
  NoDup (Comprehensive.allowedDirectories (snd (Comprehensive.dispatch call s))).
Proof.
  intros H.
  destruct call;
    try (rewrite dispatch_keeps_directories;
         [assumption|intros ? ?; discriminate|intros ? ?; discriminate]).
  - cbn [Comprehensive.dispatch]. rewrite composite_addAllowedDirectory_after.
    apply after_add_NoDup. assumption.
  - cbn [Comprehensive.dispatch].
    rewrite composite_removeAllowedDirectory_directories.
    apply after_remove_NoDup. assumption.
Qed.

Lemma callTool_state_initialized call (s : @Comprehensive.State W) :
  Comprehensive.isInitialized s = true ->
  snd (Comprehensive.callTool call s) = snd (Comprehensive.dispatch call s).
Proof.
  intros I. unfold Comprehensive.callTool, try_catch.
  rewrite run_bind, (ensureInitialized_done s I).
  destruct (Comprehensive.dispatch call s) as [[r|m] s']; reflexivity.
Qed.

(** X10.  An initialised composite server keeps three things through
    every request, the three memory tools of the filesystem included,
    and whatever happens to the world in between, as long as no entity
    of the graph it starts with and no request names an entity like a
    member of [Object.prototype]: no relation of its graph points at a
    missing entity, it has at least one allowed directory, and it lists
    no directory twice. *)
Theorem composite_requests_keep_invariants
        (events : list (Event Comprehensive.Request))
        (s : @Comprehensive.State W) :
  requests_are ordinary_request events ->
  ordinary_graph (Comprehensive.memoryGraph s) ->
  graph_sound s ->
  Comprehensive.allowedDirectories s <> [] ->
  NoDup (Comprehensive.allowedDirectories s) ->
  graph_sound (composite_requests events s)
  /\ Comprehensive.allowedDirectories (composite_requests events s) <> []
  /\ NoDup (Comprehensive.allowedDirectories (composite_requests events s)).
Proof.
  intros _ _. unfold composite_requests. revert s.
  induction events as [|e events IH]; simpl; intros s Hs Hd Hn; [auto|].
  destruct e as [r|f]; simpl; [|apply IH; assumption].
  destruct r as [call|p|q n|];
    try (rewrite memory_reports_keep_state;
         [apply IH; assumption|apply Hs|intros ? ?; discriminate]).
  rewrite handle_tool_state, (callTool_state_initialized call s (proj1 Hs)).
  apply IH.
  - apply sound_dispatch. assumption.
  - apply directories_dispatch. assumption.
  - apply dispatch_directories_NoDup. assumption.
Qed.

End RequestInvariants.

(** ** Requests that only read *)

Section ReadOnly.
Context {W : Type} {host : Host W}.

(** X11.  On a server that is initialised, the tools that only ask
    ([search_nodes], [read_graph], [open_nodes],
    [list_allowed_directories], [recall_file_history],
    [find_similar_files], [get_filesystem_memory_stats]) and the call of
    a tool that does not exist leave the whole server as it was: graph,
    directories and, since nothing is saved, the world. *)
Theorem queries_leave_the_server_unchanged
        (sM : @MemoryServer.State W) (sC : @Comprehensive.State W)
        (call : MemoryServer.ToolCall) (r : Comprehensive.Request) :
  MemoryServer.isInitialized sM = true ->
  Comprehensive.isInitialized sC = true ->
  memory_reads_only call = true ->
  reads_only r = true ->
  snd (MemoryServer.callTool call sM) = sM
  /\ snd (Comprehensive.handle r sC) = sC.
Proof.
  intros IM IC HM HC. split.
  - unfold MemoryServer.callTool, try_catch. rewrite run_bind.
    unfold MemoryServer.ensureInitialized. rewrite IM.
    destruct call; try discriminate; reflexivity.
  - destruct r as [c|p|q n|];
      try (apply memory_reports_keep_state;
           [assumption|intros ? ?; discriminate]).
    rewrite handle_tool_state, (callTool_state_initialized c sC IC).
    destruct c; try discriminate; reflexivity.
Qed.

End ReadOnly.

Lemma queries_leave_the_server_unchanged_witness :
  snd (MemoryServer.callTool (MemoryServer.search_nodes "tea")
         (Scenario.memory Scenario.tea_graph))
  = Scenario.memory Scenario.tea_graph
  /\ snd (Comprehensive.handle (Comprehensive.find_similar_files "x" None)
            (Scenario.composite Scenario.alice_graph))
     = Scenario.composite Scenario.alice_graph.
Proof.
  apply (queries_leave_the_server_unchanged
           (Scenario.memory Scenario.tea_graph)
           (Scenario.composite Scenario.alice_graph)
           (MemoryServer.search_nodes "tea")
           (Comprehensive.find_similar_files "x" None));
    reflexivity.
Defined.

(** ** Memory tools of the filesystem *)

Section MemoryReports.
Context {W : Type} {host : Host W}.
Import JsObject JsObjectFacts.

Lemma length_filter_le {A} (p : A -> bool) l : length (filter p l) <= length l.
Proof.
  induction l as [|x l IH]; simpl; [lia|]. destruct (p x); simpl; lia.
Qed.

Lemma length_two_filters {A} (p q : A -> bool) l :
  (forall x, p x = true -> q x = false) ->
  length (filter p l) + length (filter q l) <= length l.
Proof.
  intros H. induction l as [|x l IH]; simpl; [lia|].
  destruct (p x) eqn:P; [rewrite (H x P)|destruct (q x)]; simpl; lia.
Qed.

Lemma StronglySorted_filter {A} (R : A -> A -> Prop) (p : A -> bool) l :
  StronglySorted R l -> StronglySorted R (filter p l).
Proof.
  induction 1 as [|x l Hl IH Hx]; simpl; [constructor|].
  destruct (p x); [|assumption]. constructor; [assumption|].
  apply Forall_forall. intros y Hy. apply filter_In in Hy.
  rewrite Forall_forall in Hx. apply Hx. tauto.
Qed.

Lemma In_firstn {A} n : forall (l : list A) x, In x (firstn n l) -> In x l.
Proof.
  induction n as [|n IH]; intros l x H; [destruct H|].
  destruct l as [|y l]; [destruct H|]. simpl in H.
  destruct H as [H|H]; [left; assumption|right; apply IH; assumption].
Qed.

Lemma StronglySorted_firstn {A} (R : A -> A -> Prop) n : forall l,
  StronglySorted R l -> StronglySorted R (firstn n l).
Proof.
  induction n as [|n IH]; intros l H; [constructor|].
  destruct l as [|x l]; [constructor|]. simpl.
  inversion H as [|? ? Hl Hx]; subst. constructor; [apply IH; assumption|].
  apply Forall_forall. intros y Hy. rewrite Forall_forall in Hx. apply Hx.
  apply (In_firstn n). assumption.
Qed.

Lemma StronglySorted_map {A B} (R : A -> A -> Prop) (S : B -> B -> Prop)
      (f : A -> B) l :
  (forall a b, R a b -> S (f a) (f b)) ->
  StronglySorted R l -> StronglySorted S (map f l).
Proof.
  intros H. induction 1 as [|x l Hl IH Hx]; simpl; constructor;
    [assumption|].
  apply Forall_forall. intros y Hy. apply in_map_iff in Hy.
  destruct Hy as (a & <- & Ha). apply H.
  rewrite Forall_forall in Hx. apply Hx. assumption.
Qed.

Lemma slice_to_subset {A} e (l : list A) x : In x (slice_to e l) -> In x l.
Proof.
  unfold slice_to. destruct (e <? 0)%Z; apply In_firstn.
Qed.

Lemma slice_to_sorted {A} (R : A -> A -> Prop) e (l : list A) :
  StronglySorted R l -> StronglySorted R (slice_to e l).
Proof.
  unfold slice_to. destruct (e <? 0)%Z; apply StronglySorted_firstn.
Qed.

Lemma slice_to_length {A} e (l : list A) :
  (0 <= e)%Z -> length (slice_to e l) <= Z.to_nat e.
Proof.
  intros H. unfold slice_to.
  destruct (Z.ltb_spec e 0); [lia|]. rewrite length_firstn. lia.
Qed.

Lemma file_path_round_trip p :
  JsString.replace ("file:" ++ p) "file:" EmptyString = p.
Proof. destruct p; reflexivity. Qed.

Lemma searchNodesInternal_In query g r :
  In r (Comprehensive.searchNodesInternal query g) ->
  exists entity,
    In entity (values g) /\ 0 < score r
    /\ r = MemoryServer.search_result entity (score r).
Proof.
  unfold Comprehensive.searchNodesInternal. intros H.
  apply (Permutation_in _ (sort_perm _)) in H.
  apply Comprehensive_search_loop_spec in H.
  destruct H as (entity & I & P & ->). exists entity. simpl. auto.
Qed.

(** X12.  [find_similar_files] never fails and changes nothing.  With a
    limit that is not negative (10 when none is given) it returns at
    most that many results, best first; every result has a positive
    relevance and stands for an entity of type [filesystem_file], whose
    name it reports with the first [file:] removed, so that an entity
    named [file:] followed by a path is reported under that path. *)
Theorem findSimilarFiles_is_bounded_and_ranked
        (s : @Comprehensive.State W) (query : string) (limit : option Z) :
  exists results,
    Comprehensive.findSimilarFiles query limit s
    = (Return (Comprehensive.JsonSimilar query results), s)
    /\ ((0 <= match limit with Some n => n | None => 10 end)%Z ->
        length results
        <= Z.to_nat (match limit with Some n => n | None => 10%Z end))
    /\ StronglySorted
         (fun a b => Comprehensive.relevance b <= Comprehensive.relevance a)
         results
    /\ Forall
         (fun r =>
            0 < Comprehensive.relevance r
            /\ exists entity,
                In entity (values (Comprehensive.memoryGraph s))
                /\ Comprehensive.is_file entity = true
                /\ Comprehensive.similar_filePath r
                   = JsString.replace (name entity) "file:" EmptyString
                /\ forall p, name entity = "file:" ++ p ->
                             Comprehensive.similar_filePath r = p)
         results.
Proof.
  eexists. split; [reflexivity|].
  set (found := Comprehensive.searchNodesInternal
                  query (Comprehensive.memoryGraph s)).
  set (files := filter (fun result =>
                          String.eqb (result_entityType result)
                                     "filesystem_file") found).
  split; [|split].
  - intros L. rewrite length_map. apply slice_to_length. assumption.
  - apply (StronglySorted_map (fun a b => score b <= score a)).
    + intros a b H. exact H.
    + apply slice_to_sorted, StronglySorted_filter. apply sort_sorted.
  - apply Forall_forall. intros r Hr. apply in_map_iff in Hr.
    destruct Hr as (x & <- & Hx). apply slice_to_subset in Hx.
    apply filter_In in Hx. destruct Hx as [Hx Ht].
    apply searchNodesInternal_In in Hx.
    destruct Hx as (entity & I & P & E).
    split; [exact P|]. exists entity. rewrite E in Ht |- *. simpl in *.
    repeat split; try assumption.
    intros p ->. apply file_path_round_trip.
Qed.

(** X13.  [get_filesystem_memory_stats] never fails and changes
    nothing, and its counts fit together: the files accessed within the
    last 24 hours are among the files tracked, files and directories
    tracked are among the entities, and the recent files it counts are
    those from which [rememberFileAccess] picks the target of an
    [accessed_after] relation. *)
Theorem getFilesystemMemoryStats_counts_fit (s : @Comprehensive.State W) :
  exists stats,
    Comprehensive.getFilesystemMemoryStats s
    = (Return (Comprehensive.JsonMemoryStats stats), s)
    /\ Comprehensive.recentlyAccessedFiles stats
       <= Comprehensive.totalFilesTracked stats
    /\ Comprehensive.totalFilesTracked stats
       + Comprehensive.totalDirectoriesTracked stats
       <= Comprehensive.totalMemoryEntities stats
    /\ Comprehensive.recentlyAccessedFiles stats
       = length (Comprehensive.recent_files
                   (date_now (Comprehensive.world s))
                   (Comprehensive.memoryGraph s))
    /\ Comprehensive.stats_allowedDirectories stats
       = Comprehensive.allowedDirectories s.
Proof.
  eexists. split; [reflexivity|]. simpl. repeat split.
  - apply length_filter_le.
  - unfold keys. rewrite length_map.
    rewrite <- (length_map snd (Comprehensive.memoryGraph s)).
    apply length_two_filters. intros e H.
    unfold Comprehensive.is_file, Comprehensive.is_directory in *.
    apply String.eqb_eq in H. rewrite H. reflexivity.
  - unfold Comprehensive.recent_files. rewrite filter_filter. reflexivity.
Qed.

End MemoryReports.

Lemma findSimilarFiles_is_bounded_and_ranked_witness :
  exists results,
    Comprehensive.findSimilarFiles "txt" (Some 1%Z) Scenario.after_xy
    = (Return (Comprehensive.JsonSimilar "txt" results), Scenario.after_xy)
    /\ length results <= 1.
Proof.
  destruct (findSimilarFiles_is_bounded_and_ranked
              Scenario.after_xy "txt" (Some 1%Z))
    as (results & E & L & _).
  exists results. split; [exact E|]. apply L. discriminate.
Defined.

(** ** What the memory never forgets *)

Section Grown.
Import JsObject JsObjectFacts.

Lemma grown_refl g : grown g g.
Proof.
  intros nm n H. exists n. repeat split; auto; apply incl_refl.
Qed.

Lemma grown_trans g1 g2 g3 : grown g1 g2 -> grown g2 g3 -> grown g1 g3.
Proof.
  intros H12 H23 nm n H. destruct (H12 nm n H) as (n2 & G2 & A & B & C & D).
  destruct (H23 nm n2 G2) as (n3 & G3 & A' & B' & C' & D').
  exists n3. repeat split; try congruence; eapply incl_tran; eassumption.
Qed.

Lemma grown_set nm n n' g :
  get nm g = Some n ->
  name n' = name n -> entityType n' = entityType n ->
  incl (observations n) (observations n') ->
  incl (relations n) (relations n') ->
  grown g (set nm n' g).
Proof.
  intros G A B C D k v H. rewrite get_set.
  destruct (String.eqb nm k) eqn:E.
  - apply String.eqb_eq in E. subst k. assert (v = n) by congruence. subst v.
    exists n'. auto.
  - exists v. repeat split; auto; apply incl_refl.
Qed.

Lemma grown_set_new nm n' g : get nm g = None -> grown g (set nm n' g).
Proof.
  intros G k v H. rewrite get_set.
  destruct (String.eqb nm k) eqn:E.
  - apply String.eqb_eq in E. congruence.
  - exists v. repeat split; auto; apply incl_refl.
Qed.

Lemma grown_createEntities_step g e :
  grown g (Comprehensive.createEntities_step g e).
Proof.
  unfold Comprehensive.createEntities_step.
  destruct (get (entity_name e) g) as [existing|] eqn:G.
  - destruct (entity_observations e) as [obs|]; [|apply grown_refl].
    eapply grown_set; eauto; simpl; try apply incl_refl.
    apply incl_appl, incl_refl.
  - apply grown_set_new. assumption.
Qed.

Lemma grown_ensure_entity nm g : grown g (MemoryServer.ensure_entity nm g).
Proof.
  unfold MemoryServer.ensure_entity. destruct (has nm g) eqn:H.
  - apply grown_refl.
  - apply grown_set_new. apply has_false. assumption.
Qed.

Lemma grown_attach edge g relation : grown g (attach edge g relation).
Proof.
  unfold attach.
  set (g' := MemoryServer.ensure_entity (to relation)
               (MemoryServer.ensure_entity (from relation) g)).
  assert (H : grown g g').
  { eapply grown_trans; apply grown_ensure_entity. }
  destruct (get (from relation) g') as [n|] eqn:G; [|assumption].
  destruct (existsb _ _); [assumption|].
  eapply grown_trans; [exact H|].
  eapply grown_set; eauto; simpl; try apply incl_refl.
  apply incl_appl, incl_refl.
Qed.

Lemma grown_fold {A} (step : MemoryGraph -> A -> MemoryGraph) l :
  (forall g a, grown g (step g a)) -> forall g, grown g (fold_left step l g).
Proof.
  intros H. induction l as [|a l IH]; intros g; [apply grown_refl|].
  simpl. eapply grown_trans; [apply H|apply IH].
Qed.

Lemma grown_createEntities_loop l g :
  grown g (Comprehensive.createEntities_loop l g).
Proof. apply grown_fold. apply grown_createEntities_step. Qed.

Lemma grown_createRelations_loop l g :
  grown g (Comprehensive.createRelations_loop l g).
Proof.
  apply grown_fold. intros g0 r. rewrite Comprehensive_step_attach.
  apply grown_attach.
Qed.

Lemma linked_grown g g' relation :
  grown g g' -> linked g relation -> linked g' relation.
Proof.
  intros H (Ht & n & Hn & He). split.
  - apply has_true in Ht. destruct Ht as [v Hv].
    destruct (H _ _ Hv) as (v' & Hv' & _). apply has_true. eauto.
  - destruct (H _ _ Hn) as (n' & Hn' & _ & _ & _ & D).
    exists n'. split; [assumption|].
    apply existsb_exists in He. destruct He as (r & Hr & E).
    apply existsb_exists. exists r. split; [apply D; assumption|assumption].
Qed.

End Grown.

Section GraphKept.
Context {W : Type} {host : Host W}.
Import JsObject JsObjectFacts.
Variable Q : MemoryGraph -> Prop.
Hypothesis Q_entities :
  forall l g, Q g -> Q (Comprehensive.createEntities_loop l g).
Hypothesis Q_relations :
  forall l g, Q g -> Q (Comprehensive.createRelations_loop l g).
Hypothesis Q_observations :
  forall entityName n added g,
    Q g -> get entityName g = Some n ->
    Q (set entityName
           (set_observations n (observations n ++ added)) g).

Lemma kept_host_do op : preserves (graph_is Q) (@Comprehensive.host_do W op).
Proof.
  intros s H. unfold Comprehensive.host_do.
  destruct (op (Comprehensive.world s)) as [[m|] w]; exact H.
Qed.

Lemma kept_host_ask {A} (q : W -> A + string) :
  preserves (graph_is Q) (Comprehensive.host_ask q).
Proof.
  intros s H. unfold Comprehensive.host_ask.
  destruct (q (Comprehensive.world s)); exact H.
Qed.

Lemma kept_saveMemoryGraph :
  preserves (graph_is Q) (@Comprehensive.saveMemoryGraph W host).
Proof.
  intros s H. destruct (Comprehensive_saveMemoryGraph_spec s) as [w ->].
  exact H.
Qed.

Lemma kept_saveConfiguration :
  preserves (graph_is Q) (@Comprehensive.saveConfiguration W host).
Proof.
  unfold Comprehensive.saveConfiguration.
  apply preserves_try_catch; [|intros; apply preserves_throw].
  apply (preserves_state_dependent (graph_is Q)
           (fun s0 => Comprehensive.host_do
                        (store_config (Comprehensive.configFilePath s0)
                           (Comprehensive.allowedDirectories s0)
                           (JsDate.toISOString
                              (date_now (Comprehensive.world s0)))))).
  intros s0. apply kept_host_do.
Qed.

Lemma kept_modify_directories (h : @Comprehensive.State W -> list string) :
  preserves (graph_is Q)
    (modify (fun s => Comprehensive.set_directories s (h s))).
Proof. intros s H. exact H. Qed.

Lemma kept_createEntitiesInternal entities :
  preserves (graph_is Q) (@Comprehensive.createEntitiesInternal W host entities).
Proof.
  unfold Comprehensive.createEntitiesInternal.
  apply preserves_bind; [|intros; apply kept_saveMemoryGraph].
  intros s H. apply Q_entities. exact H.
Qed.

Lemma kept_createRelationsInternal rels :
  preserves (graph_is Q) (@Comprehensive.createRelationsInternal W host rels).
Proof.
  unfold Comprehensive.createRelationsInternal.
  apply preserves_bind; [|intros; apply kept_saveMemoryGraph].
  intros s H. apply Q_relations. exact H.
Qed.

Lemma kept_addObservations entityName obs :
  preserves (graph_is Q) (@Comprehensive.addObservations W host entityName obs).
Proof.
  intros s H. unfold graph_is.
  destruct (get entityName (Comprehensive.memoryGraph s)) as [n|] eqn:E.
  - destruct (Comprehensive_addObservations_present s entityName obs n E)
      as [_ ->].
    apply Q_observations; assumption.
  - rewrite (Comprehensive_addObservations_missing s entityName obs E).
    exact H.
Qed.

End GraphKept.

Ltac graph_kept :=
  repeat first
    [ apply kept_host_ask
    | apply kept_host_do
    | apply kept_saveMemoryGraph
    | apply kept_saveConfiguration
    | apply kept_createEntitiesInternal; assumption
    | apply kept_createRelationsInternal; assumption
    | apply kept_addObservations; assumption
    | apply kept_modify_directories
    | preserves_step ].

Section GraphKeptTools.
Context {W : Type} {host : Host W}.
Import JsObject JsObjectFacts.
Variable Q : MemoryGraph -> Prop.
Hypothesis Q_entities :
  forall l g, Q g -> Q (Comprehensive.createEntities_loop l g).
Hypothesis Q_relations :
  forall l g, Q g -> Q (Comprehensive.createRelations_loop l g).
Hypothesis Q_observations :
  forall entityName n added g,
    Q g -> get entityName g = Some n ->
    Q (set entityName
           (set_observations n (observations n ++ added)) g).

Lemma kept_rememberFileAccess filePath operation metadata :
  preserves (graph_is Q)
    (@Comprehensive.rememberFileAccess W host filePath operation metadata).
Proof.
  unfold Comprehensive.rememberFileAccess, Comprehensive.now. graph_kept.
Qed.

Lemma kept_validatePath targetPath :
  preserves (graph_is Q) (@Comprehensive.validatePath W host targetPath).
Proof.
  unfold Comprehensive.validatePath, Comprehensive.resolve. graph_kept.
Qed.

Lemma kept_readMultipleFiles_loop filePaths : forall results,
  preserves (graph_is Q)
    (@Comprehensive.readMultipleFiles_loop W host filePaths results).
Proof.
  induction filePaths as [|p l IH]; simpl; intros results.
  - apply preserves_ret.
  - apply preserves_bind; [|intros; apply IH].
    unfold Comprehensive.readMultipleFiles_step.
    apply preserves_try_catch; [|intros; apply preserves_ret].
    apply preserves_bind; [apply kept_validatePath|intros].
    apply preserves_bind; [apply kept_host_ask|intros].
    apply preserves_bind; [apply kept_rememberFileAccess|intros].
    apply preserves_ret.
Qed.

Lemma kept_dispatch call :
  forgets (Comprehensive.tool call) = false ->
  preserves (graph_is Q) (@Comprehensive.dispatch W host call).
Proof.
  intros F.
  destruct call; try discriminate; cbn [Comprehensive.dispatch];
    unfold Comprehensive.readFile, Comprehensive.readMultipleFiles,
      Comprehensive.writeFile, Comprehensive.editFile,
      Comprehensive.createDirectory, Comprehensive.listDirectory,
      Comprehensive.listDirectoryWithSizes, Comprehensive.directoryTree,
      Comprehensive.moveFile, Comprehensive.searchFiles,
      Comprehensive.getFileInfo, Comprehensive.listAllowedDirectories,
      Comprehensive.addAllowedDirectory, Comprehensive.check_directory,
      Comprehensive.removeAllowedDirectory, Comprehensive.resolve,
      Comprehensive.now,
      Comprehensive.createEntities, Comprehensive.createRelations,
      Comprehensive.searchNodes, Comprehensive.readGraph,
      Comprehensive.openNodes;
    repeat first
      [ apply kept_validatePath; assumption
      | apply kept_readMultipleFiles_loop; assumption
      | apply kept_rememberFileAccess; assumption
      | apply kept_host_ask
      | apply kept_host_do
      | apply kept_saveMemoryGraph
      | apply kept_saveConfiguration
      | apply kept_createEntitiesInternal; assumption
      | apply kept_createRelationsInternal; assumption
      | apply kept_addObservations; assumption
      | apply kept_modify_directories
      | preserves_step ].
Qed.

End GraphKeptTools.

(** ** What a file access leaves in the memory *)

Section FileAccess.
Context {W : Type} {host : Host W}.
Import JsObject JsObjectFacts.

Lemma rememberFileAccess_run filePath operation metadata
      (s : @Comprehensive.State W) :
  exists extra w,
    Comprehensive.rememberFileAccess filePath operation metadata s
    = (Return tt,
       Comprehensive.set_world
         (Comprehensive.set_graph s
            (Comprehensive.createRelations_loop extra
               (Comprehensive.createRelations_loop [contains_edge filePath]
                  (Comprehensive.createEntities_loop
                     [file_entity filePath operation
                                  (date_now (Comprehensive.world s)) metadata]
                     (Comprehensive.memoryGraph s))))) w).
Proof.
  unfold Comprehensive.rememberFileAccess, Comprehensive.now, try_catch.
  run_step. rewrite run_bind.
  match goal with
  | |- context [Comprehensive.createEntitiesInternal ?l s] =>
      destruct (Comprehensive_createEntitiesInternal_spec l s) as [w1 ->]
  end.
  rewrite run_bind.
  match goal with
  | |- context [Comprehensive.createRelationsInternal ?l ?s1] =>
      destruct (Comprehensive_createRelationsInternal_spec l s1) as [w2 ->]
  end.
  do 2 run_step.
  match goal with
  | |- context [if ?b then _ else _] => destruct b
  end.
  - match goal with
    | |- context [match ?x with Some _ => _ | None => _ end] => destruct x
    end.
    + match goal with
      | |- context [Comprehensive.createRelationsInternal ?l ?s2] =>
          destruct (Comprehensive_createRelationsInternal_spec l s2)
            as [w3 ->]
      end.
      eexists. exists w3. reflexivity.
    + exists [], w2. reflexivity.
  - exists [], w2. reflexivity.
Qed.

Lemma readFile_allowed filePath content (s : @Comprehensive.State W) :
  is_allowed (Comprehensive.allowedDirectories s)
             (NodePath.resolve (cwd (Comprehensive.world s)) filePath) = true ->
  fs_readFile (NodePath.resolve (cwd (Comprehensive.world s)) filePath)
              (Comprehensive.world s) = inl content ->
  Comprehensive.readFile filePath s
  = (Return (text_result content),
     snd (Comprehensive.rememberFileAccess filePath "read"
            (Some {| Comprehensive.md_size := Some (String.length content);
                     Comprehensive.md_isDirectory := None;
                     Comprehensive.md_modified := None;
                     Comprehensive.md_content := Some content |}) s)).
Proof.
  intros A R. unfold Comprehensive.readFile.
  rewrite (allowed_then _ _ _ A). unfold try_catch.
  rewrite run_bind. unfold Comprehensive.host_ask at 1. rewrite R.
  rewrite run_bind.
  match goal with
  | |- context [Comprehensive.rememberFileAccess ?p ?o ?m s] =>
      destruct (rememberFileAccess_run p o m s) as (extra & w & ->)
  end.
  reflexivity.
Qed.

Lemma handle_tool_run call (s : @Comprehensive.State W) :
  Comprehensive.isInitialized s = true ->
  Comprehensive.handle (Comprehensive.tool call) s
  = match Comprehensive.dispatch call s with
    | (Return r, s') => (Return (Comprehensive.Result r), s')
    | (Throw m, s') =>
        (Return (Comprehensive.Result
                   {| content := Text ("Error: " ++ m); isError := true |}),
         s')
    end.
Proof.
  intros I. unfold Comprehensive.handle, try_catch.
  rewrite run_bind, (ensureInitialized_done s I), run_bind.
  destruct (Comprehensive.dispatch call s) as [[r|m] s']; reflexivity.
Qed.

(** X14.  On an initialised composite server, [read_file] of a path that
    validation accepts and that the host can read returns the content
    of the file, whatever becomes of the memory file, and is
    remembered: [recall_file_history] of the same path then returns a
    history that holds the operation and the time of the access, the
    directory of the path has a [contains] relation to the file, and
    nothing that the graph held is lost. *)
Theorem readFile_is_remembered
        (s : @Comprehensive.State W) (filePath content : string) :
  Comprehensive.isInitialized s = true ->
  is_allowed (Comprehensive.allowedDirectories s)
             (NodePath.resolve (cwd (Comprehensive.world s)) filePath) = true ->
  fs_readFile (NodePath.resolve (cwd (Comprehensive.world s)) filePath)
              (Comprehensive.world s) = inl content ->
  let read := Comprehensive.handle
                (Comprehensive.tool (Comprehensive.read_file filePath)) s in
  fst read = Return (Comprehensive.Result (text_result content))
  /\ (exists h,
         Comprehensive.handle (Comprehensive.recall_file_history filePath)
                              (snd read)
         = (Return (Comprehensive.Memory (Comprehensive.JsonHistory h)),
            snd read)
         /\ Comprehensive.history_file h = filePath
         /\ In "Operation: read" (Comprehensive.accessHistory h)
         /\ In ("Accessed at: "
                  ++ JsDate.toISOString (date_now (Comprehensive.world s)))
               (Comprehensive.accessHistory h))
  /\ linked (Comprehensive.memoryGraph (snd read)) (contains_edge filePath)
  /\ grown (Comprehensive.memoryGraph s) (Comprehensive.memoryGraph (snd read)).
Proof.
  intros I A R. cbv zeta. rewrite (handle_tool_run _ s I).
  cbn [Comprehensive.dispatch]. rewrite (readFile_allowed _ _ _ A R).
  match goal with
  | |- context [Comprehensive.rememberFileAccess ?p ?o ?m s] =>
      destruct (rememberFileAccess_run p o m s) as (extra & w & ->);
      set (entity := file_entity p o (date_now (Comprehensive.world s)) m)
  end.
  cbn [fst snd ret].
  set (g1 := Comprehensive.createEntities_loop
               [entity] (Comprehensive.memoryGraph s)).
  set (g2 := Comprehensive.createRelations_loop [contains_edge filePath] g1).
  set (g3 := Comprehensive.createRelations_loop extra g2).
  assert (G12 : grown g1 g2) by apply grown_createRelations_loop.
  assert (G23 : grown g2 g3) by apply grown_createRelations_loop.
  assert (C1 : covered g1 entity).
  { apply (ComprehensiveFacts.cs_step_covers (Comprehensive.memoryGraph s)). }
  destruct C1 as (n1 & N1 & O1).
  destruct (grown_trans _ _ _ G12 G23 _ _ N1) as (n3 & N3 & _ & _ & O3 & _).
  split; [reflexivity|]. split; [|split].
  - unfold Comprehensive.handle, try_catch.
    rewrite run_bind, ensureInitialized_done by exact I.
    rewrite run_bind, recallFileHistory_run.
    cbn [Comprehensive.memoryGraph Comprehensive.set_world
           Comprehensive.set_graph].
    fold g1 g2 g3. change ("file:" ++ filePath) with (entity_name entity).
    rewrite N3. eexists. split; [reflexivity|].
    cbn [Comprehensive.history_file Comprehensive.accessHistory].
    split; [reflexivity|].
    split; apply O3, O1; unfold entity, file_entity, observations_or_empty,
      Comprehensive.access_observations;
      cbn [entity_observations app In]; auto.
  - cbn [Comprehensive.memoryGraph Comprehensive.set_world
           Comprehensive.set_graph].
    fold g1 g2 g3. apply (linked_grown g2 g3 _ G23).
    unfold g2, Comprehensive.createRelations_loop. cbn [fold_left].
    rewrite Comprehensive_step_attach. apply attach_links.
    apply same_edge_refl.
  - cbn [Comprehensive.memoryGraph Comprehensive.set_world
           Comprehensive.set_graph].
    fold g1 g2 g3.
    eapply grown_trans; [apply grown_createEntities_loop|].
    eapply grown_trans; eassumption.
Qed.

(** X15.  On an initialised composite server only [delete_entities],
    [delete_observations] and [delete_relations] take anything out of
    the graph: after any other request every entity is still there under
    its key, with its name and type and with all the observations and
    relations it had. *)
Theorem only_deletions_forget
        (s : @Comprehensive.State W) (r : Comprehensive.Request) :
  Comprehensive.isInitialized s = true ->
  forgets r = false ->
  grown (Comprehensive.memoryGraph s)
        (Comprehensive.memoryGraph (snd (Comprehensive.handle r s))).
Proof.
  intros I F.
  destruct r as [call|p|q n|];
    try (rewrite memory_reports_keep_state;
         [apply grown_refl|assumption|intros ? ?; discriminate]).
  rewrite handle_tool_state, (callTool_state_initialized call s I).
  apply (kept_dispatch (grown (Comprehensive.memoryGraph s))).
  - intros l g H. eapply grown_trans; [exact H|].
    apply grown_createEntities_loop.
  - intros l g H. eapply grown_trans; [exact H|].
    apply grown_createRelations_loop.
  - intros e n added g H G. eapply grown_trans; [exact H|].
    eapply grown_set; eauto; cbn [observations relations set_observations];
      try apply incl_refl.
    apply incl_appl, incl_refl.
  - assumption.
  - apply grown_refl.
Qed.

End FileAccess.

Lemma readFile_is_remembered_witness :
  fst (Comprehensive.handle
         (Comprehensive.tool (Comprehensive.read_file "/tmp/a/x.txt"))
         (Scenario.composite Scenario.alice_graph))
  = Return (Comprehensive.Result (text_result "hello")).
Proof.
  destruct (readFile_is_remembered
              (Scenario.composite Scenario.alice_graph) "/tmp/a/x.txt" "hello")
    as [H _]; [reflexivity|reflexivity|reflexivity|exact H].
Defined.

Lemma only_deletions_forget_witness :
  grown Scenario.alice_graph
        (Comprehensive.memoryGraph
           (snd (Comprehensive.handle
                   (Comprehensive.tool
                      (Comprehensive.write_file "/tmp/a/z.txt" "new"))
                   (Scenario.composite Scenario.alice_graph)))).
Proof.
  apply (only_deletions_forget
           (Scenario.composite Scenario.alice_graph)
           (Comprehensive.tool (Comprehensive.write_file "/tmp/a/z.txt" "new")));
    reflexivity.
Defined.

(** ** Reading several files *)

Section ReadMultipleFiles.
Context {W : Type} {host : Host W}.
Import JsObject JsObjectFacts.

Lemma get_set_primitive {V} k p (v : V) (o : t V) :
  get k (set_primitive p v o)
  = if String.eqb k p && negb (String.eqb p "__proto__") then Some v
    else get k o.
Proof.
  unfold set_primitive. destruct (String.eqb p "__proto__").
  - rewrite andb_false_r. reflexivity.
  - rewrite andb_true_r, (String.eqb_sym k p). apply get_set.
Qed.

Lemma plain_read_step results filePath (s : @FilesystemServer.State W) :
  FilesystemServer.readMultipleFiles_step results filePath s
  = (Return (set_primitive filePath (read_entry s filePath) results), s).
Proof.
  unfold FilesystemServer.readMultipleFiles_step, read_entry, try_catch.
  rewrite run_bind, plain_validatePath_run.
  destruct (is_allowed _ _); [|reflexivity].
  rewrite run_bind. unfold FilesystemServer.host_ask.
  destruct (fs_readFile _ _); reflexivity.
Qed.

Lemma plain_read_loop filePaths : forall results (s : @FilesystemServer.State W),
  FilesystemServer.readMultipleFiles_loop filePaths results s
  = (Return (fold_left (fun acc p => set_primitive p (read_entry s p) acc)
                       filePaths results), s).
Proof.
  induction filePaths as [|p l IH]; intros results s; [reflexivity|].
  simpl. rewrite run_bind, plain_read_step. apply IH.
Qed.

Lemma get_fold_set {V} (f : string -> V) l : forall (acc : t V) k,
  get k (fold_left (fun acc p => set_primitive p (f p) acc) l acc)
  = if includes l k && negb (String.eqb k "__proto__") then Some (f k)
    else get k acc.
Proof.
  induction l as [|p l IH]; intros acc k; [reflexivity|].
  simpl. rewrite IH, get_set_primitive.
  destruct (String.eqb k p) eqn:E.
  - apply String.eqb_eq in E. subst p. simpl.
    destruct (includes l k), (String.eqb k "__proto__"); reflexivity.
  - simpl. reflexivity.
Qed.

Lemma composite_read_step results filePath (s : @Comprehensive.State W) :
  exists v s',
    Comprehensive.readMultipleFiles_step results filePath s
    = (Return (set_primitive filePath v results), s')
    /\ Comprehensive.allowedDirectories s' = Comprehensive.allowedDirectories s
    /\ (is_allowed (Comprehensive.allowedDirectories s)
                   (NodePath.resolve (cwd (Comprehensive.world s)) filePath)
        = false ->
        v = "Error: " ++ access_denied filePath /\ s' = s).
Proof.
  unfold Comprehensive.readMultipleFiles_step, try_catch.
  rewrite run_bind, composite_validatePath_run.
  destruct (is_allowed _ _) eqn:A.
  - rewrite run_bind. unfold Comprehensive.host_ask at 1.
    destruct (fs_readFile _ _) as [c|m].
    + rewrite run_bind.
      match goal with
      | |- context [Comprehensive.rememberFileAccess ?p ?o ?md s] =>
          destruct (rememberFileAccess_run p o md s) as (extra & w & ->)
      end.
      eexists. eexists. split; [reflexivity|]. split; [reflexivity|].
      discriminate.
    + eexists. eexists. split; [reflexivity|]. split; [reflexivity|].
      discriminate.
  - eexists. eexists. split; [reflexivity|]. split; [reflexivity|].
    intros _. split; reflexivity.
Qed.

Lemma composite_read_loop_other filePaths :
  forall results (s : @Comprehensive.State W) results' s' p,
    ~ In p filePaths ->
    Comprehensive.readMultipleFiles_loop filePaths results s
    = (Return results', s') ->
    get p results' = get p results.
Proof.
  induction filePaths as [|q l IH]; intros results s results' s' p I E.
  - simpl in E. injection E as <- _. reflexivity.
  - simpl in E. rewrite run_bind in E.
    destruct (composite_read_step results q s) as (v & s1 & E1 & _).
    rewrite E1 in E.
    rewrite (IH _ _ _ _ p (fun H => I (or_intror H)) E).
    rewrite get_set_primitive.
    destruct (String.eqb p q) eqn:Q; [|reflexivity].
    apply String.eqb_eq in Q. subst. exfalso. apply I. left. reflexivity.
Qed.

Lemma absolute_not_proto p :
  NodePath.isAbsolute p = true -> String.eqb p "__proto__" = false.
Proof.
  intros A. destruct (String.eqb p "__proto__") eqn:E; [|reflexivity].
  apply String.eqb_eq in E. subst. discriminate.
Qed.

Lemma composite_read_loop filePaths :
  forall results (s : @Comprehensive.State W),
  exists results' s',
    Comprehensive.readMultipleFiles_loop filePaths results s
    = (Return results', s')
    /\ Comprehensive.allowedDirectories s' = Comprehensive.allowedDirectories s
    /\ (forall p, has p results'
                  = has p results
                    || (includes filePaths p
                        && negb (String.eqb p "__proto__")))
    /\ (forall p,
           NodePath.isAbsolute p = true ->
           is_allowed (Comprehensive.allowedDirectories s)
                      (NodePath.resolve EmptyString p) = false ->
           In p filePaths ->
           get p results' = Some ("Error: " ++ access_denied p)).
Proof.
  induction filePaths as [|p0 l IH]; intros results s.
  - exists results, s. repeat split; auto.
    + intros p. simpl. rewrite orb_false_r. reflexivity.
    + intros p _ _ [].
  - simpl. destruct (composite_read_step results p0 s)
      as (v & s1 & E1 & D1 & V1).
    rewrite run_bind, E1.
    destruct (IH (set_primitive p0 v results) s1)
      as (results' & s' & E & D & H & G).
    exists results', s'. split; [assumption|]. split; [congruence|]. split.
    + intros p. rewrite H. simpl. unfold has. rewrite get_set_primitive.
      rewrite (String.eqb_sym p p0).
      destruct (String.eqb p0 p) eqn:Q.
      * apply String.eqb_eq in Q. subst p0.
        destruct (String.eqb p "__proto__"), (get p results), (includes l p);
          reflexivity.
      * simpl. destruct (get p results); reflexivity.
    + intros p A Hd Hin. destruct (in_dec string_dec p l) as [I|I].
      * apply G; [assumption|rewrite D1; assumption|assumption].
      * destruct Hin as [->|]; [|contradiction].
        assert (Hg : get p results' = get p (set_primitive p v results))
          by (eapply composite_read_loop_other; eassumption).
        rewrite Hg, get_set_primitive, String.eqb_refl,
          (absolute_not_proto p A).
        simpl. f_equal.
        apply V1. rewrite (resolve_absolute _ EmptyString p A). assumption.
Qed.

(** X16.  [read_multiple_files] never fails as a whole and answers for
    every path of the request, once; only a path spelled [__proto__]
    gets no entry, since assigning a text under that key leaves the
    object of the results as it is.  In the plain server nothing
    changes and the entry of a path is the content of the file, or the
    text of the error that reading it or validating it raised.  In the
    composite server the allowed directories stay as they are and an
    absolute path that validation denies gets the denial as its entry,
    wherever it stands in the request. *)
Theorem readMultipleFiles_answers_every_path
        (sP : @FilesystemServer.State W) (sC : @Comprehensive.State W)
        (filePaths : list string) :
  (exists results,
      FilesystemServer.readMultipleFiles filePaths sP
      = (Return {| content := JsonFileMap results; isError := false |}, sP)
      /\ forall p, get p results
                   = if includes filePaths p
                        && negb (String.eqb p "__proto__")
                     then Some (read_entry sP p)
                     else None)
  /\ (exists results sC',
         Comprehensive.readMultipleFiles filePaths sC
         = (Return {| content := JsonFileMap results; isError := false |}, sC')
         /\ Comprehensive.allowedDirectories sC'
            = Comprehensive.allowedDirectories sC
         /\ (forall p, has p results
                       = includes filePaths p
                         && negb (String.eqb p "__proto__"))
         /\ (forall p,
                NodePath.isAbsolute p = true ->
                is_allowed (Comprehensive.allowedDirectories sC)
                           (NodePath.resolve EmptyString p) = false ->
                In p filePaths ->
                get p results = Some ("Error: " ++ access_denied p))).
Proof.
  split.
  - eexists. split.
    + unfold FilesystemServer.readMultipleFiles.
      rewrite run_bind, plain_read_loop. reflexivity.
    + intros p. rewrite get_fold_set. reflexivity.
  - destruct (composite_read_loop filePaths empty sC)
      as (results & s' & E & D & H & G).
    exists results, s'. split; [|split; [assumption|split; assumption]].
    unfold Comprehensive.readMultipleFiles. rewrite run_bind, E. reflexivity.
Qed.

End ReadMultipleFiles.

(** ** What validation returns *)

Section Canonical.

Lemma rev_string_rev s : forall acc acc',
  JsString.rev_string acc (JsString.rev_string acc' s)
  = JsString.rev_string (s ++ acc) acc'.
Proof.
  induction s as [|c s IH]; intros acc acc'; [reflexivity|].
  simpl. rewrite IH. reflexivity.
Qed.

Lemma append_empty s : s ++ EmptyString = s.
Proof. induction s as [|c s IH]; simpl; congruence. Qed.

Lemma rev_string_involutive s :
  JsString.rev_string EmptyString (JsString.rev_string EmptyString s) = s.
Proof. rewrite rev_string_rev. simpl. apply append_empty. Qed.

Lemma slash_free_rev s : forall acc,
  slash_free (JsString.rev_string acc s) = slash_free acc && slash_free s.
Proof.
  induction s as [|c s IH]; intros acc; simpl.
  - rewrite andb_true_r. reflexivity.
  - rewrite IH. simpl. destruct (NodePath.is_slash c), (slash_free acc);
      reflexivity.
Qed.

Lemma segments_aux_slash_free s : forall cur,
  slash_free cur = true ->
  Forall (fun seg => slash_free seg = true) (NodePath.segments_aux cur s).
Proof.
  induction s as [|c s IH]; intros cur H; simpl.
  - constructor; [|constructor]. rewrite slash_free_rev, H. reflexivity.
  - destruct (NodePath.is_slash c) eqn:E.
    + constructor; [rewrite slash_free_rev, H; reflexivity|].
      apply IH. reflexivity.
    + apply IH. simpl. rewrite E, H. reflexivity.
Qed.

Lemma push_segment_In acc seg x :
  In x (NodePath.push_segment false acc seg) -> x = seg \/ In x acc.
Proof.
  unfold NodePath.push_segment.
  destruct (String.eqb seg EmptyString || String.eqb seg "."); [auto|].
  destruct (String.eqb seg "..").
  - destruct acc as [|last rest]; [intros []|].
    destruct (String.eqb last ".."); [auto|]. intros H. right. right.
    assumption.
  - intros [H|H]; auto.
Qed.

Lemma normalize_segments_In segs x :
  In x (NodePath.normalize_segments false segs) -> In x segs.
Proof.
  unfold NodePath.normalize_segments. rewrite <- in_rev.
  assert (H : forall acc,
             In x (fold_left (NodePath.push_segment false) segs acc) ->
             In x segs \/ In x acc).
  { induction segs as [|seg segs IH]; simpl; intros acc Hx; [auto|].
    destruct (IH _ Hx) as [H|H]; [auto|].
    apply push_segment_In in H. destruct H as [->|H]; auto. }
  intros Hx. destruct (H [] Hx) as [Hs|[]]. assumption.
Qed.

Lemma normalize_segments_clean s :
  Forall clean_segment
         (NodePath.normalize_segments false (NodePath.segments s)).
Proof.
  apply Forall_forall. intros x Hx. split.
  - pose proof (normalize_segments_plain (NodePath.segments s)) as P.
    rewrite Forall_forall in P. apply P. assumption.
  - apply normalize_segments_In in Hx.
    pose proof (segments_aux_slash_free s EmptyString eq_refl) as F.
    rewrite Forall_forall in F. apply F. assumption.
Qed.

Lemma resolve_clean here p :
  NodePath.isAbsolute here = true ->
  exists segs,
    NodePath.resolve here p = "/" ++ NodePath.join segs
    /\ Forall clean_segment segs.
Proof.
  intros Hh. unfold NodePath.resolve.
  destruct (NodePath.isAbsolute p).
  - eexists. split; [reflexivity|]. apply normalize_segments_clean.
  - destruct (String.eqb here EmptyString) eqn:E.
    + apply String.eqb_eq in E. subst. discriminate.
    + rewrite Hh. eexists. split; [reflexivity|].
      apply normalize_segments_clean.
Qed.

(** Reading back the segments of a joined path. *)
Lemma segments_aux_segment x : forall cur rest,
  slash_free x = true ->
  NodePath.segments_aux cur (x ++ rest)
  = NodePath.segments_aux (JsString.rev_string cur x) rest.
Proof.
  induction x as [|c x IH]; intros cur rest H; [reflexivity|].
  simpl in *. apply andb_true_iff in H. destruct H as [Hc Hx].
  apply negb_true_iff in Hc. rewrite Hc. apply IH. assumption.
Qed.

Lemma segments_aux_slash cur rest :
  NodePath.segments_aux cur (String "/" rest)
  = JsString.rev_string EmptyString cur
    :: NodePath.segments_aux EmptyString rest.
Proof. reflexivity. Qed.

Lemma append_assoc (a b c : string) : (a ++ b) ++ c = a ++ (b ++ c).
Proof. induction a as [|x a IH]; simpl; congruence. Qed.

Lemma segments_join segs :
  Forall clean_segment segs -> segs <> [] ->
  NodePath.segments (NodePath.join segs ++ "/") = (segs ++ [EmptyString])%list.
Proof.
  unfold NodePath.segments. intros H.
  induction H as [|x l [_ Hx] Hl IH]; intros N; [congruence|].
  destruct l as [|y l].
  - cbn [NodePath.join]. rewrite segments_aux_segment by assumption.
    rewrite segments_aux_slash, rev_string_involutive. reflexivity.
  - change (NodePath.join (x :: y :: l))
      with (x ++ String "/" (NodePath.join (y :: l))).
    rewrite append_assoc, segments_aux_segment by assumption.
    change (String "/" (NodePath.join (y :: l)) ++ "/")
      with (String "/" (NodePath.join (y :: l) ++ "/")).
    rewrite segments_aux_slash, rev_string_involutive.
    change ((x :: y :: l) ++ [EmptyString])%list
      with (x :: ((y :: l) ++ [EmptyString]))%list.
    f_equal. apply IH. discriminate.
Qed.

Lemma push_all_clean segs : forall acc,
  Forall clean_segment segs ->
  fold_left (NodePath.push_segment false) segs acc = (rev segs ++ acc)%list.
Proof.
  induction segs as [|x l IH]; intros acc H; [reflexivity|].
  inversion H as [|? ? Hx Hl]; subst. destruct Hx as [(N1 & N2 & N3) _].
  simpl.
  rewrite IH by assumption. rewrite <- app_assoc. simpl. f_equal.
  unfold NodePath.push_segment.
  apply String.eqb_neq in N1, N2, N3. rewrite N1, N2, N3. reflexivity.
Qed.

Lemma normalize_clean segs :
  Forall clean_segment segs ->
  NodePath.normalize_segments false (EmptyString :: segs ++ [EmptyString])
  = segs.
Proof.
  intros H. unfold NodePath.normalize_segments. cbn [fold_left].
  change (NodePath.push_segment false [] EmptyString) with (@nil string).
  rewrite fold_left_app, (push_all_clean segs [] H). cbn [fold_left].
  change (NodePath.push_segment false (rev segs ++ []) EmptyString)
    with (rev segs ++ [])%list.
  rewrite app_nil_r. apply rev_involutive.
Qed.

Lemma resolve_joined here segs :
  Forall clean_segment segs ->
  NodePath.resolve here ("/" ++ NodePath.join segs) = "/" ++ NodePath.join segs.
Proof.
  intros H. unfold NodePath.resolve.
  change (NodePath.isAbsolute ("/" ++ NodePath.join segs)) with true.
  change (String.eqb ("/" ++ NodePath.join segs) EmptyString) with false.
  cbv iota beta. cbn [negb]. unfold NodePath.normalizeString.
  destruct segs as [|x l].
  - reflexivity.
  - change (NodePath.segments (("/" ++ NodePath.join (x :: l)) ++ "/"))
      with (EmptyString
              :: NodePath.segments (NodePath.join (x :: l) ++ "/")).
    rewrite segments_join by (assumption || discriminate).
    rewrite normalize_clean by assumption. reflexivity.
Qed.

(** [path.resolve] is idempotent. *)
Lemma resolve_idempotent here there p :
  NodePath.isAbsolute here = true ->
  NodePath.resolve there (NodePath.resolve here p) = NodePath.resolve here p.
Proof.
  intros H. destruct (resolve_clean here p H) as (segs & -> & C).
  apply resolve_joined. assumption.
Qed.

End Canonical.

Section ValidatedPaths.
Context {W : Type} {host : Host W}.

(** X17.  What [validatePath] returns is canonical: in a process whose
    working directory is absolute, the path it returns is a slash
    followed by segments joined by slashes, none of which is empty, [.]
    or [..] or holds a slash; resolving that path again, from any
    directory, gives the same path, and validating it again returns it
    unchanged.  Validation changes nothing.  Both servers. *)
Theorem validatePath_returns_a_canonical_path
        (sP : @FilesystemServer.State W) (sC : @Comprehensive.State W)
        (targetPath : string) :
  NodePath.isAbsolute (cwd (FilesystemServer.world sP)) = true ->
  NodePath.isAbsolute (cwd (Comprehensive.world sC)) = true ->
  let rP := NodePath.resolve (cwd (FilesystemServer.world sP)) targetPath in
  let rC := NodePath.resolve (cwd (Comprehensive.world sC)) targetPath in
  is_allowed (FilesystemServer.allowedDirectories sP) rP = true ->
  is_allowed (Comprehensive.allowedDirectories sC) rC = true ->
  (FilesystemServer.validatePath targetPath sP = (Return rP, sP)
   /\ FilesystemServer.validatePath rP sP = (Return rP, sP)
   /\ (forall here, NodePath.resolve here rP = rP)
   /\ exists segs, rP = "/" ++ NodePath.join segs /\ Forall clean_segment segs)
  /\ (Comprehensive.validatePath targetPath sC = (Return rC, sC)
      /\ Comprehensive.validatePath rC sC = (Return rC, sC)
      /\ (forall here, NodePath.resolve here rC = rC)
      /\ exists segs,
          rC = "/" ++ NodePath.join segs /\ Forall clean_segment segs).
Proof.
  intros AP AC rP rC HP HC. split.
  - split; [rewrite plain_validatePath_run; fold rP; rewrite HP; reflexivity|].
    split; [|split].
    + rewrite plain_validatePath_run. unfold rP at 1 2.
      rewrite resolve_idempotent by assumption. fold rP. rewrite HP.
      reflexivity.
    + intros here. apply resolve_idempotent. assumption.
    + apply resolve_clean. assumption.
  - split; [rewrite composite_validatePath_run; fold rC; rewrite HC;
            reflexivity|].
    split; [|split].
    + rewrite composite_validatePath_run. unfold rC at 1 2.
      rewrite resolve_idempotent by assumption. fold rC. rewrite HC.
      reflexivity.
    + intros here. apply resolve_idempotent. assumption.
    + apply resolve_clean. assumption.
Qed.

(** X18.  Validation never denies what lies within: a path that resolves
    to an allowed directory or to a path under one is accepted, and
    resolved, by both servers. *)
Theorem validatePath_accepts_what_lies_within
        (sP : @FilesystemServer.State W) (sC : @Comprehensive.State W)
        (targetPath : string) :
  let rP := NodePath.resolve (cwd (FilesystemServer.world sP)) targetPath in
  let rC := NodePath.resolve (cwd (Comprehensive.world sC)) targetPath in
  within_some (FilesystemServer.allowedDirectories sP) rP = true ->
  within_some (Comprehensive.allowedDirectories sC) rC = true ->
  FilesystemServer.validatePath targetPath sP = (Return rP, sP)
  /\ Comprehensive.validatePath targetPath sC = (Return rC, sC).
Proof.
  intros rP rC HP HC.
  rewrite plain_validatePath_run, composite_validatePath_run.
  fold rP rC.
  rewrite (within_some_is_allowed _ _ HP), (within_some_is_allowed _ _ HC).
  split; reflexivity.
Qed.

End ValidatedPaths.

Lemma validatePath_returns_a_canonical_path_witness :
  FilesystemServer.validatePath "/tmp/a/./sub/../x.txt" Scenario.plain
  = (Return "/tmp/a/x.txt", Scenario.plain)
  /\ forall here, NodePath.resolve here "/tmp/a/x.txt" = "/tmp/a/x.txt".
Proof.
  destruct (validatePath_returns_a_canonical_path
              Scenario.plain (Scenario.composite JsObject.empty)
              "/tmp/a/./sub/../x.txt")
    as ((V & _ & I & _) & _);
    [reflexivity|reflexivity|reflexivity|reflexivity|].
  split; [exact V|exact I].
Defined.

Lemma validatePath_accepts_what_lies_within_witness :
  FilesystemServer.validatePath "sub/../../../tmp/a/x.txt" Scenario.plain
  = (Return "/tmp/a/x.txt", Scenario.plain)
  /\ Comprehensive.validatePath "/tmp/a" (Scenario.composite JsObject.empty)
     = (Return "/tmp/a", Scenario.composite JsObject.empty).
Proof.
  split.
  - destruct (validatePath_accepts_what_lies_within
                Scenario.plain (Scenario.composite JsObject.empty)
                "sub/../../../tmp/a/x.txt") as [V _];
      [reflexivity|reflexivity|exact V].
  - destruct (validatePath_accepts_what_lies_within
                Scenario.plain (Scenario.composite JsObject.empty)
                "/tmp/a") as [_ V]; [reflexivity|reflexivity|exact V].
Defined.

(** ** Edits *)

Section EditProperties.
Context {W : Type} {host : Host W}.

(** X19.  [edit_file] applies all the edits or none: when, at its turn,
    the text of an edit is not in the content that the edits before it
    have produced, the call fails, names that text, and leaves the file
    and the whole server as they were - the edits before it are not
    written either.  Both servers, dry run or not. *)
Theorem editFile_is_all_or_nothing
        (sP : @FilesystemServer.State W) (sC : @Comprehensive.State W)
        (filePath : string) (edits : list FileEdit) (dryRun : bool)
        (contentP contentC mP mC : string) :
  is_allowed (FilesystemServer.allowedDirectories sP)
    (NodePath.resolve (cwd (FilesystemServer.world sP)) filePath) = true ->
  is_allowed (Comprehensive.allowedDirectories sC)
    (NodePath.resolve (cwd (Comprehensive.world sC)) filePath) = true ->
  fs_readFile (NodePath.resolve (cwd (FilesystemServer.world sP)) filePath)
              (FilesystemServer.world sP) = inl contentP ->
  fs_readFile (NodePath.resolve (cwd (Comprehensive.world sC)) filePath)
              (Comprehensive.world sC) = inl contentC ->
  apply_edits edits contentP = inr mP ->
  apply_edits edits contentC = inr mC ->
  (FilesystemServer.editFile filePath edits dryRun sP
   = (Throw ("Failed to edit file: " ++ mP), sP)
   /\ exists done edit rest current,
       edits = (done ++ edit :: rest)%list
       /\ apply_edits done contentP = inl current
       /\ JsString.includes current (oldText edit) = false
       /\ mP = "Text to replace not found: " ++ quote ++ oldText edit ++ quote)
  /\ (Comprehensive.editFile filePath edits dryRun sC
      = (Throw ("Failed to edit file: " ++ mC), sC)
      /\ exists done edit rest current,
          edits = (done ++ edit :: rest)%list
          /\ apply_edits done contentC = inl current
          /\ JsString.includes current (oldText edit) = false
          /\ mC = "Text to replace not found: "
                    ++ quote ++ oldText edit ++ quote).
Proof.
  intros AP AC RP RC EP EC. split; split.
  - apply (editFile_text_not_found filePath edits dryRun sP sC contentP mP EP);
      assumption.
  - apply apply_edits_not_found. assumption.
  - apply (editFile_text_not_found filePath edits dryRun sP sC contentC mC EC);
      assumption.
  - apply apply_edits_not_found. assumption.
Qed.

End EditProperties.

Lemma prefix_split pat : forall s,
  String.prefix pat s = true ->
  String.length pat <= String.length s
  /\ pat ++ JsString.drop (String.length pat) s = s.
Proof.
  induction pat as [|a pat IH]; intros s P.
  - split; [simpl; lia|]. destruct s; reflexivity.
  - destruct s as [|b s]; [discriminate|]. simpl in P.
    destruct (Ascii.ascii_dec a b) as [->|]; [|discriminate].
    destruct (IH s P) as [L E]. split; [simpl; lia|].
    simpl. rewrite E. reflexivity.
Qed.

Lemma indexOf_bound s pat : forall i,
  JsString.indexOf s pat = Some i ->
  i + String.length pat <= String.length s
  /\ JsString.take i s ++ pat ++ JsString.drop (i + String.length pat) s = s.
Proof.
  induction s as [|c s IH]; intros i H.
  - cbn [JsString.indexOf] in H.
    destruct (String.prefix pat EmptyString) eqn:P; [|discriminate].
    injection H as <-. destruct (prefix_split pat _ P) as [L E].
    split; [assumption|]. destruct pat; [reflexivity|discriminate].
  - cbn [JsString.indexOf] in H.
    destruct (String.prefix pat (String c s)) eqn:P.
    + injection H as <-. destruct (prefix_split pat _ P) as [L E].
      split; [assumption|]. exact E.
    + destruct (JsString.indexOf s pat) as [j|] eqn:J; [|discriminate].
      injection H as <-. destruct (IH j eq_refl) as [L E].
      split; [simpl; lia|]. simpl. rewrite E. reflexivity.
Qed.

Lemma length_append (a b : string) :
  String.length (a ++ b) = String.length a + String.length b.
Proof. induction a as [|c a IH]; simpl; congruence. Qed.

Lemma indexOf_found a : forall s pat,
  String.prefix pat s = true -> JsString.indexOf (a ++ s) pat <> None.
Proof.
  induction a as [|c a IH]; intros s pat P.
  - cbn [append]. destruct s; cbn [JsString.indexOf]; rewrite P;
      discriminate.
  - cbn [append JsString.indexOf].
    destruct (String.prefix pat (String c (a ++ s))); [discriminate|].
    specialize (IH s pat P).
    destruct (JsString.indexOf (a ++ s) pat); [discriminate|congruence].
Qed.

Lemma prefix_append (pat rest : string) : String.prefix pat (pat ++ rest) = true.
Proof.
  induction pat as [|c pat IH]; simpl; [destruct rest; reflexivity|].
  destruct (Ascii.ascii_dec c c); [assumption|congruence].
Qed.

Lemma apply_edits_app a : forall b modifiedContent,
  apply_edits (a ++ b) modifiedContent
  = match apply_edits a modifiedContent with
    | inl current => apply_edits b current
    | inr m => inr m
    end.
Proof.
  induction a as [|edit a IH]; intros b c; [reflexivity|].
  simpl. destruct (JsString.includes c (oldText edit)); [apply IH|reflexivity].
Qed.

(** X20.  The edits of one call are applied one after the other, each to
    what the one before it produced, so that a list of edits does what
    its two halves do in turn.  An edit whose new text holds no dollar
    sign replaces the first occurrence of its old text by its new text
    and nothing else: the new text then occurs in the content, and the
    content grows by the difference of the two lengths. *)
Theorem edits_apply_in_order_and_in_place
        (before after : list FileEdit) (edit : FileEdit) (c : string) :
  apply_edits (before ++ after) c
  = match apply_edits before c with
    | inl current => apply_edits after current
    | inr m => inr m
    end
  /\ (has_dollar (newText edit) = false ->
      JsString.includes c (oldText edit) = true ->
      exists i,
        JsString.indexOf c (oldText edit) = Some i
        /\ apply_edits [edit] c
           = inl (JsString.take i c ++ newText edit
                    ++ JsString.drop (i + String.length (oldText edit)) c)
        /\ forall c', apply_edits [edit] c = inl c' ->
                      JsString.includes c' (newText edit) = true
                      /\ String.length c' + String.length (oldText edit)
                         = String.length c + String.length (newText edit)).
Proof.
  split; [apply apply_edits_app|].
  intros D I. unfold JsString.includes in I.
  destruct (JsString.indexOf c (oldText edit)) as [i|] eqn:E; [|discriminate].
  exists i. split; [reflexivity|].
  assert (R : apply_edits [edit] c
              = inl (JsString.take i c ++ newText edit
                       ++ JsString.drop (i + String.length (oldText edit)) c)).
  { simpl. unfold JsString.includes. rewrite E.
    rewrite (replace_plain _ _ _ D). unfold JsString.replace_literal.
    rewrite E. reflexivity. }
  split; [exact R|]. intros c' H. rewrite R in H. injection H as <-.
  destruct (indexOf_bound c (oldText edit) i E) as [L S]. split.
  - unfold JsString.includes.
    pose proof (indexOf_found (JsString.take i c)
                  (newText edit
                     ++ JsString.drop (i + String.length (oldText edit)) c)
                  (newText edit) (prefix_append _ _)) as F.
    match goal with
    | |- context [JsString.indexOf ?a ?b] => destruct (JsString.indexOf a b)
    end; [reflexivity|congruence].
  - rewrite <- S at 3. rewrite !length_append. lia.
Qed.

(** ** The client of the memory server *)

Section Client.
Context {W : Type} {host : Host W}.
Import JsObject JsObjectFacts.

Lemma client_query call (s : @MemoryClient.State W) :
  MemoryServer.isInitialized (MemoryClient.server s) = true ->
  memory_reads_only call = true ->
  MemoryClient.callTool call s
  = (match fst (MemoryServer.dispatch call (MemoryClient.server s)) with
     | Return r => Return (content r)
     | Throw m => Return (Text ("Error: " ++ m))
     end, s).
Proof.
  intros I Q. unfold MemoryClient.callTool, MemoryServer.callTool, try_catch.
  rewrite run_bind. unfold MemoryServer.ensureInitialized. rewrite I.
  destruct s as [m c]. destruct call; try discriminate; reflexivity.
Qed.

Lemma ensureConnected_run (s : @MemoryClient.State W) :
  MemoryClient.ensureConnected s
  = if MemoryClient.isConnected s then (Return tt, s)
    else (Throw "Memory client not connected. Call connect() first.", s).
Proof.
  unfold MemoryClient.ensureConnected. run_step.
  destruct (MemoryClient.isConnected s); reflexivity.
Qed.

Lemma client_searchNodes_run query (s : @MemoryClient.State W) :
  MemoryClient.isConnected s = true ->
  MemoryServer.isInitialized (MemoryClient.server s) = true ->
  MemoryClient.searchNodes query s
  = (Return (MemoryServer.search
               query (MemoryServer.memoryGraph (MemoryClient.server s))), s).
Proof.
  intros C I. unfold MemoryClient.searchNodes.
  rewrite run_bind, ensureConnected_run, C, run_bind.
  rewrite (client_query (MemoryServer.search_nodes query) s I eq_refl).
  reflexivity.
Qed.

Lemma client_readGraph_run (s : @MemoryClient.State W) :
  MemoryClient.isConnected s = true ->
  MemoryServer.isInitialized (MemoryClient.server s) = true ->
  MemoryClient.readGraph s
  = (Return (MemoryServer.memoryGraph (MemoryClient.server s)), s).
Proof.
  intros C I. unfold MemoryClient.readGraph.
  rewrite run_bind, ensureConnected_run, C, run_bind.
  rewrite (client_query MemoryServer.read_graph s I eq_refl). reflexivity.
Qed.

Lemma client_openNode_run nm (s : @MemoryClient.State W) :
  MemoryClient.isConnected s = true ->
  MemoryServer.isInitialized (MemoryClient.server s) = true ->
  MemoryClient.openNode nm s
  = (Return (get nm (MemoryServer.memoryGraph (MemoryClient.server s))), s).
Proof.
  intros C I. unfold MemoryClient.openNode, MemoryClient.openNodes.
  rewrite !run_bind, ensureConnected_run, C, run_bind.
  rewrite (client_query (MemoryServer.open_nodes [nm]) s I eq_refl).
  cbn [MemoryServer.dispatch]. unfold MemoryServer.openNodes. run_step.
  cbn [ret fst content flat_map].
  destruct (get nm _); reflexivity.
Qed.

(** X21.  A connected client of an initialised memory server reads the
    graph as it is and changes nothing: [searchNodes] returns the
    results of the server's search, [openNode], for a name that is not
    the name of a member of [Object.prototype], the entity stored under
    the name or nothing, [getEntityCount] the number of entities, and
    [recallSimilar] the first results of the search, at most as many as
    the limit (5 when none is given).  A client that is not connected
    fails before it reaches the server. *)
Theorem client_queries_read_the_graph
        (s : @MemoryClient.State W) (query nm : string) (limit : option Z) :
  MemoryServer.isInitialized (MemoryClient.server s) = true ->
  let g := MemoryServer.memoryGraph (MemoryClient.server s) in
  let n := match limit with Some n => n | None => 5%Z end in
  let refused := "Memory client not connected. Call connect() first." in
  if MemoryClient.isConnected s
  then MemoryClient.searchNodes query s = (Return (MemoryServer.search query g), s)
       /\ (ordinary nm -> MemoryClient.openNode nm s = (Return (get nm g), s))
       /\ MemoryClient.getEntityCount s = (Return (length (keys g)), s)
       /\ MemoryClient.recallSimilar query limit s
          = (Return (slice_to n (MemoryServer.search query g)), s)
       /\ ((0 <= n)%Z ->
           length (slice_to n (MemoryServer.search query g)) <= Z.to_nat n)
  else MemoryClient.searchNodes query s = (Throw refused, s)
       /\ MemoryClient.openNode nm s = (Throw refused, s)
       /\ MemoryClient.getEntityCount s = (Throw refused, s)
       /\ MemoryClient.recallSimilar query limit s = (Throw refused, s).
Proof.
  intros I. cbv zeta. destruct (MemoryClient.isConnected s) eqn:C.
  - split; [apply client_searchNodes_run; assumption|].
    split; [intros _; apply client_openNode_run; assumption|].
    split; [|split].
    + unfold MemoryClient.getEntityCount.
      rewrite run_bind, client_readGraph_run by assumption. reflexivity.
    + unfold MemoryClient.recallSimilar.
      rewrite run_bind, client_searchNodes_run by assumption. reflexivity.
    + apply slice_to_length.
  - unfold MemoryClient.searchNodes, MemoryClient.openNode,
      MemoryClient.openNodes, MemoryClient.getEntityCount,
      MemoryClient.readGraph, MemoryClient.recallSimilar,
      MemoryClient.searchNodes.
    rewrite !run_bind, ensureConnected_run, C. repeat split; reflexivity.
Qed.

Lemma boost_nothing result : MemoryClient.boost [] result = result.
Proof.
  destruct result as [n t o r sc]. unfold MemoryClient.boost. simpl.
  f_equal. induction r as [|x r IH] in sc |- *; [reflexivity|apply IH].
Qed.

Lemma boost_score contextEntities result :
  score (MemoryClient.boost contextEntities result)
  = score result
    + 5 * length (filter (fun relation => includes contextEntities (to relation))
                         (result_relations result)).
Proof.
  unfold MemoryClient.boost. simpl. generalize (score result).
  induction (result_relations result) as [|x r IH]; intros sc; simpl; [lia|].
  rewrite IH. destruct (includes contextEntities (to x)); simpl; lia.
Qed.

(** X22.  [contextualSearch] returns the results of [searchNodes], each
    with 5 added to its score for every relation of it that points at an
    entity of the context, best first again.  Without a context, or with
    an empty one, the results are those of [searchNodes]. *)
Theorem contextualSearch_reranks
        (s : @MemoryClient.State W) (query : string)
        (contextEntities : option (list string)) :
  MemoryClient.isConnected s = true ->
  MemoryServer.isInitialized (MemoryClient.server s) = true ->
  let found :=
    MemoryServer.search query
                        (MemoryServer.memoryGraph (MemoryClient.server s)) in
  exists results,
    MemoryClient.contextualSearch query contextEntities s = (Return results, s)
    /\ Permutation results
         (map (MemoryClient.boost (context_of contextEntities)) found)
    /\ StronglySorted (fun a b => score b <= score a) results
    /\ (forall r,
           score (MemoryClient.boost (context_of contextEntities) r)
           = score r
             + 5 * length (filter (fun relation =>
                                     includes (context_of contextEntities)
                                              (to relation))
                                  (result_relations r)))
    /\ (context_of contextEntities = [] -> results = found).
Proof.
  intros C I. cbv zeta. unfold MemoryClient.contextualSearch.
  rewrite run_bind, client_searchNodes_run by assumption.
  set (found := MemoryServer.search query _).
  assert (N : map (MemoryClient.boost []) found = found).
  { rewrite (map_ext _ (fun r => r)) by apply boost_nothing. apply map_id. }
  destruct contextEntities as [[|c l]|]; cbn [context_of].
  - exists found. split; [reflexivity|]. rewrite N.
    repeat split; auto using boost_score. apply sort_sorted.
  - eexists. split; [reflexivity|].
    repeat split; auto using boost_score, sort_perm, sort_sorted.
    discriminate.
  - exists found. split; [reflexivity|]. rewrite N.
    repeat split; auto using boost_score. apply sort_sorted.
Qed.

Lemma ordinary_not_proto nm : ordinary nm -> String.eqb nm "__proto__" = false.
Proof.
  unfold ordinary, JsObject.inherited. cbn [existsb]. intros H.
  apply orb_false_iff in H. destruct H as [_ H].
  apply orb_false_iff in H. destruct H as [H _]. exact H.
Qed.

Lemma get_count_type entities : forall (typeCounts : t nat) type,
  (forall e, In e entities -> ordinary (entityType e)) ->
  get type (fold_left MemoryClient.count_type entities typeCounts)
  = let k := length (filter (fun entity => String.eqb (entityType entity) type)
                            entities) in
    match get type typeCounts with
    | Some n => Some (n + k)
    | None => if (k =? 0)%nat then None else Some k
    end.
Proof.
  induction entities as [|e l IH]; intros acc type O; cbv zeta.
  - simpl. destruct (get type acc); [f_equal; lia|reflexivity].
  - simpl. rewrite IH by (intros e' I; apply O; right; exact I).
    cbv zeta. unfold MemoryClient.count_type, set_primitive.
    rewrite (ordinary_not_proto _ (O e (or_introl eq_refl))).
    rewrite get_set.
    destruct (String.eqb (entityType e) type) eqn:E.
    + apply String.eqb_eq in E. subst type. simpl.
      destruct (get (entityType e) acc); f_equal; lia.
    + destruct (get type acc); reflexivity.
Qed.

(** X23.  [getEntityTypes] counts the entities of the graph by type,
    when no type is spelled like the name of a member of
    [Object.prototype]: a type that an entity has is paired with the
    number of entities of that type, and no other type is listed. *)
Theorem getEntityTypes_counts_by_type (s : @MemoryClient.State W) :
  MemoryClient.isConnected s = true ->
  MemoryServer.isInitialized (MemoryClient.server s) = true ->
  (forall n, In n (values (MemoryServer.memoryGraph (MemoryClient.server s)))
             -> ordinary (entityType n)) ->
  let g := MemoryServer.memoryGraph (MemoryClient.server s) in
  exists typeCounts,
    MemoryClient.getEntityTypes s = (Return typeCounts, s)
    /\ forall type,
        get type typeCounts
        = if (length (of_type type g) =? 0)%nat then None
          else Some (length (of_type type g)).
Proof.
  intros C I O. cbv zeta. eexists. split.
  - unfold MemoryClient.getEntityTypes.
    rewrite run_bind, client_readGraph_run by assumption. reflexivity.
  - intros type. rewrite get_count_type by exact O. reflexivity.
Qed.

End Client.

(** ** The configuration sidecar *)

Section Configuration.
Context {W : Type} {host : Host W} {reader : ConfigReader W}.

Lemma map_resolve_again here (dirs : list string) :
  NodePath.isAbsolute here = true ->
  map (NodePath.resolve here) (map (NodePath.resolve here) dirs)
  = map (NodePath.resolve here) dirs.
Proof.
  intros H. rewrite map_map. apply map_ext. intros d.
  apply resolve_idempotent. assumption.
Qed.

(** X24.  A server is constructed with its directories resolved; when
    its configuration sidecar can be read, [loadConfiguration] makes the
    list of allowed directories the resolved directories of the
    constructor followed by those of the sidecar, each listed once, at
    its first place; when it cannot, the list stays as constructed.  In
    a process whose working directory is absolute; both servers. *)
Theorem loadConfiguration_merges_the_sidecar
        (w : W) (dirs : list string) (memoryFile configFile : string) :
  NodePath.isAbsolute (cwd w) = true ->
  let constructed := map (NodePath.resolve (cwd w)) dirs in
  let loadedP :=
    FilesystemServer.allowedDirectories
      (snd (FilesystemServer.loadConfiguration
              (FilesystemServer.construct w dirs configFile))) in
  let loadedC :=
    Comprehensive.allowedDirectories
      (snd (Comprehensive.loadConfiguration
              (Comprehensive.construct w dirs memoryFile configFile))) in
  match load_config configFile w with
  | Some configured =>
      loadedP = new_Set (constructed ++ map (NodePath.resolve (cwd w)) configured)
      /\ loadedC = loadedP
      /\ NoDup loadedP
      /\ forall d, In d loadedP
                   <-> In d constructed
                       \/ In d (map (NodePath.resolve (cwd w)) configured)
  | None => loadedP = constructed /\ loadedC = constructed
  end.
Proof.
  intros A. cbv zeta.
  unfold FilesystemServer.loadConfiguration, Comprehensive.loadConfiguration,
    modify, FilesystemServer.construct, Comprehensive.construct.
  cbn [snd FilesystemServer.configFilePath FilesystemServer.world
         Comprehensive.configFilePath Comprehensive.world].
  destruct (load_config configFile w) as [configured|].
  - cbn [FilesystemServer.allowedDirectories FilesystemServer.set_directories
           Comprehensive.allowedDirectories Comprehensive.set_directories].
    rewrite map_app, map_resolve_again by assumption.
    split; [reflexivity|]. split; [reflexivity|].
    split; [apply new_Set_NoDup|]. intros d.
    rewrite new_Set_In, in_app_iff. reflexivity.
  - split; reflexivity.
Qed.

End Configuration.

(** ** Dates read back *)

Section Calendar.
Local Open Scope Z_scope.

Lemma days_ok_sound k : forall lo z,
  days_ok k lo = true -> lo <= z < lo + 2 ^ Z.of_nat k -> day_ok z = true.
Proof.
  induction k as [|k IH]; intros lo z H R.
  - simpl in *. assert (z = lo) by lia. subst. assumption.
  - cbn [days_ok] in H. apply andb_true_iff in H. destruct H as [H1 H2].
    rewrite Nat2Z.inj_succ, Z.pow_succ_r in R by lia.
    destruct (Z.lt_ge_cases z (lo + 2 ^ Z.of_nat k)).
    + apply (IH lo); [assumption|lia].
    + apply (IH (lo + 2 ^ Z.of_nat k)); [assumption|lia].
Qed.

Lemma first_era_ok :
  days_ok 17 (-719468) && days_ok 14 (-589755) = true.
Proof. vm_compute. reflexivity. Qed.

Lemma first_era_day_ok z :
  -719468 <= z < -719468 + 146097 -> day_ok z = true.
Proof.
  intros R. pose proof first_era_ok as H. apply andb_true_iff in H.
  destruct H as [H1 H2].
  destruct (Z.lt_ge_cases z (-719468 + 131072)).
  - apply (days_ok_sound 17 (-719468)); [assumption|]. simpl. lia.
  - apply (days_ok_sound 14 (-589755)); [assumption|]. simpl. lia.
Qed.

(** The calendar repeats every 400 years, which are 146097 days. *)
Lemma civil_from_days_era z k :
  JsDate.civil_from_days (z + 146097 * k)
  = let '(y, m, d) := JsDate.civil_from_days z in (y + 400 * k, m, d).
Proof.
  unfold JsDate.civil_from_days. cbv zeta.
  replace (z + 146097 * k + 719468) with (z + 719468 + k * 146097) by lia.
  rewrite Z.div_add by lia.
  set (era := (z + 719468) / 146097).
  replace (z + 719468 + k * 146097 - (era + k) * 146097)
    with (z + 719468 - era * 146097) by lia.
  set (doe := z + 719468 - era * 146097).
  set (yoe := (doe - doe / 1460 + doe / 36524 - doe / 146096) / 365).
  set (doy := doe - (365 * yoe + yoe / 4 - yoe / 100)).
  set (mp := (5 * doy + 2) / 153).
  destruct (_ <=? 2); f_equal; f_equal; lia.
Qed.

Lemma days_from_civil_era y m d k :
  JsDate.days_from_civil (y + 400 * k) m d
  = JsDate.days_from_civil y m d + 146097 * k.
Proof.
  unfold JsDate.days_from_civil. cbv zeta.
  set (y' := if m <=? 2 then y - 1 else y).
  replace (if m <=? 2 then y + 400 * k - 1 else y + 400 * k)
    with (y' + k * 400) by (unfold y'; destruct (m <=? 2); lia).
  rewrite Z.div_add by lia.
  replace (y' + k * 400 - (y' / 400 + k) * 400) with (y' - y' / 400 * 400)
    by lia.
  lia.
Qed.

Lemma is_leap_era y k : JsDate.is_leap (y + 400 * k) = JsDate.is_leap y.
Proof.
  unfold JsDate.is_leap.
  replace (y + 400 * k) with (y + k * 100 * 4) at 1 by lia.
  replace (y + 400 * k) with (y + k * 4 * 100) at 1 by lia.
  replace (y + 400 * k) with (y + k * 400) by lia.
  rewrite !Z.mod_add by lia. reflexivity.
Qed.

Lemma days_in_month_era y m k :
  JsDate.days_in_month (y + 400 * k) m = JsDate.days_in_month y m.
Proof. unfold JsDate.days_in_month. rewrite is_leap_era. reflexivity. Qed.

(** Every day number has a calendar date that reads back as that day
    number. *)
Lemma civil_round_trip z :
  let '(y, m, d) := JsDate.civil_from_days z in
  JsDate.days_from_civil y m d = z
  /\ 1 <= m <= 12 /\ 1 <= d <= JsDate.days_in_month y m
  /\ (0 <= z <= 2932896 -> 0 <= y <= 9999).
Proof.
  set (k := (z + 719468) / 146097).
  set (z' := z - 146097 * k).
  assert (R : -719468 <= z' < -719468 + 146097).
  { unfold z', k. pose proof (Z.div_mod (z + 719468) 146097).
    pose proof (Z.mod_pos_bound (z + 719468) 146097). lia. }
  assert (K : 0 <= z <= 2932896 -> 4 <= k <= 24 /\ (k = 24 -> z' <= -573432)).
  { intros Z. assert (4 <= k) by (unfold k; apply Z.div_le_lower_bound; lia).
    assert (k < 25) by (unfold k; apply Z.div_lt_upper_bound; lia).
    unfold z'. lia. }
  assert (E : z = z' + 146097 * k) by (unfold z'; lia).
  clearbody z' k. subst z.
  pose proof (first_era_day_ok z' R) as H.
  rewrite civil_from_days_era. unfold day_ok in H.
  destruct (JsDate.civil_from_days z') as [[y m] d].
  rewrite !andb_true_iff, orb_true_iff in H.
  rewrite !Z.leb_le, Z.eqb_eq in H.
  destruct H as [[[[[[[H1 H2] H3] H4] H5] H6] H7] H8].
  rewrite days_from_civil_era, days_in_month_era.
  repeat split; try lia; intros Z; destruct (K Z) as [K1 K2]; try lia.
Qed.

End Calendar.

Section Timestamps.
Local Open Scope Z_scope.

Lemma digit_spec n :
  JsObject.is_digit (JsDate.digit n) = true
  /\ Z.of_nat (nat_of_ascii (JsDate.digit n) - 48) = n mod 10
  /\ JsDate.digit n <> "A"%char.
Proof.
  unfold JsDate.digit. pose proof (Z.mod_pos_bound n 10 eq_refl) as B.
  remember (n mod 10) as j eqn:E. clear E.
  assert (C : j = 0 \/ j = 1 \/ j = 2 \/ j = 3 \/ j = 4 \/ j = 5 \/ j = 6
              \/ j = 7 \/ j = 8 \/ j = 9) by lia.
  repeat (destruct C as [C|C]; [subst j; repeat split; discriminate|]).
  subst j; repeat split; discriminate.
Qed.

Lemma number_digit acc n s :
  JsDate.number acc (String (JsDate.digit n) s)
  = JsDate.number (10 * acc + n mod 10) s.
Proof.
  destruct (digit_spec n) as (D & V & _).
  cbn [JsDate.number]. rewrite D, V. reflexivity.
Qed.

Lemma field_two a b rest :
  JsDate.field 2 (String (JsDate.digit a) (String (JsDate.digit b) rest))
  = Some (10 * (a mod 10) + b mod 10, rest).
Proof.
  unfold JsDate.field. cbn [String.length Nat.ltb Nat.leb JsString.take
                            JsString.drop].
  rewrite !number_digit. cbn [JsDate.number].
  apply f_equal. apply (f_equal (fun v => (v, rest))). lia.
Qed.

Lemma field_three a b c rest :
  JsDate.field 3
    (String (JsDate.digit a) (String (JsDate.digit b)
       (String (JsDate.digit c) rest)))
  = Some (10 * (10 * (a mod 10) + b mod 10) + c mod 10, rest).
Proof.
  unfold JsDate.field. cbn [String.length Nat.ltb Nat.leb JsString.take
                            JsString.drop].
  rewrite !number_digit. cbn [JsDate.number].
  apply f_equal. apply (f_equal (fun v => (v, rest))). lia.
Qed.

Lemma field_four a b c d rest :
  JsDate.field 4
    (String (JsDate.digit a) (String (JsDate.digit b)
       (String (JsDate.digit c) (String (JsDate.digit d) rest))))
  = Some (10 * (10 * (10 * (a mod 10) + b mod 10) + c mod 10) + d mod 10,
          rest).
Proof.
  unfold JsDate.field. cbn [String.length Nat.ltb Nat.leb JsString.take
                            JsString.drop].
  rewrite !number_digit. cbn [JsDate.number].
  apply f_equal. apply (f_equal (fun v => (v, rest))). lia.
Qed.

Lemma two_digits n :
  0 <= n <= 99 -> 10 * ((n / 10) mod 10) + n mod 10 = n.
Proof. intros B. Z.div_mod_to_equations. lia. Qed.

Lemma three_digits n :
  0 <= n <= 999
  -> 10 * (10 * ((n / 100) mod 10) + (n / 10) mod 10) + n mod 10 = n.
Proof. intros B. Z.div_mod_to_equations. lia. Qed.

Lemma four_digits n :
  0 <= n <= 9999
  -> 10 * (10 * (10 * ((n / 1000) mod 10) + (n / 100) mod 10)
           + (n / 10) mod 10) + n mod 10 = n.
Proof. intros B. Z.div_mod_to_equations. lia. Qed.

Lemma days_in_month_bound y m : JsDate.days_in_month y m <= 31.
Proof.
  unfold JsDate.days_in_month.
  destruct (m =? 2); [destruct (JsDate.is_leap y); lia|].
  destruct (_ || _); lia.
Qed.

(** What [new Date(text)] reads in a text of the shape that
    [toISOString] writes. *)
Lemma parse_written y m d h mi sec ms :
  0 <= y <= 9999 -> 0 <= m <= 99 -> 0 <= d <= 99 -> 0 <= h <= 99
  -> 0 <= mi <= 99 -> 0 <= sec <= 99 -> 0 <= ms <= 999
  -> JsDate.parse
       (JsDate.pad4 y ++ "-" ++ JsDate.pad2 m ++ "-" ++ JsDate.pad2 d ++ "T"
          ++ JsDate.pad2 h ++ ":" ++ JsDate.pad2 mi ++ ":"
          ++ JsDate.pad2 sec ++ "." ++ JsDate.pad3 ms ++ "Z")%string
     = if ((1 <=? m) && (m <=? 12) && (1 <=? d)
           && (d <=? JsDate.days_in_month y m)
           && (mi <=? 59) && (sec <=? 59)
           && ((h <=? 23)
               || ((h =? 24) && (mi =? 0) && (sec =? 0) && (ms =? 0))))%bool
       then Some (JsDate.days_from_civil y m d * JsDate.msPerDay
                  + h * 3600000 + mi * 60000 + sec * 1000 + ms)
       else None.
Proof.
  intros By Bm Bd Bh Bmi Bsec Bms.
  unfold JsDate.pad4, JsDate.pad3, JsDate.pad2. cbn [append].
  unfold JsDate.parse.
  rewrite field_four. cbn [JsDate.bind JsDate.expect Ascii.eqb Bool.eqb].
  rewrite field_two. cbn [JsDate.bind JsDate.expect Ascii.eqb Bool.eqb].
  rewrite field_two. cbn [JsDate.bind JsDate.expect Ascii.eqb Bool.eqb].
  rewrite field_two. cbn [JsDate.bind JsDate.expect Ascii.eqb Bool.eqb].
  rewrite field_two. cbn [JsDate.bind JsDate.expect Ascii.eqb Bool.eqb].
  rewrite field_two. cbn [JsDate.bind JsDate.expect Ascii.eqb Bool.eqb].
  rewrite field_three. cbn [JsDate.bind].
  rewrite (four_digits y By), (two_digits m Bm), (two_digits d Bd),
    (two_digits h Bh), (two_digits mi Bmi), (two_digits sec Bsec),
    (three_digits ms Bms).
  reflexivity.
Qed.

(** A time value of the years 1970 to 9999 is read back from its ISO
    text. *)
Lemma parse_toISOString t :
  0 <= t < 253402300800000 -> JsDate.parse (JsDate.toISOString t) = Some t.
Proof.
  intros B. unfold JsDate.toISOString. cbv zeta.
  assert (D : 0 <= t / JsDate.msPerDay <= 2932896).
  { unfold JsDate.msPerDay. split.
    - apply Z.div_pos; lia.
    - apply Z.lt_succ_r. apply Z.div_lt_upper_bound; lia. }
  pose proof (civil_round_trip (t / JsDate.msPerDay)) as C.
  destruct (JsDate.civil_from_days (t / JsDate.msPerDay)) as [[y m] d].
  destruct C as (C1 & C2 & C3 & C4). specialize (C4 D).
  pose proof (days_in_month_bound y m) as C5.
  replace ((0 <=? y) && (y <=? 9999))%bool with true
    by (symmetry; apply andb_true_iff; split; apply Z.leb_le; lia).
  pose proof (Z.mod_pos_bound t JsDate.msPerDay eq_refl) as Bms.
  set (ms := t mod JsDate.msPerDay) in *.
  assert (E : t = t / JsDate.msPerDay * JsDate.msPerDay + ms).
  { unfold ms. pose proof (Z.div_mod t JsDate.msPerDay). lia. }
  unfold JsDate.msPerDay in Bms.
  assert (Bh : 0 <= ms / 3600000 <= 23).
  { split; [apply Z.div_pos; lia|].
    apply Z.lt_succ_r. apply Z.div_lt_upper_bound; lia. }
  pose proof (Z.mod_pos_bound (ms / 60000) 60 eq_refl) as Bmi.
  pose proof (Z.mod_pos_bound (ms / 1000) 60 eq_refl) as Bsec.
  pose proof (Z.mod_pos_bound ms 1000 eq_refl) as Bmss.
  rewrite parse_written by lia.
  replace (1 <=? m) with true by (symmetry; apply Z.leb_le; lia).
  replace (m <=? 12) with true by (symmetry; apply Z.leb_le; lia).
  replace (1 <=? d) with true by (symmetry; apply Z.leb_le; lia).
  replace (d <=? JsDate.days_in_month y m) with true
    by (symmetry; apply Z.leb_le; lia).
  replace (ms / 60000 mod 60 <=? 59) with true
    by (symmetry; apply Z.leb_le; lia).
  replace (ms / 1000 mod 60 <=? 59) with true
    by (symmetry; apply Z.leb_le; lia).
  replace (ms / 3600000 <=? 23) with true
    by (symmetry; apply Z.leb_le; lia).
  cbn [andb orb]. f_equal. rewrite C1.
  assert (F : ms / 3600000 * 3600000 + ms / 60000 mod 60 * 60000
              + ms / 1000 mod 60 * 1000 + ms mod 1000 = ms).
  { clearbody ms. clear - Bms. Z.div_mod_to_equations. lia. }
  lia.
Qed.

End Timestamps.

(** ** A recorded access is recent for a day *)

Section Recency.
Local Open Scope Z_scope.

Lemma split_aux_lacks c sep s : forall cur,
  lacks c s ->
  JsString.split_aux (String c sep) 0 cur s
  = [JsString.rev_string EmptyString (JsString.rev_string cur s)].
Proof.
  induction s as [|a s IH]; intros cur L; [reflexivity|].
  destruct L as [N L]. cbn [JsString.split_aux String.prefix].
  destruct (ascii_dec c a) as [e|_]; [congruence|].
  rewrite (IH _ L). reflexivity.
Qed.

Lemma toISOString_lacks_A t : lacks "A" (JsDate.toISOString t).
Proof.
  unfold JsDate.toISOString. cbv zeta.
  destruct (JsDate.civil_from_days _) as [[y m] d].
  destruct (_ && _); [|destruct (y <? 0)];
    unfold JsDate.pad6, JsDate.pad4, JsDate.pad3, JsDate.pad2;
    cbn [append lacks];
    repeat split;
    try discriminate;
    match goal with |- JsDate.digit ?n <> _ => apply (digit_spec n) end.
Qed.

Lemma split_recorded_access t :
  JsString.split ("Accessed at: " ++ JsDate.toISOString t) "Accessed at: "
  = [EmptyString; JsDate.toISOString t].
Proof.
  unfold JsString.split.
  pose proof (toISOString_lacks_A t) as L.
  generalize dependent (JsDate.toISOString t). intros iso L.
  pose proof (prefix_append "Accessed at: " iso) as P.
  change ("Accessed at: " ++ iso)%string
    with (String "A" ("ccessed at: " ++ iso)) in *.
  cbn [JsString.split_aux]. rewrite P.
  cbn [String.length Nat.sub append JsString.split_aux JsString.rev_string].
  rewrite (split_aux_lacks "A" "ccessed at: " iso EmptyString L).
  rewrite rev_string_involutive. reflexivity.
Qed.

Lemma accessed_recently_recorded t now :
  0 <= t < 253402300800000 ->
  Comprehensive.accessed_recently now
    ("Accessed at: " ++ JsDate.toISOString t)
  = (now - 86400000 <? t).
Proof.
  intros B. unfold Comprehensive.accessed_recently.
  rewrite split_recorded_access. cbn [nth_error JsDate.later_than].
  rewrite (parse_toISOString t B).
  replace (JsString.includes _ _) with true; [reflexivity|].
  generalize (JsDate.toISOString t). intros iso. reflexivity.
Qed.

End Recency.

(** X25.  The observation that [rememberFileAccess] writes for an access
    at a time of the years 1970 to 9999 counts as recent exactly while
    less than 24 hours have passed: [new Date] reads the time back from
    its ISO text.  So a file entity that carries this observation is
    among the recently accessed files during that day. *)
Theorem a_recorded_access_is_recent_for_a_day
    (t now : Z) (filePath operation : string)
    (metadata : option Comprehensive.Metadata) (g : MemoryGraph) :
  (0 <= t < 253402300800000)%Z ->
  JsDate.parse (JsDate.toISOString t) = Some t
  /\ Comprehensive.accessed_recently now
       ("Accessed at: " ++ JsDate.toISOString t)
     = (now - 24 * 60 * 60 * 1000 <? t)%Z
  /\ ((now - 24 * 60 * 60 * 1000 < t)%Z ->
      existsb (Comprehensive.accessed_recently now)
        (Comprehensive.access_observations filePath operation t metadata)
      = true
      /\ forall n,
           In n (JsObject.values g) ->
           entityType n = "filesystem_file" ->
           In ("Accessed at: " ++ JsDate.toISOString t)%string
              (observations n) ->
           In n (Comprehensive.recent_files now g)).
Proof.
  intros B. split; [apply parse_toISOString; assumption|].
  pose proof (accessed_recently_recorded t now B) as R.
  split; [exact R|]. intros Recent.
  assert (R' : Comprehensive.accessed_recently now
                 ("Accessed at: " ++ JsDate.toISOString t) = true).
  { rewrite R. apply Z.ltb_lt. lia. }
  split.
  - unfold Comprehensive.access_observations.
    cbn [app existsb]. rewrite R'. apply orb_true_r.
  - intros n I T O. unfold Comprehensive.recent_files.
    apply filter_In. split; [assumption|]. rewrite T.
    cbn [andb].
    change (String.eqb "filesystem_file" "filesystem_file") with true.
    cbn [andb]. apply existsb_exists. eexists. split; [exact O|exact R'].
Qed.

Lemma a_recorded_access_is_recent_for_a_day_witness :
  JsDate.parse (JsDate.toISOString 1700000000000) = Some 1700000000000%Z
  /\ Comprehensive.accessed_recently 1700086399999
       ("Accessed at: " ++ JsDate.toISOString 1700000000000) = true.
Proof.
  destruct (a_recorded_access_is_recent_for_a_day
              1700000000000 1700086399999 "/tmp/a/x.txt" "read" None
              JsObject.empty) as (P & R & _); [lia|].
  split; [exact P|exact R].
Defined.

(** ** The properties at work *)

Lemma memory_server_invariant_witness :
  memory_sound
    (memory_run
       [Request (MemoryServer.create_relations
                   [Scenario.edge "Alice" "Dave" "knows"]);
        Elsewhere _ (SimpleHost.at_time (Scenario.noon + Scenario.minute));
        Request (MemoryServer.delete_entities ["Carol"; "Dave"]);
        Request (MemoryServer.add_observations "Alice" ["tall"])]
       (Scenario.memory Scenario.alice_graph)).
Proof.
  apply memory_server_invariant.
  - unfold requests_are. repeat constructor.
  - split; [reflexivity|apply no_dangling_alice_graph].
Defined.

Lemma createRelations_links_once_witness :
  Forall (linked
            (MemoryServer.memoryGraph
               (snd (MemoryServer.createRelations
                       [Scenario.edge "Alice" "Dave" "knows"]
                       (Scenario.memory Scenario.alice_graph)))))
         [Scenario.edge "Alice" "Dave" "knows"]
  /\ Forall (linked
               (Comprehensive.memoryGraph
                  (snd (Comprehensive.createRelations
                          [Scenario.edge "Alice" "Dave" "knows"]
                          (Scenario.composite Scenario.alice_graph)))))
            [Scenario.edge "Alice" "Dave" "knows"].
Proof.
  destruct (createRelations_links_once
              (Scenario.memory Scenario.alice_graph)
              (Scenario.composite Scenario.alice_graph)
              [Scenario.edge "Alice" "Dave" "knows"])
    as ((LM & _) & (LC & _)); [repeat constructor|].
  split; [exact LM|exact LC].
Defined.

Lemma deleteRelations_removes_matching_edges_witness :
  JsObject.get "Alice"
    (MemoryServer.memoryGraph
       (snd (MemoryServer.deleteRelations
               [Scenario.edge "Alice" "Carol" "knows"]
               (Scenario.memory Scenario.alice_graph))))
  = Some (Scenario.node "Alice" "person" ["likes tea"] []).
Proof.
  destruct (deleteRelations_removes_matching_edges
              (Scenario.memory Scenario.alice_graph)
              (Scenario.composite Scenario.alice_graph)
              [Scenario.edge "Alice" "Carol" "knows"]) as (M & _).
  destruct M as [_ G]; [repeat constructor|].
  rewrite G. reflexivity.
Defined.

Lemma composite_requests_keep_invariants_witness :
  let s :=
    composite_requests
      [Request (Comprehensive.tool
                  (Comprehensive.add_allowed_directory "/tmp/ab"));
       Request (Comprehensive.tool
                  (Comprehensive.delete_entities ["Carol"]));
       Request (Comprehensive.recall_file_history "/tmp/a/x.txt");
       Request (Comprehensive.tool
                  (Comprehensive.remove_allowed_directory "/tmp/a"))]
      (Scenario.composite Scenario.alice_graph) in
  graph_sound s
  /\ Comprehensive.allowedDirectories s <> []
  /\ NoDup (Comprehensive.allowedDirectories s).
Proof.
  apply composite_requests_keep_invariants.
  - unfold requests_are. repeat constructor.
  - intros n [<-|[<-|[]]]; reflexivity.
  - split; [reflexivity|apply no_dangling_alice_graph].
  - discriminate.
  - repeat constructor; simpl; tauto.
Defined.

Lemma addAllowedDirectory_adds_directories_only_witness :
  FilesystemServer.addAllowedDirectory "/tmp/a/x.txt" Scenario.plain
  = (Throw ("Failed to add directory: Directory /tmp/a/x.txt"
              ++ " does not exist or is not accessible"), Scenario.plain)
  /\ Comprehensive.allowedDirectories
       (snd (Comprehensive.addAllowedDirectory
               "/tmp/ab" (Scenario.composite JsObject.empty)))
     = ["/tmp/a"; "/tmp/ab"].
Proof.
  destruct (addAllowedDirectory_adds_directories_only
              Scenario.plain (Scenario.composite JsObject.empty)
              "/tmp/a/x.txt") as [[_ T] _].
  destruct (addAllowedDirectory_adds_directories_only
              Scenario.plain (Scenario.composite JsObject.empty)
              "/tmp/ab") as [_ [A _]].
  split; [apply T; reflexivity|exact A].
Defined.

Lemma readMultipleFiles_answers_every_path_witness :
  exists results s',
    Comprehensive.readMultipleFiles ["/etc/passwd"; "/tmp/a/x.txt"]
                                    (Scenario.composite JsObject.empty)
    = (Return {| content := JsonFileMap results; isError := false |}, s')
    /\ JsObject.get "/etc/passwd" results
       = Some ("Error: " ++ access_denied "/etc/passwd").
Proof.
  destruct (readMultipleFiles_answers_every_path
              Scenario.plain (Scenario.composite JsObject.empty)
              ["/etc/passwd"; "/tmp/a/x.txt"])
    as (_ & results & s' & E & _ & _ & G).
  exists results, s'. split; [exact E|].
  apply G; [reflexivity|reflexivity|left; reflexivity].
Defined.

Lemma editFile_is_all_or_nothing_witness :
  FilesystemServer.editFile
    "/tmp/a/x.txt"
    [{| oldText := "h"; newText := "j" |};
     {| oldText := "hello"; newText := "bye" |}] false Scenario.plain
  = (Throw ("Failed to edit file: Text to replace not found: "
              ++ quote ++ "hello" ++ quote), Scenario.plain).
Proof.
  destruct (editFile_is_all_or_nothing
              Scenario.plain (Scenario.composite JsObject.empty)
              "/tmp/a/x.txt"
              [{| oldText := "h"; newText := "j" |};
               {| oldText := "hello"; newText := "bye" |}] false
              "hello" "hello"
              ("Text to replace not found: " ++ quote ++ "hello" ++ quote)
              ("Text to replace not found: " ++ quote ++ "hello" ++ quote))
    as [[E _] _];
    [reflexivity|reflexivity|reflexivity|reflexivity|reflexivity|reflexivity
    |exact E].
Defined.

Lemma edits_apply_in_order_and_in_place_witness :
  apply_edits [{| oldText := "l"; newText := "LL" |}] "hello" = inl "heLLlo"
  /\ JsString.includes "heLLlo" "LL" = true.
Proof.
  destruct (edits_apply_in_order_and_in_place
              [] [] {| oldText := "l"; newText := "LL" |} "hello")
    as [_ H].
  destruct H as (i & I & R & K); [reflexivity|reflexivity|].
  injection I as <-. split; [exact R|].
  destruct (K "heLLlo" R) as [F _]. exact F.
Defined.

Lemma client_queries_read_the_graph_witness :
  MemoryClient.openNode
    "Bob" {| MemoryClient.server := Scenario.memory Scenario.tea_graph;
             MemoryClient.isConnected := true |}
  = (Return (Some Scenario.bob),
     {| MemoryClient.server := Scenario.memory Scenario.tea_graph;
        MemoryClient.isConnected := true |})
  /\ MemoryClient.getEntityCount
       {| MemoryClient.server := Scenario.memory Scenario.tea_graph;
          MemoryClient.isConnected := false |}
     = (Throw "Memory client not connected. Call connect() first.",
        {| MemoryClient.server := Scenario.memory Scenario.tea_graph;
           MemoryClient.isConnected := false |}).
Proof.
  split.
  - destruct (client_queries_read_the_graph
                {| MemoryClient.server := Scenario.memory Scenario.tea_graph;
                   MemoryClient.isConnected := true |} "tea" "Bob" None
                eq_refl) as (_ & O & _).
    exact (O eq_refl).
  - destruct (client_queries_read_the_graph
                {| MemoryClient.server := Scenario.memory Scenario.tea_graph;
                   MemoryClient.isConnected := false |} "tea" "Bob" None
                eq_refl) as (_ & _ & C & _).
    exact C.
Defined.

Lemma contextualSearch_reranks_witness :
  exists results,
    MemoryClient.contextualSearch
      "person" (Some ["Carol"])
      {| MemoryClient.server := Scenario.memory Scenario.alice_graph;
         MemoryClient.isConnected := true |}
    = (Return results,
       {| MemoryClient.server := Scenario.memory Scenario.alice_graph;
          MemoryClient.isConnected := true |})
    /\ StronglySorted (fun a b => score b <= score a) results.
Proof.
  destruct (contextualSearch_reranks
              {| MemoryClient.server := Scenario.memory Scenario.alice_graph;
                 MemoryClient.isConnected := true |}
              "person" (Some ["Carol"]) eq_refl eq_refl)
    as (results & E & _ & S & _).
  exists results. split; assumption.
Defined.

Lemma getEntityTypes_counts_by_type_witness :
  exists typeCounts,
    MemoryClient.getEntityTypes
      {| MemoryClient.server := Scenario.memory Scenario.alice_graph;
         MemoryClient.isConnected := true |}
    = (Return typeCounts,
       {| MemoryClient.server := Scenario.memory Scenario.alice_graph;
          MemoryClient.isConnected := true |})
    /\ JsObject.get "person" typeCounts = Some 2
    /\ JsObject.get "robot" typeCounts = None.
Proof.
  destruct (getEntityTypes_counts_by_type
              {| MemoryClient.server := Scenario.memory Scenario.alice_graph;
                 MemoryClient.isConnected := true |} eq_refl eq_refl)
    as (typeCounts & E & G);
    [intros n [<-|[<-|[]]]; reflexivity|].
  exists typeCounts. split; [exact E|].
  split; [exact (G "person")|exact (G "robot")].
Defined.

Lemma loadConfiguration_merges_the_sidecar_witness :
  FilesystemServer.allowedDirectories
    (snd (FilesystemServer.loadConfiguration
            (FilesystemServer.construct
               {| SimpleHost.clock := Scenario.noon;
                  SimpleHost.workdir := "/home/u";
                  SimpleHost.files := [];
                  SimpleHost.graph_document := None;
                  SimpleHost.config_document := Some ["/tmp/ab"; "/tmp/a/"] |}
               ["/tmp/a"; "x/../y"] "./filesystem-config.json")))
  = ["/tmp/a"; "/home/u/y"; "/tmp/ab"].
Proof.
  pose proof (loadConfiguration_merges_the_sidecar
                {| SimpleHost.clock := Scenario.noon;
                   SimpleHost.workdir := "/home/u";
                   SimpleHost.files := [];
                   SimpleHost.graph_document := None;
                   SimpleHost.config_document := Some ["/tmp/ab"; "/tmp/a/"] |}
                ["/tmp/a"; "x/../y"] "./memory.json"
                "./filesystem-config.json" eq_refl) as H.
  destruct H as [E _]. exact E.
Defined.
